(** * Rolling sample window and spectrum bins of the JACK/FFTW visualiser

    Shallow embedding of [samples/samples_demoHelper/11_jack_audio/window.c].

    Conventions of the embedding.
    - C arrays are lists; an access outside the array is undefined behaviour
      in C and is [None] here, so every function that indexes an array
      returns an [option].
    - [int], [jack_nframes_t] and [Sint16] values are integers of [Z]; the
      conversion to [Sint16] writes the 16-bit wrap-around out.
    - [float] and [double] values are read at two levels.  The state
      [state] and the functions [ingest], [analyze], [mixCallback] and
      [draw] read them as real numbers, [sqrt] and [exp] being the
      functions of the same name on the reals: they give the value each
      expression denotes, and carry the statements on sizes, ranges, signs
      and on what is and is not written.  The program computes roundings
      of these values, and an integer it stores can differ from the
      truncation of the real value when a rounding crosses an integer; the
      module [Machine] embeds the two places where a floating-point value
      becomes an integer (line 105 and lines 172-178) over IEEE 754
      binary32 and binary64 numbers, and carries the statements on exact
      bin values and pixel rows.
    - The conversion of a [double] or [float] to [int] truncates towards
      zero and is undefined ([None]) when the truncated value does not fit
      a 32-bit [int].
    - [fftw_execute] belongs to the external FFTW library, whose code is not
      part of the program.  At the level of the reals it is modelled by the
      unnormalised discrete Fourier transform of its plan's size and
      direction; in [Machine] what it writes is an input. *)

From Stdlib Require Import ZArith Reals Lra Lia String SpecFloat.
From stdpp Require Import base option list.

Local Open Scope Z_scope.

(** ** Constants of the translation unit *)

(** [#define ECHANTILLONS 4096] *)
Definition ECHANTILLONS : Z := 4096.

(** [#define FREQUENCES (ECHANTILLONS >> 2)] *)
Definition FREQUENCES : Z := Z.shiftr ECHANTILLONS 2.

(** [static int _wW = 1280, _wH = 512;] (never assigned afterwards) *)
Definition _wW : Z := 1280.
Definition _wH : Z := 512.

(** [jack_nframes_t] is [uint32_t]. *)
Definition JACK_NFRAMES_MAX : Z := 2 ^ 32 - 1.

(** Limits of a 32-bit [int]. *)
Definition INT_MIN : Z := - 2 ^ 31.
Definition INT_MAX : Z := 2 ^ 31 - 1.

(** [jack_default_audio_sample_t] is [float]. *)
Abbreviation jack_default_audio_sample_t := R (only parsing).

(** ** Arrays and counted loops *)

Section Arrays.
Context {A : Type}.

(** [a[i]] as an rvalue. *)
Definition arr_get (a : list A) (i : Z) : option A :=
  if 0 <=? i then a !! Z.to_nat i else None.

(** [a[i] = v]. *)
Definition arr_set (a : list A) (i : Z) (v : A) : option (list A) :=
  if (0 <=? i) && (i <? Z.of_nat (length a))
  then Some (<[Z.to_nat i := v]> a)
  else None.
End Arrays.

Section Loops.
Context {S : Type}.

(** [n] iterations of [body], the counter starting at [i]. *)
Fixpoint for_range (n : nat) (i : Z) (body : Z → S → option S) (s : S)
  : option S :=
  match n with
  | O => Some s
  | Datatypes.S n' =>
      match body i s with
      | Some s' => for_range n' (i + 1) body s'
      | None => None
      end
  end.

(** [for (int i = a; i < b; ++i) body] *)
Definition for_loop (a b : Z) (body : Z → S → option S) (s : S) : option S :=
  for_range (Z.to_nat (b - a)) a body s.
End Loops.

Arguments for_loop : simpl never.
Arguments ECHANTILLONS : simpl never.
Arguments FREQUENCES : simpl never.

(** ** The rolling sample buffer (first half of [mixCallback]) *)

(** Lines 156-168: [samples] is [_samples], [buffer] the block returned by
    [jack_port_get_buffer], [nframes] its frame count. *)
Definition ingest (samples : list jack_default_audio_sample_t) (nframes : Z)
    (buffer : list jack_default_audio_sample_t)
  : option (list jack_default_audio_sample_t) :=
  if ECHANTILLONS <? nframes then
    for_loop 0 ECHANTILLONS
      (λ i s, v ← arr_get buffer i; arr_set s i v) samples
  else
    s1 ← for_loop nframes ECHANTILLONS
            (λ i s, v ← arr_get s i; arr_set s (i - nframes) v) samples;
    let end_ := ECHANTILLONS - nframes in
    for_loop 0 nframes
      (λ i s, v ← arr_get buffer i; arr_set s (i + end_) v) s1.

(** What the callback can receive: a frame count of type [jack_nframes_t]
    and a block holding that many frames. *)
Definition valid_block (nframes : Z) (buffer : list jack_default_audio_sample_t)
  : Prop :=
  0 <= nframes <= JACK_NFRAMES_MAX ∧ Z.of_nat (length buffer) = nframes.

(** ** Numeric conversions *)

(** [(int)x] for a [double] or [float] [x]: the fractional part is
    discarded; undefined when the result is not representable. *)
Definition Ztrunc (x : R) : Z :=
  if Rle_dec 0 x then Int_part x else - Int_part (- x).

Definition double_to_int (x : R) : option Z :=
  let z := Ztrunc x in
  if (INT_MIN <=? z) && (z <=? INT_MAX) then Some z else None.

(** Storing an [int] into a [Sint16] object (SDL's 16-bit signed integer):
    the value is reduced modulo [2^16] into [-32768 .. 32767], which is how
    the compilers the program builds with define this conversion. *)
Definition to_Sint16 (z : Z) : Z := (z + 32768) mod 65536 - 32768.

(** ** FFTW *)

(** [typedef double fftw_complex[2]]: real part, imaginary part. *)
Abbreviation fftw_complex := (R * R)%type (only parsing).

Definition FFTW_FORWARD : Z := -1.

(** What [fftw_plan_dft_1d] records: the transform size and the sign of the
    exponent. *)
Record fftw_plan_s : Type := mk_plan { plan_n : Z; plan_sign : Z }.

Definition cadd (x y : fftw_complex) : fftw_complex :=
  (x.1 + y.1, x.2 + y.2)%R.

(** [x * exp (sign * 2 * PI * i * j * k / n)] *)
Definition dft_term (n sign k j : Z) (x : fftw_complex) : fftw_complex :=
  let w := (IZR sign * 2 * PI * IZR j * IZR k / IZR n)%R in
  (x.1 * cos w - x.2 * sin w, x.1 * sin w + x.2 * cos w)%R.

(** Sum of [f j x] over the entries [x] of [l], [j] counting from the
    given index. *)
Fixpoint csum_from (f : Z → fftw_complex → fftw_complex) (j : Z)
    (l : list fftw_complex) : fftw_complex :=
  match l with
  | [] => (0, 0)%R
  | x :: l' => cadd (f j x) (csum_from f (j + 1) l')
  end.

(** Modelled from the spec: the transform [fftw_execute] computes (FFTW is
    not in the source tree).  The specification asks for "a length-N
    discrete Fourier transform (forward direction)" producing N complex
    outputs; output [k] is the sum over [j] of
    [inp[j] * exp (sign * 2 * PI * i * j * k / n)], with [sign = -1] for the
    forward direction, and no normalisation. *)
Definition dft_1d (n sign : Z) (inp : list fftw_complex) : list fftw_complex :=
  (λ k, csum_from (dft_term n sign k) 0 inp) <$> seqZ 0 n.

(** Modelled from the spec: [fftw_execute(plan)] on the two arrays the plan
    was made for, which have the plan's size; the output array receives the
    transform of the input array. *)
Definition fftw_execute (p : fftw_plan_s) (inp out : list fftw_complex)
  : option (list fftw_complex) :=
  if (Z.of_nat (length inp) =? plan_n p) && (Z.of_nat (length out) =? plan_n p)
  then Some (dft_1d (plan_n p) (plan_sign p) inp)
  else None.

(** ** Program state *)

(** The file-scope variables the callback and the renderer use; a null
    pointer is [None]. *)
Record state : Type := mk_state {
  _samples : list jack_default_audio_sample_t;
  _hauteurs : list Z;
  waveform : Z;
  _in4fftw : option (list fftw_complex);
  _out4fftw : option (list fftw_complex);
  _plan4fftw : option fftw_plan_s
}.

(** The state with [_samples] replaced. *)
Definition with_samples (window : list jack_default_audio_sample_t)
    (st : state) : state :=
  {| _samples := window;
     _hauteurs := _hauteurs st;
     waveform := waveform st;
     _in4fftw := _in4fftw st;
     _out4fftw := _out4fftw st;
     _plan4fftw := _plan4fftw st |}.

(** State at program start: static arrays are zero-initialised. *)
Definition initial_state : state :=
  {| _samples := replicate (Z.to_nat ECHANTILLONS) 0%R;
     _hauteurs := replicate (Z.to_nat FREQUENCES) 0;
     waveform := 0;
     _in4fftw := None;
     _out4fftw := None;
     _plan4fftw := None |}.

(** The plan [init] creates:
    [fftw_plan_dft_1d(ECHANTILLONS, _in4fftw, _out4fftw, FFTW_FORWARD, ..)]. *)
Definition init_plan : fftw_plan_s := mk_plan ECHANTILLONS FFTW_FORWARD.

(** [init], lines 77-83 (the GL and JACK set-up that follows is not part of
    the model), every allocation succeeding: [_in4fftw] is
    allocated and zeroed by [memset], [_out4fftw] is allocated and holds
    whatever [fftw_malloc] returned ([fresh], of [ECHANTILLONS] entries),
    the plan is a forward transform of size [ECHANTILLONS]. *)
Definition init (fresh : list fftw_complex) (st : state) : state :=
  {| _samples := _samples st;
     _hauteurs := _hauteurs st;
     waveform := waveform st;
     _in4fftw := Some (replicate (Z.to_nat ECHANTILLONS) (0, 0)%R);
     _out4fftw := Some fresh;
     _plan4fftw := Some init_plan |}.

(** ** The spectral analysis (second half of [mixCallback]) *)

(** Line 178, right-hand side before the conversions, over the reals: the
    value the expression denotes.  The [double] the program computes is
    [Machine.bin_value]. *)
Definition bin_value (c : fftw_complex) (i : Z) : R :=
  (sqrt (c.1 * c.1 + c.2 * c.2) * exp (2 * IZR i / IZR FREQUENCES))%R.

(** Lines 171-178, run with plan [p]. *)
Definition analyze (p : fftw_plan_s) (st : state) : option state :=
  inp ← _in4fftw st;
  out ← _out4fftw st;
  inp' ← for_loop 0 ECHANTILLONS
           (λ i a, s ← arr_get (_samples st) i;
                   c ← arr_get a i;
                   arr_set a i (s, c.2)) inp;
  out' ← fftw_execute p inp' out;
  h' ← for_loop 0 FREQUENCES
         (λ i h, c ← arr_get out' i;
                 v ← double_to_int (bin_value c i);
                 arr_set h i (to_Sint16 v)) (_hauteurs st);
  Some {| _samples := _samples st;
          _hauteurs := h';
          waveform := waveform st;
          _in4fftw := Some inp';
          _out4fftw := Some out';
          _plan4fftw := _plan4fftw st |}.

(** ** The audio callback *)

(** [mixCallback(nframes, arg)]; [buffer] is what
    [jack_port_get_buffer(arg, nframes)] returns.  The result is the new
    state and the returned status. *)
Definition mixCallback (st : state) (nframes : Z)
    (buffer : list jack_default_audio_sample_t) : option (state * Z) :=
  match _plan4fftw st with
  | Some p =>
      s' ← ingest (_samples st) nframes buffer;
      st' ← analyze p (with_samples s' st);
      Some (st', 0)
  | None => Some (st, 0)
  end.

(** ** The renderer *)

(** Lines 107-108 and 118-119. *)
Definition clamp_y (y0 : Z) : Z :=
  let y1 := if _wH <? y0 then _wH - 1 else y0 in
  if y1 <? 0 then 0 else y1.

(** The pixel of sample [i] in waveform mode (lines 104-110), the row
    expression of line 105 over the reals.  The [float] the program
    computes is [Machine.waveform_row]; the two agree wherever the
    operations of line 105 are exact, as they are for a sample of +1.0. *)
Definition waveform_pixel (st : state) (i : Z) : option (Z * Z) :=
  s ← arr_get (_samples st) i;
  let x0 := (i * (_wW - 1)) ÷ (ECHANTILLONS - 1) in
  y0 ← double_to_int ((s * IZR _wH + IZR _wH) / 2)%R;
  Some (x0, clamp_y y0).

(** The pixel of bin [i] in spectrum mode (lines 115-121). *)
Definition spectrum_pixel (st : state) (i : Z) : option (Z * Z) :=
  h ← arr_get (_hauteurs st) i;
  let x0 := (i * (_wW - 1)) ÷ (FREQUENCES - 1) in
  Some (x0, clamp_y h).

(** [draw()]: the arguments of the successive [gl4dpPutPixel] calls. *)
Definition draw (st : state) : option (list (Z * Z)) :=
  if waveform st =? 1 then
    for_loop 0 ECHANTILLONS
      (λ i px, p ← waveform_pixel st i; Some (px ++ [p])) []
  else
    for_loop 0 FREQUENCES
      (λ i px, p ← spectrum_pixel st i; Some (px ++ [p])) [].

(** ** Well-formed states *)

(** The arrays have their declared sizes; when the plan exists it is the
    one [init] makes, both FFTW arrays are allocated with [ECHANTILLONS]
    entries, and the imaginary parts of the input array are still the zeros
    written by [memset]. *)
Definition plan_ok (st : state) : Prop :=
  ∀ p, _plan4fftw st = Some p →
    p = init_plan ∧
    ∃ inp out, _in4fftw st = Some inp ∧ _out4fftw st = Some out ∧
      Z.of_nat (length inp) = ECHANTILLONS ∧
      Z.of_nat (length out) = ECHANTILLONS ∧
      Forall (λ c : fftw_complex, c.2 = 0%R) inp.

Definition wf_state (st : state) : Prop :=
  Z.of_nat (length (_samples st)) = ECHANTILLONS ∧
  Z.of_nat (length (_hauteurs st)) = FREQUENCES ∧
  plan_ok st.

(** ** Vocabulary of the statements *)

(** Entries [lo .. hi-1] of a sequence. *)
Definition slice {A : Type} (lo hi : nat) (l : list A) : list A :=
  take (hi - lo) (drop lo l).

(** The last [n] entries of a sequence. *)
Definition last_frames {A : Type} (n : nat) (l : list A) : list A :=
  drop (length l - n) l.

(** Sample data for the examples: silence, and the ramp [0, 1, .., n-1]. *)
Definition zero_window : list jack_default_audio_sample_t :=
  replicate (Z.to_nat ECHANTILLONS) 0%R.

Definition ramp (n : Z) : list jack_default_audio_sample_t :=
  IZR <$> seqZ 0 n.

(** The transform input the analysis stages from a window: the samples as
    real parts, zero imaginary parts. *)
Definition window_input (window : list jack_default_audio_sample_t)
  : list fftw_complex :=
  (λ x, (x, 0%R)) <$> window.

(** The forward transform of size [ECHANTILLONS] of a window. *)
Definition spectrum (window : list jack_default_audio_sample_t)
  : list fftw_complex :=
  dft_1d ECHANTILLONS FFTW_FORWARD (window_input window).

(** Magnitude of output [i], scaled by [exp (2 i / FREQUENCES)]. *)
Definition scaled_magnitude (window : list jack_default_audio_sample_t)
    (i : Z) : R :=
  bin_value (nth (Z.to_nat i) (spectrum window) (0, 0)%R) i.

(** Every conversion to [int] of the analysis is defined. *)
Definition representable (window : list jack_default_audio_sample_t) : Prop :=
  ∀ i, 0 <= i < FREQUENCES →
    INT_MIN <= Ztrunc (scaled_magnitude window i) <= INT_MAX.

(** The bins one analysis pass stores for a window. *)
Definition expected_bins (window : list jack_default_audio_sample_t) : list Z :=
  (λ i, to_Sint16 (Ztrunc (scaled_magnitude window i))) <$> seqZ 0 FREQUENCES.

(** Samples normalised to [-1, 1]. *)
Definition normalised (window : list jack_default_audio_sample_t) : Prop :=
  Forall (λ x, (Rabs x <= 1)%R) window.

(** The state once [init] has run. *)
Definition ready_state : state :=
  init (replicate (Z.to_nat ECHANTILLONS) (0, 0)%R) initial_state.

(** Modulus of a complex number, and the sum of the absolute values of a
    window. *)
Definition cmod (c : fftw_complex) : R := sqrt (c.1 * c.1 + c.2 * c.2).

Definition abs_sum (window : list jack_default_audio_sample_t) : R :=
  foldr (λ x acc, (Rabs x + acc)%R) 0%R window.

(** Windows of constant amplitude: full scale, and eight times full
    scale. *)
Definition constant_window (a : R) : list jack_default_audio_sample_t :=
  replicate (Z.to_nat ECHANTILLONS) a.

Definition full_scale_window : list jack_default_audio_sample_t :=
  constant_window 1.

Definition loud_window : list jack_default_audio_sample_t :=
  constant_window 8.

(** The initialised program holding these windows. *)
Definition full_scale_state : state := with_samples full_scale_window ready_state.

Definition loud_state : state := with_samples loud_window ready_state.

(** States for the renderer: every sample at +1.0 in waveform mode, every
    bin at 512 in spectrum mode. *)
Definition full_scale_waveform : state :=
  {| _samples := replicate (Z.to_nat ECHANTILLONS) 1%R;
     _hauteurs := replicate (Z.to_nat FREQUENCES) 0;
     waveform := 1;
     _in4fftw := None;
     _out4fftw := None;
     _plan4fftw := None |}.

Definition full_height_spectrum : state :=
  {| _samples := replicate (Z.to_nat ECHANTILLONS) 0%R;
     _hauteurs := replicate (Z.to_nat FREQUENCES) 512;
     waveform := 0;
     _in4fftw := None;
     _out4fftw := None;
     _plan4fftw := None |}.

(** ** Successive callbacks *)

(** The windows successive calls of [ingest] produce, one call per block,
    each block delivered with its own length as frame count. *)
Definition ingest_all (samples : list jack_default_audio_sample_t)
    (blocks : list (list jack_default_audio_sample_t))
  : option (list jack_default_audio_sample_t) :=
  foldl (λ acc b, s ← acc; ingest s (Z.of_nat (length b)) b)
        (Some samples) blocks.

(** The state the initialised program reaches when the callback delivers
    one full block of the loud signal. *)
Definition loud_result : state :=
  {| _samples := loud_window;
     _hauteurs := expected_bins loud_window;
     waveform := 0;
     _in4fftw := Some (window_input loud_window);
     _out4fftw := Some (spectrum loud_window);
     _plan4fftw := Some init_plan |}.

(** ** The keyboard *)

(** The state with [waveform] replaced. *)
Definition with_waveform (w : Z) (st : state) : state :=
  {| _samples := _samples st;
     _hauteurs := _hauteurs st;
     waveform := w;
     _in4fftw := _in4fftw st;
     _out4fftw := _out4fftw st;
     _plan4fftw := _plan4fftw st |}.

Section Keys.
(** The key codes come from the GL4Dummies headers, which are not part of
    the source tree; they are two distinct case labels. *)
Variables GL4DK_LEFT GL4DK_RIGHT : Z.

(** [keydown(keycode)], lines 133-144. *)
Definition keydown (keycode : Z) (st : state) : state :=
  if keycode =? GL4DK_LEFT then with_waveform 0 st
  else if keycode =? GL4DK_RIGHT then with_waveform 1 st
  else st.

(** The key presses [keys], oldest first. *)
Definition press_all (keys : list Z) (st : state) : state :=
  foldl (λ st0 k, keydown k st0) st keys.
End Keys.

(** The rows and columns of the renderer, before clamping. *)
Definition column (i width_index : Z) : Z := (i * (_wW - 1)) ÷ width_index.

Definition waveform_row (s : jack_default_audio_sample_t) : Z :=
  Ztrunc ((s * IZR _wH + IZR _wH) / 2)%R.

(** ** Start-up and shut-down *)

(** The two arrays of [fftw_complex] the program allocates, named after the
    variable that receives the pointer: the only value [_in4fftw] (resp.
    [_out4fftw]) ever holds besides [NULL] is the result of the
    [fftw_malloc] of line 77 (resp. 80). *)
Inductive fftw_array : Type := array_in | array_out.

(** The calls to the outside world that matter to the program's resources and
    output, as values, so that a run can be read off as the list of calls it
    made.  [fftw_malloc] and [fftw_free] carry the array they allocate or
    free. *)
Inductive call : Type :=
| call_fprintf_stderr (msg : string)
| call_printf (msg : string)
| call_gl4duwCreateWindow
| call_fftw_malloc (a : fftw_array)
| call_fftw_plan_dft_1d
| call_glViewport
| call_gl4dpInitScreen
| call_jack_client_open (name : string)
| call_jack_port_register
| call_jack_set_process_callback
| call_jack_activate
| call_jack_client_close
| call_gl4dpSetScreen (id : Z)
| call_gl4dpDeleteScreen
| call_fftw_destroy_plan
| call_fftw_free (a : fftw_array)
| call_gl4duClean
| call_atexit_quit
| call_gl4duwDisplayFunc
| call_gl4duwKeyDownFunc
| call_gl4duwMainLoop.

(** What the outside world answers during start-up. *)
Record world : Type := mk_world {
  create_window_ok : bool;          (* [gl4duwCreateWindow(..)] is non-zero *)
  malloc_in_ok : bool;              (* [fftw_malloc(..)], line 77, is non-null *)
  malloc_out_ok : bool;             (* [fftw_malloc(..)], line 80, is non-null *)
  fresh_out : list (R * R);         (* contents of the new [_out4fftw] *)
  make_plan_ok : bool;              (* [fftw_plan_dft_1d(..)] is non-null *)
  screen_id : Z;                    (* [gl4dpInitScreen()] *)
  open_status : Z;                  (* [status] after [jack_client_open] *)
  open_client : option string;      (* [jack_client_open(..)]: null, or a
                                       client, known by the name JACK
                                       gave it *)
  register_ok : bool;               (* [jack_port_register(..)] is non-null *)
  set_callback_rc : Z;              (* [jack_set_process_callback(..)] *)
  activate_rc : Z                   (* [jack_activate(..)] *)
}.

(** How far a function of the start-up gets: it returns and the program goes
    on ([running]), it ends the process with [exit(code)] or, in [main],
    [return code] ([exits]), or one of its [assert]s fails and [abort()] ends
    the process ([aborts]; the diagnostic [assert] prints is not recorded).
    The file does not define [NDEBUG], so the assertions are active. *)
Inductive outcome : Type := running | exits (code : Z) | aborts.

(** All the file-scope variables: those of [state], the JACK client (known
    by its name) and port, and the screen. *)
Record process : Type := mk_process {
  core : state;
  _client : option string;
  _input : bool;
  _screen : Z
}.

(** The variables as their initialisers leave them. *)
Definition initial_process : process :=
  {| core := initial_state; _client := None; _input := false; _screen := 0 |}.

Definition nl : string := String (Ascii.ascii_of_nat 10) EmptyString.

Section Jack.
(** Two constants of the JACK headers, which are not part of the source
    tree. *)
Variable JackFailure : Z.
Variable JACK_DEFAULT_AUDIO_TYPE : string.

(** [initJack(clientname)], lines 187-212: the process afterwards, the
    calls made and the value returned. *)
Definition initJack (clientname : string) (w : world) (ps : process)
  : process * list call * Z :=
  let ps1 := {| core := core ps;
                _client := open_client w;
                _input := _input ps;
                _screen := _screen ps |} in
  let t0 := [call_jack_client_open clientname] in
  if open_status w =? JackFailure then
    (ps1, t0 ++ [call_printf (String.concat EmptyString
                   ["jack server not running?"%string; nl])], -1)
  else if negb (bool_decide (is_Some (open_client w))) then
    (ps1, t0 ++ [call_printf (String.concat EmptyString
                   ["jack client is NULL"%string; nl])], -1)
  else
    let t1 := t0 ++ [call_printf (String.concat EmptyString
                       ["Created client "%string; clientname; nl]);
                     call_jack_port_register] in
    let ps2 := {| core := core ps;
                  _client := open_client w;
                  _input := register_ok w;
                  _screen := _screen ps |} in
    if negb (register_ok w) then
      (ps2, t1 ++ [call_printf (String.concat EmptyString
                     ["Couldn't create port "%string; "input"%string;
                      " with type "%string; JACK_DEFAULT_AUDIO_TYPE; nl])], -1)
    else if negb (set_callback_rc w =? 0) then
      (ps2, t1 ++ [call_jack_set_process_callback], 1)
    else
      (ps2, t1 ++ [call_jack_set_process_callback; call_jack_activate],
       if activate_rc w =? 0 then 0 else 1).

(** [init(clientname)], lines 75-92.  The [memset] of line 78 comes before
    the [assert] of line 79, so a null [_in4fftw] is written through:
    undefined behaviour, [None].  A null [_out4fftw] or a null plan fails
    the [assert] of line 81 or 83. *)
Definition init_process (clientname : string) (w : world) (ps : process)
  : option (process * list call * outcome) :=
  let st := core ps in
  let t1 := [call_fftw_malloc array_in] in
  if negb (malloc_in_ok w) then None
  else
    let zeroed := replicate (Z.to_nat ECHANTILLONS) (0, 0)%R in
    let t2 := t1 ++ [call_fftw_malloc array_out] in
    if negb (malloc_out_ok w) then
      Some ({| core := {| _samples := _samples st;
                          _hauteurs := _hauteurs st;
                          waveform := waveform st;
                          _in4fftw := Some zeroed;
                          _out4fftw := None;
                          _plan4fftw := _plan4fftw st |};
               _client := _client ps;
               _input := _input ps;
               _screen := _screen ps |}, t2, aborts)
    else
      let t3 := t2 ++ [call_fftw_plan_dft_1d] in
      if negb (make_plan_ok w) then
        Some ({| core := {| _samples := _samples st;
                            _hauteurs := _hauteurs st;
                            waveform := waveform st;
                            _in4fftw := Some zeroed;
                            _out4fftw := Some (fresh_out w);
                            _plan4fftw := None |};
                 _client := _client ps;
                 _input := _input ps;
                 _screen := _screen ps |}, t3, aborts)
      else
        let ps1 := {| core := init (fresh_out w) st;
                      _client := _client ps;
                      _input := _input ps;
                      _screen := screen_id w |} in
        let t4 := t3 ++ [call_glViewport; call_gl4dpInitScreen] in
        let '(ps2, t5, rc) := initJack clientname w ps1 in
        if rc =? 0 then Some (ps2, t4 ++ t5, running)
        else Some (ps2, t4 ++ t5 ++ [call_printf (String.concat EmptyString
                                       ["An error occured"%string; nl])],
                   exits 1).

(** [main(argc, argv)] up to the main loop, lines 59-73: [running] when the
    main loop is entered. *)
Definition main (argc : Z) (argv0 argv1 : string) (w : world)
  : option (process * list call * outcome) :=
  if negb (argc =? 2) then
    Some (initial_process,
          [call_fprintf_stderr (String.concat EmptyString
             ["usage: "%string; argv0; " <client_name>"%string; nl])],
          exits 2)
  else if negb (create_window_ok w) then
    Some (initial_process, [call_gl4duwCreateWindow], exits 1)
  else
    '(ps, t, out) ← init_process argv1 w initial_process;
    match out with
    | running =>
        Some (ps, call_gl4duwCreateWindow :: t
                  ++ [call_atexit_quit; call_gl4duwDisplayFunc;
                      call_gl4duwKeyDownFunc; call_gl4duwMainLoop], running)
    | _ => Some (ps, call_gl4duwCreateWindow :: t, out)
    end.
End Jack.

(** [quit()], lines 218-243: the process afterwards and the calls made. *)
Definition quit (ps : process) : process * list call :=
  let t_client :=
    match _client ps with
    | Some name => [call_printf (String.concat EmptyString
                      ["Closing client "%string; name; nl]);
                    call_jack_client_close]
    | None => []
    end in
  let t_screen :=
    if _screen ps =? 0 then []
    else [call_gl4dpSetScreen (_screen ps); call_gl4dpDeleteScreen] in
  let t_plan :=
    match _plan4fftw (core ps) with
    | Some _ => [call_fftw_destroy_plan] | None => [] end in
  let t_in :=
    match _in4fftw (core ps) with
    | Some _ => [call_fftw_free array_in] | None => [] end in
  let t_out :=
    match _out4fftw (core ps) with
    | Some _ => [call_fftw_free array_out] | None => [] end in
  ({| core := {| _samples := _samples (core ps);
                 _hauteurs := _hauteurs (core ps);
                 waveform := waveform (core ps);
                 _in4fftw := None;
                 _out4fftw := None;
                 _plan4fftw := None |};
      _client := None;
      _input := _input ps;
      _screen := 0 |},
   t_client ++ t_screen ++ t_plan ++ t_in ++ t_out ++ [call_gl4duClean]).

(** Every step of the FFTW set-up of [init] succeeds. *)
Definition fftw_ok (w : world) : Prop :=
  malloc_in_ok w = true ∧ malloc_out_ok w = true ∧ make_plan_ok w = true.

(** Every step of [initJack] succeeds. *)
Definition jack_ok (JackFailure : Z) (w : world) : Prop :=
  open_status w ≠ JackFailure ∧
  is_Some (open_client w) ∧
  register_ok w = true ∧
  set_callback_rc w = 0 ∧
  activate_rc w = 0.

(** The calls that give a resource back. *)
Definition is_release (c : call) : bool :=
  match c with
  | call_jack_client_close | call_gl4dpDeleteScreen
  | call_fftw_destroy_plan | call_fftw_free _ => true
  | _ => false
  end.

(** A world in which every start-up step succeeds, for a given
    [JackFailure]. *)
Definition good_world : world :=
  {| create_window_ok := true;
     malloc_in_ok := true;
     malloc_out_ok := true;
     fresh_out := replicate (Z.to_nat ECHANTILLONS) (0, 0)%R;
     make_plan_ok := true;
     screen_id := 1;
     open_status := 0;
     open_client := Some "viewer"%string;
     register_ok := true;
     set_callback_rc := 0;
     activate_rc := 0 |}.

(** A world in which JACK answers everything but the activation. *)
Definition failing_world : world :=
  {| create_window_ok := true;
     malloc_in_ok := true;
     malloc_out_ok := true;
     fresh_out := replicate (Z.to_nat ECHANTILLONS) (0, 0)%R;
     make_plan_ok := true;
     screen_id := 1;
     open_status := 0;
     open_client := Some "viewer"%string;
     register_ok := true;
     set_callback_rc := 0;
     activate_rc := 5 |}.

(** The order in which [quit] gives the resources back. *)
Definition release_order : list call :=
  [call_jack_client_close; call_gl4dpDeleteScreen; call_fftw_destroy_plan;
   call_fftw_free array_in; call_fftw_free array_out].

(** ** The arithmetic of the machine *)

(** The definitions above read the [float] and [double] expressions of the
    program over the real numbers.  The program computes them in IEEE 754
    arithmetic, and where a rounding crosses an integer the value it
    truncates is not the truncation of the real value.  [Machine] embeds the
    two places where a floating-point value becomes an integer (line 105
    and lines 172-178) once more with the numbers of the machine:
    - [float] is binary32 and [double] is binary64, as values of
      [spec_float] (sign, mantissa and exponent; signed zeros, infinities
      and NaN);
    - every [*], [+], [/] and [sqrt] rounds its exact result to the nearest
      number of its type, ties to even ([SFmul], [SFadd], [SFdiv], [SFsqrt]):
      the C implementation evaluates each operation in the type of its
      operands ([FLT_EVAL_METHOD] is 0) and fuses none;
    - the conversions of an [int] to [float] or [double] and of a [float] to
      [double] are exact for the values the program converts;
    - [(int)x] discards the fraction and is undefined for a NaN, an
      infinity, and a value whose integral part does not fit an [int];
    - [exp] belongs to the C library and [fftw_execute] to FFTW, neither of
      which is in the source tree: [exp] is a parameter, and what
      [fftw_execute] writes into [_out4fftw] is an input of [analyze], as a
      block of frames is an input of [mixCallback]. *)
Module Machine.

Abbreviation binary32 := spec_float (only parsing).
Abbreviation binary64 := spec_float (only parsing).

(** [+0.0], all bits zero. *)
Definition zero : spec_float := S754_zero false.

(** [(float)z] and [(double)z] for an [int] [z]. *)
Definition float_of_int (z : Z) : binary32 := binary_normalize 24 128 z 0 false.
Definition double_of_int (z : Z) : binary64 := binary_normalize 53 1024 z 0 false.

(** [(double)x] for a [float] [x]: the same number. *)
Definition double_of_float (x : binary32) : binary64 :=
  match x with
  | S754_finite s m e => binary_round 53 1024 s m e
  | _ => x
  end.

Definition float_mul : binary32 → binary32 → binary32 := SFmul 24 128.
Definition float_add : binary32 → binary32 → binary32 := SFadd 24 128.
Definition float_div : binary32 → binary32 → binary32 := SFdiv 24 128.

Definition double_mul : binary64 → binary64 → binary64 := SFmul 53 1024.
Definition double_add : binary64 → binary64 → binary64 := SFadd 53 1024.
Definition double_div : binary64 → binary64 → binary64 := SFdiv 53 1024.
Definition double_sqrt : binary64 → binary64 := SFsqrt 53 1024.

(** [x == 0]: a zero of either sign. *)
Definition is_zero (x : spec_float) : bool :=
  match x with
  | S754_zero _ => true
  | _ => false
  end.

(** [(int)x]: the integral part of [m * 2^e] with the sign of [x]. *)
Definition is_finite (x : spec_float) : bool :=
  match x with
  | S754_zero _ | S754_finite _ _ _ => true
  | S754_infinity _ | S754_nan => false
  end.

Definition Ztrunc (x : spec_float) : Z :=
  match x with
  | S754_finite s m e => cond_Zopp s (Z.shiftl (Z.pos m) e)
  | _ => 0
  end.

Definition to_int (x : spec_float) : option Z :=
  if is_finite x && (INT_MIN <=? Ztrunc x) && (Ztrunc x <=? INT_MAX)
  then Some (Ztrunc x) else None.

(** [typedef double fftw_complex[2]] *)
Abbreviation fftw_complex := (spec_float * spec_float)%type (only parsing).

(** The file-scope variables, as in [state]. *)
Record state : Type := mk_state {
  _samples : list binary32;
  _hauteurs : list Z;
  waveform : Z;
  _in4fftw : option (list fftw_complex);
  _out4fftw : option (list fftw_complex);
  _plan4fftw : option fftw_plan_s
}.

Definition initial_state : state :=
  {| _samples := replicate (Z.to_nat ECHANTILLONS) zero;
     _hauteurs := replicate (Z.to_nat FREQUENCES) 0;
     waveform := 0;
     _in4fftw := None;
     _out4fftw := None;
     _plan4fftw := None |}.

(** [init], lines 77-83, every allocation succeeding; [memset] writes the
    bytes of [+0.0]. *)
Definition init (fresh : list fftw_complex) (st : state) : state :=
  {| _samples := _samples st;
     _hauteurs := _hauteurs st;
     waveform := waveform st;
     _in4fftw := Some (replicate (Z.to_nat ECHANTILLONS) (zero, zero));
     _out4fftw := Some fresh;
     _plan4fftw := Some init_plan |}.

(** [fftw_execute(plan)]: the arrays must have the plan's size; the output
    array then holds [transformed], what FFTW computed from the input
    array. *)
Definition fftw_execute (p : fftw_plan_s) (inp out transformed : list fftw_complex)
  : option (list fftw_complex) :=
  if (Z.of_nat (length inp) =? plan_n p) && (Z.of_nat (length out) =? plan_n p)
     && (Z.of_nat (length transformed) =? plan_n p)
  then Some transformed
  else None.

Section Libm.
(** [exp] of [<math.h>]. *)
Variable exp : binary64 → binary64.

(** Line 178, right-hand side before the conversions:
    [sqrt(re * re + im * im) * exp(2.0 * i / (double)(FREQUENCES))]. *)
Definition bin_value (c : fftw_complex) (i : Z) : binary64 :=
  double_mul
    (double_sqrt (double_add (double_mul c.1 c.1) (double_mul c.2 c.2)))
    (exp (double_div (double_mul (double_of_int 2) (double_of_int i))
                     (double_of_int FREQUENCES))).

(** Lines 171-178, run with plan [p]. *)
Definition analyze (transformed : list fftw_complex) (p : fftw_plan_s)
    (st : state) : option state :=
  inp ← _in4fftw st;
  out ← _out4fftw st;
  inp' ← for_loop 0 ECHANTILLONS
           (λ i a, s ← arr_get (_samples st) i;
                   c ← arr_get a i;
                   arr_set a i (double_of_float s, c.2)) inp;
  out' ← fftw_execute p inp' out transformed;
  h' ← for_loop 0 FREQUENCES
         (λ i h, c ← arr_get out' i;
                 v ← to_int (bin_value c i);
                 arr_set h i (to_Sint16 v)) (_hauteurs st);
  Some {| _samples := _samples st;
          _hauteurs := h';
          waveform := waveform st;
          _in4fftw := Some inp';
          _out4fftw := Some out';
          _plan4fftw := _plan4fftw st |}.

(** Every conversion to [int] of the analysis is defined, [transformed]
    being what [fftw_execute] wrote. *)
Definition representable (transformed : list fftw_complex) : Prop :=
  ∀ i, 0 <= i < FREQUENCES →
    is_Some (to_int (bin_value (nth (Z.to_nat i) transformed (zero, zero)) i)).

(** The bins one analysis pass then stores. *)
Definition expected_bins (transformed : list fftw_complex) : list Z :=
  (λ i, to_Sint16 (Ztrunc (bin_value (nth (Z.to_nat i) transformed (zero, zero)) i)))
  <$> seqZ 0 FREQUENCES.
End Libm.

(** Line 105, right-hand side before the conversion:
    [(_samples[i] * _wH + _wH) / 2], the [int] operands converted to
    [float]. *)
Definition waveform_row (s : binary32) : binary32 :=
  float_div (float_add (float_mul s (float_of_int _wH)) (float_of_int _wH))
            (float_of_int 2).

(** The pixel of sample [i] in waveform mode (lines 104-110). *)
Definition waveform_pixel (st : state) (i : Z) : option (Z * Z) :=
  s ← arr_get (_samples st) i;
  let x0 := (i * (_wW - 1)) ÷ (ECHANTILLONS - 1) in
  y0 ← to_int (waveform_row s);
  Some (x0, clamp_y y0).

(** The pixel of bin [i] in spectrum mode (lines 115-121). *)
Definition spectrum_pixel (st : state) (i : Z) : option (Z * Z) :=
  h ← arr_get (_hauteurs st) i;
  let x0 := (i * (_wW - 1)) ÷ (FREQUENCES - 1) in
  Some (x0, clamp_y h).

(** [draw()]: the arguments of the successive [gl4dpPutPixel] calls. *)
Definition draw (st : state) : option (list (Z * Z)) :=
  if waveform st =? 1 then
    for_loop 0 ECHANTILLONS
      (λ i px, p ← waveform_pixel st i; Some (px ++ [p])) []
  else
    for_loop 0 FREQUENCES
      (λ i px, p ← spectrum_pixel st i; Some (px ++ [p])) [].

(** Well-formed states, as [wf_state]. *)
Definition plan_ok (st : state) : Prop :=
  ∀ p, _plan4fftw st = Some p →
    p = init_plan ∧
    ∃ inp out, _in4fftw st = Some inp ∧ _out4fftw st = Some out ∧
      Z.of_nat (length inp) = ECHANTILLONS ∧
      Z.of_nat (length out) = ECHANTILLONS ∧
      Forall (λ c : fftw_complex, c.2 = zero) inp.

Definition wf_state (st : state) : Prop :=
  Z.of_nat (length (_samples st)) = ECHANTILLONS ∧
  Z.of_nat (length (_hauteurs st)) = FREQUENCES ∧
  plan_ok st.

(** The transform input the analysis stages from a window. *)
Definition window_input (window : list binary32) : list fftw_complex :=
  (λ x, (double_of_float x, zero)) <$> window.

(** Numbers for the examples: [1.0f], the largest [float] below it
    ([0x1.fffffep-1], that is [1 - 2^-24]) and the one before
    ([0x1.fffffcp-1]). *)
Definition one : binary32 := float_of_int 1.
Definition below_one : binary32 := S754_finite false (2 ^ 24 - 1) (-24).
Definition below_below_one : binary32 := S754_finite false (2 ^ 24 - 2) (-24).

(** [x] is finite and [|x| < 2^K]: a zero, or [m * 2^e] with
    [m < 2^(K - e)]. *)
Definition magnitude_below (K : Z) (x : spec_float) : Prop :=
  match x with
  | S754_zero _ => True
  | S754_finite _ m e => Z.pos m < 2 ^ (K - e)
  | S754_infinity _ | S754_nan => False
  end.

(** A sample normalised to [-1, 1]: a number of the binary32 format, not a
    NaN, with [|s| <= 1.0f]. *)
Definition normalised (s : binary32) : Prop :=
  valid_binary 24 128 s = true ∧ SFleb (SFabs s) one = true.

(** An [exp] for the examples: the Taylor polynomial of degree [n] of the
    exponential, by Horner's rule in binary64. *)
Definition exp_taylor (n : nat) (x : binary64) : binary64 :=
  foldr (λ k acc, double_add (double_of_int 1)
                    (double_mul (double_div x (double_of_int k)) acc))
        (double_of_int 1) (seqZ 1 (Z.of_nat n)).

(** The program after [init], holding a window of constant amplitude [a]
    in display mode [w]. *)
Definition constant_state (a : binary32) (w : Z) : state :=
  {| _samples := replicate (Z.to_nat ECHANTILLONS) a;
     _hauteurs := replicate (Z.to_nat FREQUENCES) 0;
     waveform := w;
     _in4fftw := Some (replicate (Z.to_nat ECHANTILLONS) (zero, zero));
     _out4fftw := Some (replicate (Z.to_nat ECHANTILLONS) (zero, zero));
     _plan4fftw := Some init_plan |}.

(** The transform of a window of constant amplitude [a]: [4096 a] at
    index 0 and zero elsewhere. *)
Definition constant_transformed (a : Z) : list fftw_complex :=
  (double_of_int (ECHANTILLONS * a), zero)
    :: replicate (Z.to_nat ECHANTILLONS - 1) (zero, zero).
End Machine.

(** ** Loop and array lemmas *)

Section ArrayFacts.
Context {A : Type}.
Implicit Types (a : list A) (i : Z) (v : A).

Lemma arr_get_Some a i :
  0 <= i < Z.of_nat (length a) → ∃ v, arr_get a i = Some v ∧ a !! Z.to_nat i = Some v.
Proof.
  intros [Hlo Hhi]. unfold arr_get.
  destruct (Z.leb_spec 0 i); [|lia].
  destruct (lookup_lt_is_Some_2 a (Z.to_nat i)) as [v Hv]; [lia|].
  exists v. by rewrite Hv.
Qed.

Lemma arr_set_Some a i v :
  0 <= i < Z.of_nat (length a) → arr_set a i v = Some (<[Z.to_nat i := v]> a).
Proof.
  intros [Hlo Hhi]. unfold arr_set.
  destruct (Z.leb_spec 0 i); [|lia].
  destruct (Z.ltb_spec i (Z.of_nat (length a))); [done|lia].
Qed.
End ArrayFacts.

Section LoopFacts.
Context {S : Type}.

(** Invariant rule: [P k] holds after [k] iterations. *)
Lemma for_range_inv (P : nat → S → Prop) (body : Z → S → option S) n i s :
  P O s →
  (∀ k s0, (k < n)%nat → P k s0 →
     ∃ s1, body (i + Z.of_nat k) s0 = Some s1 ∧ P (Datatypes.S k) s1) →
  ∃ s', for_range n i body s = Some s' ∧ P n s'.
Proof.
  revert P i s. induction n as [|n IH]; intros P i s H0 Hstep.
  - exists s. done.
  - destruct (Hstep O s) as (s1 & Hb & H1); [lia|done|].
    rewrite Z.add_0_r in Hb. simpl. rewrite Hb.
    apply (IH (λ k, P (Datatypes.S k))); [done|].
    intros k s0 Hk HP.
    destruct (Hstep (Datatypes.S k) s0) as (s2 & Hb2 & H2); [lia|done|].
    exists s2. split; [|done].
    rewrite <- Hb2. f_equal. lia.
Qed.

Lemma for_loop_inv (P : nat → S → Prop) (body : Z → S → option S) a b s :
  P O s →
  (∀ k s0, a + Z.of_nat k < b → P k s0 →
     ∃ s1, body (a + Z.of_nat k) s0 = Some s1 ∧ P (Datatypes.S k) s1) →
  ∃ s', for_loop a b body s = Some s' ∧ P (Z.to_nat (b - a)) s'.
Proof.
  intros H0 Hstep. apply for_range_inv; [done|].
  intros k s0 Hk. apply Hstep. lia.
Qed.
End LoopFacts.

(** ** The two copy loops of [ingest] *)

Section IngestLoops.
Context {A : Type}.
Implicit Types (s buffer : list A).

(** Copying [n] entries of [buffer] to positions [off ..] of [s]. *)
Lemma copy_loop (body : Z → list A → option (list A)) buffer s (n off : nat) :
  (∀ i s0, body i s0 = v ← arr_get buffer i; arr_set s0 (i + Z.of_nat off) v) →
  (n ≤ length buffer)%nat →
  (off + n ≤ length s)%nat →
  for_loop 0 (Z.of_nat n) body s
  = Some (take off s ++ take n buffer ++ drop (off + n) s).
Proof.
  intros Hbody Hn Hs.
  destruct (for_loop_inv
    (λ k s', s' = take off s ++ take k buffer ++ drop (off + k) s)
    body 0 (Z.of_nat n) s) as (s' & Hrun & Hfin).
  - rewrite Nat.add_0_r. simpl. by rewrite take_drop.
  - intros k s0 Hk ->. rewrite Hbody.
    destruct (arr_get_Some buffer (0 + Z.of_nat k)) as (v & -> & Hv); [lia|].
    replace (Z.to_nat (0 + Z.of_nat k)) with k in Hv by lia.
    destruct (lookup_lt_is_Some_2 s (off + k)) as [y Hy]; [lia|].
    eexists. split.
    + simpl. apply arr_set_Some. rewrite !length_app, !length_take, length_drop. lia.
    + replace (Z.to_nat (0 + Z.of_nat k + Z.of_nat off))
        with (length (take off s) + (length (take k buffer) + 0))%nat
        by (rewrite !length_take; lia).
      rewrite insert_app_r, insert_app_r.
      rewrite (drop_S _ _ _ Hy). simpl.
      rewrite (take_S_r _ _ _ Hv), <- app_assoc. simpl.
      by replace (off + Datatypes.S k)%nat with (Datatypes.S (off + k)) by lia.
  - rewrite Hrun. f_equal.
    by replace (Z.to_nat (Z.of_nat n - 0)) with n in Hfin by lia.
Qed.

(** Sliding the entries [nf ..] of [s] to the front. *)
Lemma shift_loop s (nf : nat) :
  (nf ≤ length s)%nat →
  for_loop (Z.of_nat nf) (Z.of_nat (length s))
    (λ i s0, v ← arr_get s0 i; arr_set s0 (i - Z.of_nat nf) v) s
  = Some (drop nf s ++ drop (length s - nf) s).
Proof.
  intros Hnf.
  destruct (for_loop_inv
    (λ k s', s' = take k (drop nf s) ++ drop k s)
    (λ i s0, v ← arr_get s0 i; arr_set s0 (i - Z.of_nat nf) v)
    (Z.of_nat nf) (Z.of_nat (length s)) s) as (s' & Hrun & Hfin).
  - done.
  - intros k s0 Hk ->.
    assert (Hlen : length (take k (drop nf s)) = k)
      by (rewrite length_take, length_drop; lia).
    destruct (lookup_lt_is_Some_2 s (nf + k)) as [v Hv]; [lia|].
    destruct (lookup_lt_is_Some_2 s k) as [y Hy]; [lia|].
    assert (Hget : arr_get (take k (drop nf s) ++ drop k s)
                     (Z.of_nat nf + Z.of_nat k) = Some v).
    { unfold arr_get. destruct (Z.leb_spec 0 (Z.of_nat nf + Z.of_nat k)); [|lia].
      rewrite lookup_app_r by lia. rewrite Hlen, lookup_drop.
      rewrite <- Hv. f_equal. lia. }
    rewrite Hget. eexists. split.
    + simpl. apply arr_set_Some. rewrite length_app, Hlen, length_drop. lia.
    + replace (Z.to_nat (Z.of_nat nf + Z.of_nat k - Z.of_nat nf))
        with (length (take k (drop nf s)) + 0)%nat by lia.
      rewrite insert_app_r, (drop_S _ _ _ Hy). simpl.
      assert (Hv' : drop nf s !! k = Some v) by (by rewrite lookup_drop).
      by rewrite (take_S_r _ _ _ Hv'), <- app_assoc.
  - rewrite Hrun. f_equal. rewrite Hfin.
    replace (Z.to_nat (Z.of_nat (length s) - Z.of_nat nf))
      with (length s - nf)%nat by lia.
    f_equal. apply take_ge. rewrite length_drop. lia.
Qed.
End IngestLoops.

Lemma ECHANTILLONS_eq : ECHANTILLONS = 4096.
Proof. reflexivity. Qed.

Lemma FREQUENCES_eq : FREQUENCES = 1024.
Proof. reflexivity. Qed.

(** More than [ECHANTILLONS] frames: the first [ECHANTILLONS] of them. *)
Lemma ingest_gt samples nframes buffer :
  Z.of_nat (length samples) = ECHANTILLONS →
  Z.of_nat (length buffer) = nframes →
  ECHANTILLONS < nframes →
  ingest samples nframes buffer = Some (take (Z.to_nat ECHANTILLONS) buffer).
Proof.
  intros Hs Hb Hgt. unfold ingest.
  destruct (Z.ltb_spec ECHANTILLONS nframes); [|lia].
  replace ECHANTILLONS with (Z.of_nat (Z.to_nat ECHANTILLONS)) at 1
    by (rewrite ECHANTILLONS_eq; lia).
  rewrite (copy_loop _ buffer samples _ 0).
  - simpl. rewrite drop_ge by lia. by rewrite app_nil_r.
  - intros i s0. by rewrite Z.add_0_r.
  - lia.
  - lia.
Qed.

(** At most [ECHANTILLONS] frames: shift left, then append the block. *)
Lemma ingest_le samples nframes buffer :
  Z.of_nat (length samples) = ECHANTILLONS →
  Z.of_nat (length buffer) = nframes →
  nframes <= ECHANTILLONS →
  ingest samples nframes buffer
  = Some (drop (Z.to_nat nframes) samples ++ buffer).
Proof.
  intros Hs Hb Hle. unfold ingest.
  destruct (Z.ltb_spec ECHANTILLONS nframes); [lia|].
  subst nframes. rewrite <- Hs in *. rewrite Nat2Z.id.
  rewrite shift_loop by lia. simpl.
  rewrite (copy_loop _ buffer _ _ (length samples - length buffer)).
  - f_equal. rewrite take_app_length'; [|rewrite length_drop; lia].
    rewrite take_ge by lia.
    rewrite (drop_ge (_ ++ _)); [|rewrite length_app, !length_drop; lia].
    by rewrite app_nil_r.
  - intros i s0. do 3 f_equal. lia.
  - lia.
  - rewrite length_app, !length_drop. lia.
Qed.

(** In both cases the callback goes on with a full window. *)
Lemma ingest_defined samples nframes buffer :
  Z.of_nat (length samples) = ECHANTILLONS →
  Z.of_nat (length buffer) = nframes →
  ∃ s', ingest samples nframes buffer = Some s' ∧
        Z.of_nat (length s') = ECHANTILLONS ∧
        s' = if ECHANTILLONS <? nframes
             then take (Z.to_nat ECHANTILLONS) buffer
             else drop (Z.to_nat nframes) samples ++ buffer.
Proof.
  intros Hs Hb. destruct (Z.ltb_spec ECHANTILLONS nframes) as [Hgt|Hle].
  - rewrite ingest_gt by done. eexists. split; [done|]. split; [|done].
    rewrite length_take. rewrite ECHANTILLONS_eq in *. lia.
  - rewrite ingest_le by done. eexists. split; [done|]. split; [|done].
    rewrite length_app, length_drop. lia.
Qed.

Lemma length_ramp n : 0 <= n → Z.of_nat (length (ramp n)) = n.
Proof. intros Hn. unfold ramp. rewrite length_fmap, length_seqZ. lia. Qed.

Lemma lookup_ramp n (i : nat) :
  Z.of_nat i < n → ramp n !! i = Some (IZR (Z.of_nat i)).
Proof.
  intros Hi. unfold ramp. rewrite list_lookup_fmap.
  rewrite (lookup_seqZ_lt 0 n i) by lia. simpl. f_equal.
Qed.

(** Closes [valid_block n (ramp n)] for a literal [n]. *)
Ltac ramp_block :=
  split; [unfold JACK_NFRAMES_MAX; lia | apply length_ramp; lia].

Lemma length_zero_window : Z.of_nat (length zero_window) = ECHANTILLONS.
Proof. unfold zero_window. rewrite length_replicate. reflexivity. Qed.

(** ** The two loops of the analysis *)

Section FillLoop.
Context {B : Type}.

(** A loop whose iteration [k] stores [g k] at index [k]. *)
Lemma fill_loop (body : Z → list B → option (list B)) (g : Z → B)
    (a : list B) (n : nat) :
  (n ≤ length a)%nat →
  (∀ k : nat, (k < n)%nat →
     let a' := (g <$> seqZ 0 (Z.of_nat k)) ++ drop k a in
     body (Z.of_nat k) a' = Some (<[k := g (Z.of_nat k)]> a')) →
  for_loop 0 (Z.of_nat n) body a
  = Some ((g <$> seqZ 0 (Z.of_nat n)) ++ drop n a).
Proof.
  intros Hn Hbody.
  destruct (for_loop_inv
    (λ k a', a' = (g <$> seqZ 0 (Z.of_nat k)) ++ drop k a)
    body 0 (Z.of_nat n) a) as (a' & Hrun & Hfin).
  - done.
  - intros k a0 Hk ->. rewrite Z.add_0_l, Hbody by lia.
    eexists. split; [done|].
    destruct (lookup_lt_is_Some_2 a k) as [y Hy]; [lia|].
    replace k with (length (g <$> seqZ 0 (Z.of_nat k)) + 0)%nat at 1
      by (rewrite length_fmap, length_seqZ; lia).
    rewrite insert_app_r, (drop_S _ _ _ Hy). simpl.
    rewrite seqZ_S, fmap_app, <- app_assoc. done.
  - rewrite Hrun, Hfin. do 4 f_equal; lia.
Qed.
End FillLoop.

Lemma window_input_seqZ (window : list R) :
  (λ i, (nth (Z.to_nat i) window 0%R, 0%R)) <$> seqZ 0 (Z.of_nat (length window))
  = window_input window.
Proof.
  apply list_eq. intros i. unfold window_input.
  rewrite !list_lookup_fmap.
  destruct (decide (i < length window)%nat) as [Hi|Hi].
  - rewrite lookup_seqZ_lt by lia. simpl.
    destruct (lookup_lt_is_Some_2 window i) as [x Hx]; [lia|].
    rewrite Hx. simpl. rewrite Z.add_0_l, Nat2Z.id.
    by rewrite (nth_lookup_Some _ _ _ _ Hx).
  - rewrite lookup_seqZ_ge by lia.
    by rewrite lookup_ge_None_2 by lia.
Qed.

(** Lines 172-173. *)
Lemma stage_loop (window : list R) (inp : list (R * R)) :
  length inp = length window →
  Forall (λ c : R * R, c.2 = 0%R) inp →
  for_loop 0 (Z.of_nat (length window))
    (λ i a, s ← arr_get window i; c ← arr_get a i; arr_set a i (s, c.2)) inp
  = Some (window_input window).
Proof.
  intros Hlen Himag.
  rewrite (fill_loop _ (λ i, (nth (Z.to_nat i) window 0%R, 0%R))).
  - rewrite window_input_seqZ, drop_ge by lia. by rewrite app_nil_r.
  - lia.
  - intros k Hk a'.
    destruct (arr_get_Some window (Z.of_nat k)) as (x & -> & Hx); [lia|].
    rewrite Nat2Z.id in Hx. simpl.
    destruct (lookup_lt_is_Some_2 inp k) as [c Hc]; [lia|].
    assert (Hlen' : length a' = length inp).
    { unfold a'. rewrite length_app, length_fmap, length_seqZ, length_drop. lia. }
    assert (Hget : arr_get a' (Z.of_nat k) = Some c).
    { unfold arr_get. destruct (Z.leb_spec 0 (Z.of_nat k)); [|lia].
      unfold a'. rewrite lookup_app_r; rewrite length_fmap, length_seqZ; [|lia].
      rewrite lookup_drop, <- Hc. f_equal. lia. }
    rewrite Hget. simpl.
    rewrite arr_set_Some by lia. rewrite !Nat2Z.id.
    rewrite (nth_lookup_Some _ _ _ _ Hx).
    rewrite Forall_lookup in Himag. by rewrite (Himag _ _ Hc).
Qed.

Lemma length_dft_1d n sign inp : length (dft_1d n sign inp) = Z.to_nat n.
Proof. unfold dft_1d. by rewrite length_fmap, length_seqZ. Qed.

Lemma lookup_dft_1d n sign inp (k : nat) :
  Z.of_nat k < n →
  dft_1d n sign inp !! k
  = Some (csum_from (dft_term n sign (Z.of_nat k)) 0 inp).
Proof.
  intros Hk. unfold dft_1d. rewrite list_lookup_fmap.
  by rewrite lookup_seqZ_lt by lia.
Qed.

Lemma double_to_int_Some x :
  INT_MIN <= Ztrunc x <= INT_MAX → double_to_int x = Some (Ztrunc x).
Proof.
  intros [Hlo Hhi]. unfold double_to_int. simpl.
  destruct (Z.leb_spec INT_MIN (Ztrunc x)); [|lia].
  destruct (Z.leb_spec (Ztrunc x) INT_MAX); [done|lia].
Qed.

(** Lines 177-178. *)
Lemma bins_loop (out : list (R * R)) (h : list Z) :
  Z.of_nat (length h) = FREQUENCES →
  FREQUENCES <= Z.of_nat (length out) →
  (∀ i, 0 <= i < FREQUENCES →
     INT_MIN <= Ztrunc (bin_value (nth (Z.to_nat i) out (0, 0)%R) i) <= INT_MAX) →
  for_loop 0 FREQUENCES
    (λ i h0, c ← arr_get out i;
             v ← double_to_int (bin_value c i);
             arr_set h0 i (to_Sint16 v)) h
  = Some ((λ i, to_Sint16 (Ztrunc (bin_value (nth (Z.to_nat i) out (0, 0)%R) i)))
            <$> seqZ 0 FREQUENCES).
Proof.
  intros Hh Hout Hrep. rewrite <- Hh in *.
  rewrite (fill_loop _
    (λ i, to_Sint16 (Ztrunc (bin_value (nth (Z.to_nat i) out (0, 0)%R) i)))).
  - rewrite drop_ge by lia. by rewrite app_nil_r.
  - lia.
  - intros k Hk a'.
    destruct (arr_get_Some out (Z.of_nat k)) as (c & -> & Hc); [lia|].
    rewrite Nat2Z.id in Hc. simpl.
    specialize (Hrep (Z.of_nat k) ltac:(lia)).
    rewrite Nat2Z.id, (nth_lookup_Some _ _ _ _ Hc) in Hrep.
    rewrite (double_to_int_Some _ Hrep). simpl.
    rewrite arr_set_Some.
    + by rewrite !Nat2Z.id, (nth_lookup_Some _ _ _ _ Hc).
    + unfold a'. rewrite length_app, length_fmap, length_seqZ, length_drop. lia.
Qed.

(** ** One analysis pass *)

Lemma fftw_execute_Some p inp out :
  Z.of_nat (length inp) = plan_n p →
  Z.of_nat (length out) = plan_n p →
  fftw_execute p inp out = Some (dft_1d (plan_n p) (plan_sign p) inp).
Proof.
  intros Hi Ho. unfold fftw_execute.
  destruct (Z.eqb_spec (Z.of_nat (length inp)) (plan_n p)); [|done].
  destruct (Z.eqb_spec (Z.of_nat (length out)) (plan_n p)); done.
Qed.

Lemma bind_Some_l {A B : Type} (x : A) (f : A → option B) :
  (Some x ≫= f) = f x.
Proof. reflexivity. Qed.

Lemma bins_loop_spectrum (w : list R) h :
  Z.of_nat (length h) = FREQUENCES →
  representable w →
  for_loop 0 FREQUENCES
         (λ i h, c ← arr_get (spectrum w) i;
                 v ← double_to_int (bin_value c i);
                 arr_set h i (to_Sint16 v)) h = Some (expected_bins w).
Proof.
  intros Hh Hrep. unfold expected_bins, scaled_magnitude.
  apply bins_loop.
  - exact Hh.
  - unfold spectrum. rewrite length_dft_1d. rewrite FREQUENCES_eq, ECHANTILLONS_eq. lia.
  - exact Hrep.
Qed.

Lemma fftw_execute_init (w : list R) out :
  Z.of_nat (length w) = ECHANTILLONS →
  Z.of_nat (length out) = ECHANTILLONS →
  fftw_execute init_plan (window_input w) out = Some (spectrum w).
Proof.
  intros Hw Ho. unfold spectrum.
  apply (fftw_execute_Some init_plan).
  - unfold window_input. rewrite length_fmap. exact Hw.
  - exact Ho.
Qed.

Lemma analyze_spec p st :
  wf_state st →
  _plan4fftw st = Some p →
  representable (_samples st) →
  analyze p st
  = Some {| _samples := _samples st;
            _hauteurs := expected_bins (_samples st);
            waveform := waveform st;
            _in4fftw := Some (window_input (_samples st));
            _out4fftw := Some (spectrum (_samples st));
            _plan4fftw := Some p |}.
Proof.
  intros (Hs & Hh & Hplan) Hp Hrep.
  destruct (Hplan p Hp) as (Hpe & inp & out & Hin & Hout & Hlin & Hlout & Himag).
  unfold analyze. rewrite Hin, Hout, !bind_Some_l.
  rewrite <- Hs at 1. rewrite stage_loop, bind_Some_l by (done || lia).
  rewrite Hpe, fftw_execute_init, bind_Some_l by done.
  rewrite bins_loop_spectrum, bind_Some_l by done.
  rewrite Hp, Hpe. reflexivity.
Qed.

Lemma length_expected_bins window :
  Z.of_nat (length (expected_bins window)) = FREQUENCES.
Proof.
  unfold expected_bins. rewrite length_fmap, length_seqZ.
  rewrite FREQUENCES_eq. lia.
Qed.

Lemma lookup_expected_bins window (i : nat) :
  Z.of_nat i < FREQUENCES →
  expected_bins window !! i
  = Some (to_Sint16 (Ztrunc (scaled_magnitude window (Z.of_nat i)))).
Proof.
  intros Hi. unfold expected_bins. rewrite list_lookup_fmap.
  by rewrite lookup_seqZ_lt by lia.
Qed.

Lemma Forall_window_input window :
  Forall (λ c : R * R, c.2 = 0%R) (window_input window).
Proof. unfold window_input. by apply Forall_fmap, Forall_true. Qed.

(** The states the program reaches are well formed. *)
Lemma wf_initial_state : wf_state initial_state.
Proof.
  split; [|split].
  - apply length_zero_window.
  - cbn [initial_state _hauteurs]. rewrite length_replicate. reflexivity.
  - intros p Hp. discriminate Hp.
Qed.

Lemma wf_init fresh st :
  Z.of_nat (length fresh) = ECHANTILLONS →
  wf_state st → wf_state (init fresh st).
Proof.
  intros Hfresh (Hs & Hh & _). split; [done|]. split; [done|].
  intros p Hp. cbn [init _plan4fftw] in Hp.
  apply (inj Some) in Hp as <-. split; [reflexivity|].
  eexists _, _. split; [reflexivity|]. split; [reflexivity|].
  split; [rewrite length_replicate; rewrite ECHANTILLONS_eq; lia|].
  split; [exact Hfresh|]. by apply Forall_replicate.
Qed.

Lemma wf_with_samples window st :
  Z.of_nat (length window) = ECHANTILLONS →
  wf_state st → wf_state (with_samples window st).
Proof. intros Hw (Hs & Hh & Hplan). split; [exact Hw|]. split; assumption. Qed.

Lemma wf_ready_state : wf_state ready_state.
Proof.
  apply wf_init; [|apply wf_initial_state].
  rewrite length_replicate. reflexivity.
Qed.

Lemma wf_analyze p st st' :
  wf_state st → _plan4fftw st = Some p → analyze p st = Some st' →
  representable (_samples st) → wf_state st'.
Proof.
  intros Hwf Hp Hrun Hrep. rewrite (analyze_spec p st) in Hrun by done.
  apply (inj Some) in Hrun as <-.
  destruct Hwf as (Hs & Hh & Hplan).
  destruct (Hplan p Hp) as (-> & _).
  split; [exact Hs|]. split; [apply length_expected_bins|].
  intros p' Hp'. cbn [_plan4fftw] in Hp'.
  apply (inj Some) in Hp' as <-. split; [reflexivity|].
  eexists _, _. split; [reflexivity|]. split; [reflexivity|].
  split; [unfold window_input; by rewrite length_fmap|].
  split; [|apply Forall_window_input].
  unfold spectrum. rewrite length_dft_1d. rewrite ECHANTILLONS_eq. lia.
Qed.

(** ** Truncation *)

Lemma Ztrunc_IZR z : Ztrunc (IZR z) = z.
Proof.
  unfold Ztrunc. destruct (Rle_dec 0 (IZR z)) as [Hz|Hz].
  - symmetry. apply Int_part_spec. lra.
  - rewrite <- opp_IZR.
    rewrite <- (Int_part_spec (IZR (- z)) (- z)); [lia|lra].
Qed.

Lemma Ztrunc_nonneg x (b : Z) :
  (0 <= x < IZR b)%R → 0 <= Ztrunc x < b.
Proof.
  intros [Hlo Hhi]. unfold Ztrunc.
  destruct (Rle_dec 0 x) as [_|Hn]; [|lra].
  destruct (base_Int_part x) as [Hle Hgt].
  split.
  - assert (H : (IZR (-1) < IZR (Int_part x))%R) by lra.
    apply lt_IZR in H. lia.
  - apply lt_IZR. lra.
Qed.

Lemma to_Sint16_small z : -32768 <= z <= 32767 → to_Sint16 z = z.
Proof. intros Hz. unfold to_Sint16. rewrite Z.mod_small; lia. Qed.

Lemma to_Sint16_range z : -32768 <= to_Sint16 z <= 32767.
Proof.
  unfold to_Sint16.
  pose proof (Z.mod_pos_bound (z + 32768) 65536 ltac:(lia)). lia.
Qed.

(** ** Sums of transform terms *)

Lemma csum_from_replicate f j n c a b :
  (∀ j', f j' c = (a, b)) →
  csum_from f j (replicate n c) = (INR n * a, INR n * b)%R.
Proof.
  intros Hf. revert j. induction n as [|n IH]; intros j.
  - simpl. f_equal; lra.
  - rewrite S_INR. simpl. rewrite IH, Hf. unfold cadd. simpl. f_equal; lra.
Qed.

Lemma INR_ECHANTILLONS : INR (Z.to_nat ECHANTILLONS) = 4096%R.
Proof. rewrite INR_IZR_INZ, Z2Nat.id; [done|]. rewrite ECHANTILLONS_eq. lia. Qed.

Lemma window_input_replicate n x :
  window_input (replicate n x) = replicate n (x, 0%R).
Proof. unfold window_input. by rewrite fmap_replicate. Qed.

Lemma lookup_spectrum window (k : nat) :
  Z.of_nat k < ECHANTILLONS →
  spectrum window !! k
  = Some (csum_from (dft_term ECHANTILLONS FFTW_FORWARD (Z.of_nat k)) 0
            (window_input window)).
Proof. intros Hk. unfold spectrum. by rewrite lookup_dft_1d. Qed.

Lemma scaled_magnitude_eq window i :
  0 <= i < ECHANTILLONS →
  scaled_magnitude window i
  = bin_value (csum_from (dft_term ECHANTILLONS FFTW_FORWARD i) 0
                 (window_input window)) i.
Proof.
  intros Hi. unfold scaled_magnitude.
  rewrite (nth_lookup_Some _ _ _ _ (lookup_spectrum window (Z.to_nat i) ltac:(lia))).
  by rewrite Z2Nat.id by lia.
Qed.

(** ** Silence *)

Lemma scaled_magnitude_silence i :
  0 <= i < ECHANTILLONS → scaled_magnitude zero_window i = 0%R.
Proof.
  intros Hi. rewrite scaled_magnitude_eq by done.
  unfold zero_window. rewrite window_input_replicate.
  rewrite (csum_from_replicate _ _ _ _ 0%R 0%R).
  - unfold bin_value. cbn [fst snd].
    rewrite !Rmult_0_r, Rplus_0_r, sqrt_0. apply Rmult_0_l.
  - intros j'. unfold dft_term. cbn [fst snd]. f_equal; ring.
Qed.

Lemma representable_silence : representable zero_window.
Proof.
  intros i Hi. rewrite scaled_magnitude_silence.
  - rewrite (Ztrunc_IZR 0). unfold INT_MIN, INT_MAX. lia.
  - rewrite FREQUENCES_eq in Hi. rewrite ECHANTILLONS_eq. lia.
Qed.

Lemma expected_bins_silence :
  expected_bins zero_window = replicate (Z.to_nat FREQUENCES) 0.
Proof.
  apply list_eq. intros i.
  destruct (decide (Z.of_nat i < FREQUENCES)) as [Hi|Hi].
  - rewrite lookup_expected_bins, lookup_replicate_2 by lia.
    rewrite scaled_magnitude_silence.
    + by rewrite (Ztrunc_IZR 0).
    + rewrite FREQUENCES_eq in Hi. rewrite ECHANTILLONS_eq. lia.
  - rewrite !lookup_ge_None_2; [done| |].
    + rewrite length_replicate. lia.
    + pose proof (length_expected_bins zero_window). lia.
Qed.

(** ** Bounding the scaled magnitudes *)

Local Open Scope R_scope.

Lemma cmod_nonneg c : 0 <= cmod c.
Proof. apply sqrt_pos. Qed.

Lemma cmod_cadd x y : cmod (cadd x y) <= cmod x + cmod y.
Proof.
  destruct x as [a b], y as [c d]. unfold cmod, cadd. simpl.
  pose proof (sqrt_cauchy a b c d) as Hcs. unfold Rsqr in Hcs.
  pose proof (sqrt_pos (a * a + b * b)) as Hx.
  pose proof (sqrt_pos (c * c + d * d)) as Hy.
  pose proof (sqrt_sqrt (a * a + b * b) ltac:(nra)) as Hxx.
  pose proof (sqrt_sqrt (c * c + d * d) ltac:(nra)) as Hyy.
  set (sx := sqrt (a * a + b * b)) in *.
  set (sy := sqrt (c * c + d * d)) in *.
  rewrite <- (sqrt_square (sx + sy)) by lra.
  apply sqrt_le_1_alt. nra.
Qed.

Lemma cmod_dft_term n sign k j a :
  cmod (dft_term n sign k j (a, 0)) = Rabs a.
Proof.
  unfold cmod, dft_term. simpl.
  set (w := IZR sign * 2 * PI * IZR j * IZR k / IZR n).
  pose proof (sin2_cos2 w) as Hsc. unfold Rsqr in Hsc.
  replace ((a * cos w - 0 * sin w) * (a * cos w - 0 * sin w)
           + (a * sin w + 0 * cos w) * (a * sin w + 0 * cos w))
    with (a * a * (sin w * sin w + cos w * cos w)) by ring.
  rewrite Hsc, Rmult_1_r. apply sqrt_Rsqr_abs.
Qed.

Lemma cmod_csum n sign k j window :
  cmod (csum_from (dft_term n sign k) j (window_input window))
  <= abs_sum window.
Proof.
  revert j. induction window as [|x window IH]; intros j.
  - unfold cmod. cbn. replace (0 * 0 + 0 * 0) with 0 by ring.
    rewrite sqrt_0. lra.
  - change (window_input (x :: window)) with ((x, 0) :: window_input window).
    change (abs_sum (x :: window)) with (Rabs x + abs_sum window).
    cbn [csum_from].
    eapply Rle_trans; [apply cmod_cadd|].
    rewrite cmod_dft_term. specialize (IH (j + 1)%Z). lra.
Qed.

Lemma abs_sum_bound window B :
  Forall (λ x, Rabs x <= B) window →
  abs_sum window <= INR (length window) * B.
Proof.
  induction 1 as [|x window Hx _ IH].
  - simpl. lra.
  - change (abs_sum (x :: window)) with (Rabs x + abs_sum window).
    change (length (x :: window)) with (Datatypes.S (length window)).
    rewrite S_INR. lra.
Qed.

Lemma exp_2_le_8 : exp 2 <= 8.
Proof.
  assert (Hdbl : ∀ x, exp (x + x) = exp x * exp x) by (intros; apply exp_plus).
  pose proof (exp_ineq1_le (- (1 / 16))) as Hlow.
  rewrite exp_Ropp in Hlow.
  pose proof (exp_pos (1 / 16)) as Hp16.
  assert (Hb16 : exp (1 / 16) <= 16 / 15).
  { apply Rmult_le_reg_r with (/ exp (1 / 16)).
    - by apply Rinv_0_lt_compat.
    - rewrite Rinv_r by lra. lra. }
  pose proof (exp_pos (1 / 8)) as Hp8.
  assert (Hb8 : exp (1 / 8) <= 1138 / 1000).
  { replace (1 / 8) with (1 / 16 + 1 / 16) by lra. rewrite Hdbl. nra. }
  pose proof (exp_pos (1 / 4)) as Hp4.
  assert (Hb4 : exp (1 / 4) <= 12951 / 10000).
  { replace (1 / 4) with (1 / 8 + 1 / 8) by lra. rewrite Hdbl. nra. }
  pose proof (exp_pos (1 / 2)) as Hp2.
  assert (Hb2 : exp (1 / 2) <= 16773 / 10000).
  { replace (1 / 2) with (1 / 4 + 1 / 4) by lra. rewrite Hdbl. nra. }
  pose proof (exp_pos 1) as Hp1.
  assert (Hb1 : exp 1 <= 28134 / 10000).
  { replace 1 with (1 / 2 + 1 / 2) at 1 by lra. rewrite Hdbl. nra. }
  replace 2 with (1 + 1) by lra. rewrite Hdbl. nra.
Qed.

Lemma exp_scale_bound i :
  (0 <= i < FREQUENCES)%Z →
  1 <= exp (2 * IZR i / IZR FREQUENCES) < 8.
Proof.
  intros [Hlo Hhi]. rewrite FREQUENCES_eq in *.
  apply IZR_le in Hlo. apply IZR_lt in Hhi.
  split.
  - rewrite <- exp_0. 
    destruct (Req_dec (IZR i) 0) as [->|Hne].
    + replace (2 * 0 / 1024) with 0 by lra. lra.
    + left. apply exp_increasing. lra.
  - eapply Rlt_le_trans; [|apply exp_2_le_8].
    apply exp_increasing. lra.
Qed.

Lemma scaled_magnitude_bound window B i :
  Z.of_nat (length window) = ECHANTILLONS →
  Forall (λ x, Rabs x <= B) window →
  (0 <= i < FREQUENCES)%Z →
  0 <= scaled_magnitude window i <= 32768 * B.
Proof.
  intros Hlen HB Hi.
  rewrite scaled_magnitude_eq
    by (rewrite FREQUENCES_eq in Hi; rewrite ECHANTILLONS_eq; lia).
  unfold bin_value.
  set (c := csum_from _ _ _). fold (cmod c).
  pose proof (cmod_nonneg c) as Hc0.
  pose proof (cmod_csum ECHANTILLONS FFTW_FORWARD i 0 window) as Hc. fold c in Hc.
  pose proof (abs_sum_bound window B HB) as Hs.
  assert (HN : INR (length window) = 4096).
  { rewrite <- INR_ECHANTILLONS, <- Hlen. by rewrite Nat2Z.id. }
  rewrite HN in Hs.
  pose proof (exp_scale_bound i Hi) as [He1 He8].
  set (e := exp _) in *. split; nra.
Qed.

Lemma scaled_magnitude_normalised window i :
  Z.of_nat (length window) = ECHANTILLONS →
  normalised window →
  (0 <= i < FREQUENCES)%Z →
  0 <= scaled_magnitude window i < 32768.
Proof.
  intros Hlen HB Hi.
  rewrite scaled_magnitude_eq
    by (rewrite FREQUENCES_eq in Hi; rewrite ECHANTILLONS_eq; lia).
  unfold bin_value.
  set (c := csum_from _ _ _). fold (cmod c).
  pose proof (cmod_nonneg c) as Hc0.
  pose proof (cmod_csum ECHANTILLONS FFTW_FORWARD i 0 window) as Hc. fold c in Hc.
  pose proof (abs_sum_bound window 1 HB) as Hs.
  assert (HN : INR (length window) = 4096).
  { rewrite <- INR_ECHANTILLONS, <- Hlen. by rewrite Nat2Z.id. }
  rewrite HN in Hs.
  pose proof (exp_scale_bound i Hi) as [He1 He8].
  set (e := exp _) in *. split; nra.
Qed.

Local Close Scope R_scope.

(** Amplitudes up to 65535 times full scale keep every conversion defined. *)
Lemma bounded_representable window B :
  Z.of_nat (length window) = ECHANTILLONS →
  Forall (λ x, (Rabs x <= B)%R) window →
  (B <= 65535)%R →
  representable window.
Proof.
  intros Hlen HB Hle i Hi.
  destruct (scaled_magnitude_bound window B i Hlen HB Hi) as [Hlo Hhi].
  destruct (Ztrunc_nonneg (scaled_magnitude window i) (2 ^ 31)) as [H0 H1].
  - split; [done|]. eapply Rle_lt_trans; [apply Hhi|].
    replace (IZR (2 ^ 31)) with 2147483648%R by (simpl; lra). lra.
  - unfold INT_MIN, INT_MAX. lia.
Qed.

Lemma normalised_representable window :
  Z.of_nat (length window) = ECHANTILLONS →
  normalised window → representable window.
Proof.
  intros Hlen Hn. apply (bounded_representable window 1); [done|done|lra].
Qed.

(** For normalised samples the truncated value already fits [Sint16]. *)
Lemma normalised_bin_range window i :
  Z.of_nat (length window) = ECHANTILLONS →
  normalised window →
  0 <= i < FREQUENCES →
  0 <= Ztrunc (scaled_magnitude window i) <= 32767.
Proof.
  intros Hlen Hn Hi.
  pose proof (Ztrunc_nonneg _ 32768
                (scaled_magnitude_normalised window i Hlen Hn Hi)). lia.
Qed.

(** ** Constant windows *)

Lemma length_constant_window a :
  Z.of_nat (length (constant_window a)) = ECHANTILLONS.
Proof. unfold constant_window. rewrite length_replicate. reflexivity. Qed.

Lemma constant_window_bounded a :
  Forall (λ x, (Rabs x <= Rabs a)%R) (constant_window a).
Proof. apply Forall_replicate. lra. Qed.

(** Output 0 of the transform is the sum of the samples. *)
Lemma spectrum_constant_0 a :
  spectrum (constant_window a) !! O = Some (4096 * a, 0)%R.
Proof.
  rewrite lookup_spectrum by (rewrite ECHANTILLONS_eq; lia).
  unfold constant_window. rewrite window_input_replicate.
  rewrite (csum_from_replicate _ _ _ _ a 0%R).
  - rewrite INR_ECHANTILLONS. do 2 f_equal; lra.
  - intros j. unfold dft_term. cbn [fst snd].
    replace (IZR FFTW_FORWARD * 2 * PI * IZR j * IZR (Z.of_nat 0) / IZR ECHANTILLONS)%R
      with 0%R by (cbn [Z.of_nat]; unfold Rdiv; ring).
    rewrite cos_0, sin_0. f_equal; ring.
Qed.

Lemma bin_value_dc x : (0 <= x)%R → bin_value (x, 0%R) 0 = x.
Proof.
  intros Hx. unfold bin_value. cbn [fst snd].
  replace (x * x + 0 * 0)%R with (x * x)%R by ring.
  rewrite sqrt_square by done.
  replace (2 * 0 / IZR FREQUENCES)%R with 0%R by (unfold Rdiv; ring).
  rewrite exp_0. ring.
Qed.

Lemma scaled_magnitude_constant_0 a :
  (0 <= a)%R → scaled_magnitude (constant_window a) 0 = (4096 * a)%R.
Proof.
  intros Ha. unfold scaled_magnitude.
  rewrite (nth_lookup_Some _ _ _ _ (spectrum_constant_0 a)).
  apply bin_value_dc. lra.
Qed.

Lemma normalised_full_scale : normalised full_scale_window.
Proof. apply Forall_replicate. rewrite Rabs_pos_eq; lra. Qed.

Lemma wf_full_scale_state : wf_state full_scale_state.
Proof.
  apply wf_with_samples; [apply length_constant_window|apply wf_ready_state].
Qed.

Lemma representable_full_scale : representable full_scale_window.
Proof.
  apply normalised_representable;
    [apply length_constant_window|apply normalised_full_scale].
Qed.

Lemma representable_loud : representable loud_window.
Proof.
  apply (bounded_representable loud_window (Rabs 8));
    [apply length_constant_window|apply constant_window_bounded|].
  rewrite Rabs_pos_eq; lra.
Qed.


Lemma expected_bins_loud_0 : expected_bins loud_window !! O = Some (-32768).
Proof.
  rewrite lookup_expected_bins by (rewrite FREQUENCES_eq; lia).
  change (Z.of_nat 0) with 0. unfold loud_window.
  rewrite scaled_magnitude_constant_0 by lra.
  replace (4096 * 8)%R with (IZR 32768) by lra.
  rewrite Ztrunc_IZR. reflexivity.
Qed.

Lemma wf_loud_state : wf_state loud_state.
Proof.
  apply wf_with_samples; [apply length_constant_window|apply wf_ready_state].
Qed.


(** ** The callback as a whole *)

Lemma mixCallback_spec st nframes buffer p s' :
  wf_state st →
  _plan4fftw st = Some p →
  ingest (_samples st) nframes buffer = Some s' →
  Z.of_nat (length s') = ECHANTILLONS →
  representable s' →
  mixCallback st nframes buffer
  = Some ({| _samples := s';
             _hauteurs := expected_bins s';
             waveform := waveform st;
             _in4fftw := Some (window_input s');
             _out4fftw := Some (spectrum s');
             _plan4fftw := Some p |}, 0).
Proof.
  intros Hwf Hp Hing Hlen Hrep. unfold mixCallback.
  rewrite Hp, Hing, bind_Some_l.
  rewrite (analyze_spec p (with_samples s' st)).
  - reflexivity.
  - by apply wf_with_samples.
  - exact Hp.
  - exact Hrep.
Qed.

(** The callback keeps the state well formed. *)
Lemma wf_mixCallback st nframes buffer s' st' r :
  wf_state st →
  valid_block nframes buffer →
  ingest (_samples st) nframes buffer = Some s' →
  representable s' →
  mixCallback st nframes buffer = Some (st', r) →
  wf_state st'.
Proof.
  intros Hwf Hblock Hing Hrep Hrun.
  destruct (ingest_defined (_samples st) nframes buffer)
    as (s1 & Hing1 & Hlen & _); [apply Hwf|apply Hblock|].
  assert (s1 = s') as -> by congruence.
  destruct (_plan4fftw st) as [p|] eqn:Hp.
  - rewrite (mixCallback_spec st nframes buffer p s') in Hrun by done.
    apply (inj Some) in Hrun. injection Hrun as <- _.
    destruct Hwf as (_ & _ & Hplan). destruct (Hplan p Hp) as (Hpe & _).
    split; [exact Hlen|]. split; [apply length_expected_bins|].
    intros p' Hp'. cbn [_plan4fftw] in Hp'. apply (inj Some) in Hp' as <-.
    split; [exact Hpe|].
    eexists _, _. split; [reflexivity|]. split; [reflexivity|].
    split; [unfold window_input; by rewrite length_fmap|].
    split; [|apply Forall_window_input].
    unfold spectrum. rewrite length_dft_1d. rewrite ECHANTILLONS_eq. lia.
  - unfold mixCallback in Hrun. rewrite Hp in Hrun.
    apply (inj Some) in Hrun. by injection Hrun as <- _.
Qed.

(** A full block of the loud signal, delivered to the initialised program. *)
Lemma mixCallback_loud :
  mixCallback ready_state 4096 loud_window
  = Some ({| _samples := loud_window;
             _hauteurs := expected_bins loud_window;
             waveform := 0;
             _in4fftw := Some (window_input loud_window);
             _out4fftw := Some (spectrum loud_window);
             _plan4fftw := Some init_plan |}, 0).
Proof.
  apply (mixCallback_spec ready_state 4096 loud_window init_plan loud_window).
  - apply wf_ready_state.
  - reflexivity.
  - change (_samples ready_state) with zero_window.
    rewrite ingest_le;
      [|apply length_zero_window|apply length_constant_window
       |rewrite ECHANTILLONS_eq; lia].
    rewrite drop_ge; [reflexivity|].
    pose proof length_zero_window as Hlen. rewrite ECHANTILLONS_eq in Hlen. lia.
  - apply length_constant_window.
  - apply representable_loud.
Qed.

(** ** The renderer's loop *)

Lemma collect_loop {P : Type} (f : Z → option P) (h : Z → P) (n : nat) :
  (∀ k : nat, (k < n)%nat → f (Z.of_nat k) = Some (h (Z.of_nat k))) →
  for_loop 0 (Z.of_nat n) (λ i px, p ← f i; Some (px ++ [p])) []
  = Some (h <$> seqZ 0 (Z.of_nat n)).
Proof.
  intros Hf.
  destruct (for_loop_inv
    (λ k px, px = h <$> seqZ 0 (Z.of_nat k))
    (λ i px, p ← f i; Some (px ++ [p])) 0 (Z.of_nat n) []) as (px & Hrun & Hfin).
  - done.
  - intros k px0 Hk ->. rewrite Z.add_0_l, Hf, bind_Some_l by lia.
    eexists. split; [reflexivity|].
    by rewrite seqZ_S, fmap_app.
  - rewrite Hrun, Hfin. do 3 f_equal. lia.
Qed.

Lemma clamp_y_range y0 : 0 <= clamp_y y0 <= _wH.
Proof.
  unfold clamp_y, _wH.
  destruct (Z.ltb_spec 512 y0); cbv zeta;
    [destruct (Z.ltb_spec (512 - 1) 0)|destruct (Z.ltb_spec y0 0)]; lia.
Qed.

(** ** Claims on the rolling sample buffer *)

(** C6. Whatever the buffer holds and however many frames arrive (more than
    [ECHANTILLONS] included), [ingest] returns a buffer of exactly
    [ECHANTILLONS] samples. *)
Theorem ingest_length samples nframes buffer :
  Z.of_nat (length samples) = ECHANTILLONS →
  valid_block nframes buffer →
  ∃ s', ingest samples nframes buffer = Some s' ∧
        Z.of_nat (length s') = ECHANTILLONS.
Proof.
  intros Hs [Hrange Hb].
  destruct (Z.lt_ge_cases ECHANTILLONS nframes) as [Hgt|Hle].
  - rewrite ingest_gt by done. eexists. split; [done|].
    rewrite length_take. rewrite ECHANTILLONS_eq in *. lia.
  - rewrite ingest_le by done. eexists. split; [done|].
    rewrite length_app, length_drop. lia.
Qed.

Lemma ingest_length_witness :
  ∃ s', ingest zero_window 5000 (ramp 5000) = Some s' ∧
        Z.of_nat (length s') = ECHANTILLONS.
Proof.
  apply ingest_length.
  - apply length_zero_window.
  - ramp_block.
Defined.

(** C9. With no new frame, [ingest] returns the buffer it was given. *)
Theorem ingest_zero_frames samples buffer :
  Z.of_nat (length samples) = ECHANTILLONS →
  valid_block 0 buffer →
  ingest samples 0 buffer = Some samples.
Proof.
  intros Hs [_ Hb]. rewrite ingest_le by (rewrite ?ECHANTILLONS_eq; done || lia).
  destruct buffer; [|done]. simpl. by rewrite app_nil_r.
Qed.

Lemma ingest_zero_frames_witness :
  ingest (ramp ECHANTILLONS) 0 [] = Some (ramp ECHANTILLONS).
Proof.
  apply ingest_zero_frames.
  - apply length_ramp. rewrite ECHANTILLONS_eq. lia.
  - split; [unfold JACK_NFRAMES_MAX; lia | reflexivity].
Defined.

(** C2. With [0 <= M < ECHANTILLONS] new frames, the new buffer is the old
    entries [M .. ECHANTILLONS-1] followed by the entries [0 .. M-1] of the
    block, and it still has [ECHANTILLONS] entries. *)
Theorem ingest_shift_append samples nframes buffer :
  Z.of_nat (length samples) = ECHANTILLONS →
  valid_block nframes buffer →
  nframes < ECHANTILLONS →
  ∃ s', ingest samples nframes buffer = Some s' ∧
        s' = slice (Z.to_nat nframes) (Z.to_nat ECHANTILLONS) samples
             ++ slice 0 (Z.to_nat nframes) buffer ∧
        Z.of_nat (length s') = ECHANTILLONS.
Proof.
  intros Hs [Hrange Hb] Hlt.
  rewrite ingest_le by (done || lia).
  eexists. split; [done|]. split.
  - unfold slice. simpl. f_equal.
    + rewrite take_ge; [done|]. rewrite length_drop. lia.
    + rewrite drop_0, take_ge; [done|]. lia.
  - rewrite length_app, length_drop. lia.
Qed.

Lemma ingest_shift_append_witness :
  ∃ s', ingest zero_window 16 (ramp 16) = Some s' ∧
        s' = slice (Z.to_nat 16) (Z.to_nat ECHANTILLONS) zero_window
             ++ slice 0 (Z.to_nat 16) (ramp 16) ∧
        Z.of_nat (length s') = ECHANTILLONS.
Proof.
  apply ingest_shift_append.
  - apply length_zero_window.
  - ramp_block.
  - rewrite ECHANTILLONS_eq. lia.
Defined.

(** What the code does for C1. With [M >= ECHANTILLONS] new frames the new
    buffer is the first [ECHANTILLONS] entries of the block, in order; only
    when [M = ECHANTILLONS] are these also its last [ECHANTILLONS]
    entries. *)
Theorem ingest_full_block samples nframes buffer :
  Z.of_nat (length samples) = ECHANTILLONS →
  valid_block nframes buffer →
  ECHANTILLONS <= nframes →
  ingest samples nframes buffer = Some (take (Z.to_nat ECHANTILLONS) buffer) ∧
  (nframes = ECHANTILLONS →
   take (Z.to_nat ECHANTILLONS) buffer
   = last_frames (Z.to_nat ECHANTILLONS) buffer).
Proof.
  intros Hs [Hrange Hb] Hge. split.
  - destruct (Z.eq_dec nframes ECHANTILLONS) as [->|Hne].
    + rewrite ingest_le by (done || lia).
      rewrite drop_ge by lia. simpl. f_equal.
      symmetry. apply take_ge. lia.
    + apply ingest_gt; (done || lia).
  - intros ->. unfold last_frames.
    replace (length buffer - Z.to_nat ECHANTILLONS)%nat with O by lia.
    rewrite drop_0. apply take_ge. lia.
Qed.

Lemma ingest_full_block_witness :
  ingest zero_window 4097 (ramp 4097)
  = Some (take (Z.to_nat ECHANTILLONS) (ramp 4097)) ∧
  (4097 = ECHANTILLONS →
   take (Z.to_nat ECHANTILLONS) (ramp 4097)
   = last_frames (Z.to_nat ECHANTILLONS) (ramp 4097)).
Proof.
  apply ingest_full_block.
  - apply length_zero_window.
  - ramp_block.
  - rewrite ECHANTILLONS_eq. lia.
Defined.

(** C1 fails on the code.  From the block [0, 1, .., 4096] the branch for
    [nframes > ECHANTILLONS] keeps [0 .. 4095], the oldest frames, whereas
    the last [ECHANTILLONS] frames are [1 .. 4096]; the other branch keeps
    the newest frames. *)
Lemma ingest_excess_not_last :
  valid_block 4097 (ramp 4097) ∧
  ECHANTILLONS <= 4097 ∧
  ingest zero_window 4097 (ramp 4097)
  ≠ Some (last_frames (Z.to_nat ECHANTILLONS) (ramp 4097)).
Proof.
  split; [ramp_block|].
  split; [rewrite ECHANTILLONS_eq; lia|].
  rewrite ingest_gt;
    [|apply length_zero_window|apply length_ramp; lia|rewrite ECHANTILLONS_eq; lia].
  intros Heq%(inj Some).
  assert (Hhd : take (Z.to_nat ECHANTILLONS) (ramp 4097) !! O
                = last_frames (Z.to_nat ECHANTILLONS) (ramp 4097) !! O)
    by (by rewrite Heq).
  unfold last_frames in Hhd.
  rewrite lookup_take_lt in Hhd by (rewrite ECHANTILLONS_eq; lia).
  rewrite lookup_drop in Hhd.
  pose proof (length_ramp 4097 ltac:(lia)) as Hlen.
  replace (length (ramp 4097) - Z.to_nat ECHANTILLONS + 0)%nat with 1%nat in Hhd
    by (rewrite ECHANTILLONS_eq; lia).
  rewrite (lookup_ramp 4097 0), (lookup_ramp 4097 1) in Hhd by lia.
  apply (inj Some), eq_IZR in Hhd. lia.
Qed.

(** ** Claims on the spectral analysis *)

(** C8. On a window of [ECHANTILLONS] zeros the analysis stores
    [FREQUENCES] bins, all zero. *)
Theorem analyze_silence p st :
  wf_state st →
  _plan4fftw st = Some p →
  _samples st = zero_window →
  ∃ st', analyze p st = Some st' ∧
         _hauteurs st' = replicate (Z.to_nat FREQUENCES) 0.
Proof.
  intros Hwf Hp Hs.
  rewrite analyze_spec; [|done|done|rewrite Hs; apply representable_silence].
  eexists. split; [reflexivity|].
  cbn [_hauteurs]. rewrite Hs. apply expected_bins_silence.
Qed.

Lemma analyze_silence_witness :
  ∃ st', analyze init_plan ready_state = Some st' ∧
         _hauteurs st' = replicate (Z.to_nat FREQUENCES) 0.
Proof.
  apply analyze_silence; [apply wf_ready_state|reflexivity|reflexivity].
Defined.


(** C7, as the code has it. An analysis pass leaves [FREQUENCES = 1024]
    bins, every one written by that pass (they are a function of the window
    alone), every one a signed 16-bit value; they are all non-negative when
    the samples are normalised to [-1, 1]. *)
Theorem analyze_overwrites_bins p st :
  wf_state st →
  _plan4fftw st = Some p →
  representable (_samples st) →
  ∃ st', analyze p st = Some st' ∧
    Z.of_nat (length (_hauteurs st')) = ECHANTILLONS / 4 ∧
    _hauteurs st' = expected_bins (_samples st) ∧
    Forall (λ h, -32768 <= h <= 32767) (_hauteurs st') ∧
    (normalised (_samples st) → Forall (λ h, 0 <= h) (_hauteurs st')).
Proof.
  intros Hwf Hp Hrep. rewrite analyze_spec by done.
  eexists. split; [reflexivity|]. cbn [_hauteurs].
  split; [apply length_expected_bins|]. split; [reflexivity|].
  split.
  - unfold expected_bins. apply Forall_fmap, Forall_true. intros i.
    apply to_Sint16_range.
  - intros Hn. unfold expected_bins. rewrite Forall_fmap.
    apply Forall_forall. intros i Hi%elem_of_seqZ. cbn.
    destruct Hwf as (Hlen & _).
    pose proof (normalised_bin_range (_samples st) i Hlen Hn ltac:(lia)).
    rewrite to_Sint16_small; lia.
Qed.

Lemma analyze_overwrites_bins_witness :
  normalised (_samples full_scale_state) ∧
  ∃ st', analyze init_plan full_scale_state = Some st' ∧
    Z.of_nat (length (_hauteurs st')) = ECHANTILLONS / 4 ∧
    _hauteurs st' = expected_bins (_samples full_scale_state) ∧
    Forall (λ h, -32768 <= h <= 32767) (_hauteurs st') ∧
    (normalised (_samples full_scale_state) →
     Forall (λ h, 0 <= h) (_hauteurs st')).
Proof.
  split; [apply normalised_full_scale|].
  apply analyze_overwrites_bins;
    [apply wf_full_scale_state|reflexivity|apply representable_full_scale].
Defined.

(** C7, as the claim states it, fails: given a full block of the loud
    signal the callback's analysis pass stores -32768 in bin 0. *)
Lemma analyze_bin_negative :
  wf_state ready_state ∧
  valid_block 4096 loud_window ∧
  ∃ st', mixCallback ready_state 4096 loud_window = Some (st', 0) ∧
    _hauteurs st' !! O = Some (-32768) ∧
    ¬ Forall (λ h, 0 <= h) (_hauteurs st').
Proof.
  split; [apply wf_ready_state|].
  split; [split; [unfold JACK_NFRAMES_MAX; lia|apply length_constant_window]|].
  rewrite mixCallback_loud. eexists. split; [reflexivity|].
  cbn [_hauteurs]. split; [apply expected_bins_loud_0|].
  rewrite Forall_lookup. intros Hall.
  specialize (Hall O _ expected_bins_loud_0). cbn in Hall. lia.
Qed.

(** ** Claims on the callback *)

(** C10. Without a plan the callback returns 0 and changes nothing: the
    sample buffer and the bins are those of the state it was called in. *)
Theorem mixCallback_without_plan st nframes buffer :
  _plan4fftw st = None →
  mixCallback st nframes buffer = Some (st, 0) ∧
  ∀ st' r, mixCallback st nframes buffer = Some (st', r) →
    _samples st' = _samples st ∧ _hauteurs st' = _hauteurs st ∧ r = 0.
Proof.
  intros Hp. unfold mixCallback. rewrite Hp. split; [reflexivity|].
  intros st' r Heq. apply (inj Some) in Heq.
  by injection Heq as <- <-.
Qed.

Lemma mixCallback_without_plan_witness :
  mixCallback initial_state 16 (ramp 16) = Some (initial_state, 0) ∧
  ∀ st' r, mixCallback initial_state 16 (ramp 16) = Some (st', r) →
    _samples st' = _samples initial_state ∧
    _hauteurs st' = _hauteurs initial_state ∧ r = 0.
Proof.
  apply mixCallback_without_plan. reflexivity.
Defined.

(** C4, as the code has it. With a plan, the frames are ingested and the
    bins are recomputed from the new window; without a plan the callback
    skips the ingestion as well as the analysis, and returns 0. *)
Theorem mixCallback_guarded st nframes buffer :
  wf_state st →
  valid_block nframes buffer →
  ∃ s', ingest (_samples st) nframes buffer = Some s' ∧
    match _plan4fftw st with
    | None => mixCallback st nframes buffer = Some (st, 0)
    | Some _ =>
        representable s' →
        ∃ st', mixCallback st nframes buffer = Some (st', 0) ∧
               _samples st' = s' ∧
               _hauteurs st' = expected_bins s'
    end.
Proof.
  intros Hwf Hblock.
  destruct (ingest_defined (_samples st) nframes buffer)
    as (s' & Hing & Hlen & _); [apply Hwf|apply Hblock|].
  exists s'. split; [done|].
  destruct (_plan4fftw st) as [p|] eqn:Hp.
  - intros Hrep. rewrite (mixCallback_spec st nframes buffer p s') by done.
    eexists. split; [reflexivity|]. split; reflexivity.
  - unfold mixCallback. by rewrite Hp.
Qed.

Lemma mixCallback_guarded_witness :
  ∃ s', ingest (_samples ready_state) 16 (ramp 16) = Some s' ∧
    match _plan4fftw ready_state with
    | None => mixCallback ready_state 16 (ramp 16) = Some (ready_state, 0)
    | Some _ =>
        representable s' →
        ∃ st', mixCallback ready_state 16 (ramp 16) = Some (st', 0) ∧
               _samples st' = s' ∧
               _hauteurs st' = expected_bins s'
    end.
Proof.
  apply mixCallback_guarded.
  - apply wf_ready_state.
  - ramp_block.
Defined.

(** C4, as the claim states it, fails: called before [init] with one frame
    of value 1, the callback returns with the sample buffer it was given,
    which is not the buffer [ingest] produces. *)
Lemma mixCallback_skips_ingest :
  wf_state initial_state ∧
  valid_block 1 [1%R] ∧
  mixCallback initial_state 1 [1%R] = Some (initial_state, 0) ∧
  ingest (_samples initial_state) 1 [1%R]
  = Some (drop 1 zero_window ++ [1%R]) ∧
  _samples initial_state ≠ drop 1 zero_window ++ [1%R].
Proof.
  split; [apply wf_initial_state|].
  split; [split; [unfold JACK_NFRAMES_MAX; lia|reflexivity]|].
  split; [reflexivity|].
  split.
  - apply (ingest_le zero_window 1 [1%R]);
      [apply length_zero_window|reflexivity|rewrite ECHANTILLONS_eq; lia].
  - change (_samples initial_state) with zero_window. intros Heq.
    assert (Hl : zero_window !! 4095%nat
                 = (drop 1 zero_window ++ [1%R]) !! 4095%nat)
      by (by rewrite <- Heq).
    pose proof length_zero_window as Hlen. rewrite ECHANTILLONS_eq in Hlen.
    rewrite lookup_app_r in Hl by (rewrite length_drop; lia).
    rewrite length_drop in Hl.
    replace (4095 - (length zero_window - 1))%nat with O in Hl by lia.
    unfold zero_window in Hl at 1.
    rewrite lookup_replicate_2 in Hl by (rewrite ECHANTILLONS_eq; lia).
    apply (inj Some) in Hl. cbn in Hl. lra.
Qed.

(** ** The renderer *)

(** C5 fails on the code.  A waveform sample of +1.0 and a bin of 512 are
    both drawn at row 512, the window height: the test [y0 > _wH] lets
    [y0 = _wH] through. *)
Theorem draw_reaches_window_height :
  (∃ px, draw full_scale_waveform = Some px ∧ (0, _wH) ∈ px) ∧
  (∃ px, draw full_height_spectrum = Some px ∧ (0, _wH) ∈ px).
Proof.
  split.
  - exists ((λ i, ((i * (_wW - 1)) ÷ (ECHANTILLONS - 1), _wH))
            <$> seqZ 0 ECHANTILLONS).
    split.
    + unfold draw. cbn [waveform full_scale_waveform]. cbn [Z.eqb Pos.eqb].
      rewrite <- (Z2Nat.id ECHANTILLONS) at 1 2 by (rewrite ECHANTILLONS_eq; lia).
      apply (collect_loop (waveform_pixel full_scale_waveform)).
      intros k Hk. unfold waveform_pixel. cbn [_samples full_scale_waveform].
      unfold arr_get. destruct (Z.leb_spec 0 (Z.of_nat k)); [|lia].
      rewrite Nat2Z.id, lookup_replicate_2, bind_Some_l by lia.
      replace ((1 * IZR _wH + IZR _wH) / 2)%R with (IZR 512)
        by (unfold _wH; lra).
      rewrite double_to_int_Some, Ztrunc_IZR;
        [reflexivity|rewrite Ztrunc_IZR; unfold INT_MIN, INT_MAX; lia].
    + apply (list_elem_of_fmap_2' _ _ 0).
      * apply elem_of_seqZ. rewrite ECHANTILLONS_eq. lia.
      * reflexivity.
  - exists ((λ i, ((i * (_wW - 1)) ÷ (FREQUENCES - 1), _wH))
            <$> seqZ 0 FREQUENCES).
    split.
    + unfold draw. cbn [waveform full_height_spectrum]. cbn [Z.eqb].
      rewrite <- (Z2Nat.id FREQUENCES) at 1 2 by (rewrite FREQUENCES_eq; lia).
      apply (collect_loop (spectrum_pixel full_height_spectrum)).
      intros k Hk. unfold spectrum_pixel. cbn [_hauteurs full_height_spectrum].
      unfold arr_get. destruct (Z.leb_spec 0 (Z.of_nat k)); [|lia].
      rewrite Nat2Z.id, lookup_replicate_2, bind_Some_l by lia.
      reflexivity.
    + apply (list_elem_of_fmap_2' _ _ 0).
      * apply elem_of_seqZ. rewrite FREQUENCES_eq. lia.
      * reflexivity.
Qed.

(** ** More on counted loops *)

Section LoopSplit.
Context {S : Type}.

(** A loop of [n1 + n2] iterations is the first [n1] followed by the
    remaining [n2]. *)
Lemma for_range_app (body : Z → S → option S) n1 n2 i s :
  for_range (n1 + n2) i body s
  = for_range n1 i body s ≫= for_range n2 (i + Z.of_nat n1) body.
Proof.
  revert i s. induction n1 as [|n1 IH]; intros i s.
  - cbn [Nat.add for_range]. rewrite bind_Some_l. by rewrite Z.add_0_r.
  - cbn [Nat.add for_range]. destruct (body i s) as [s1|]; [|done].
    rewrite IH. do 2 f_equal. lia.
Qed.

(** An iteration that fails makes the loop fail. *)
Lemma for_range_fail (body : Z → S → option S) n k i s sk :
  (k < n)%nat →
  for_range k i body s = Some sk →
  body (i + Z.of_nat k) sk = None →
  for_range n i body s = None.
Proof.
  intros Hk Hrun Hfail.
  replace n with (k + Datatypes.S (n - k - 1))%nat by lia.
  rewrite for_range_app, Hrun, bind_Some_l.
  cbn [for_range]. by rewrite Hfail.
Qed.

(** Partial-correctness rule: what the iterations that ran preserve holds
    of the result. *)
Lemma for_range_post (P : nat → S → Prop) (body : Z → S → option S) n i s s' :
  P O s →
  (∀ k s0 s1, (k < n)%nat → P k s0 →
     body (i + Z.of_nat k) s0 = Some s1 → P (Datatypes.S k) s1) →
  for_range n i body s = Some s' →
  P n s'.
Proof.
  revert P i s. induction n as [|n IH]; intros P i s H0 Hstep Hrun.
  - cbn in Hrun. by injection Hrun as <-.
  - cbn [for_range] in Hrun. destruct (body i s) as [s1|] eqn:Hb; [|done].
    apply (IH (λ k, P (Datatypes.S k)) (i + 1) s1).
    + apply (Hstep O s s1); [lia|done|]. by rewrite Z.add_0_r.
    + intros k s0 s2 Hk HP Hb2.
      apply (Hstep (Datatypes.S k) s0 s2); [lia|done|].
      rewrite <- Hb2. f_equal. lia.
    + done.
Qed.
End LoopSplit.

(** ** The block [ingest] reads *)

(** A copy loop that runs past the end of its source fails. *)
Lemma copy_loop_short {A : Type} (body : Z → list A → option (list A))
    (buffer s : list A) (n off : nat) :
  (∀ i s0, body i s0 = v ← arr_get buffer i; arr_set s0 (i + Z.of_nat off) v) →
  (length buffer < n)%nat →
  (off + length buffer ≤ length s)%nat →
  for_loop 0 (Z.of_nat n) body s = None.
Proof.
  intros Hbody Hn Hs. unfold for_loop.
  apply (for_range_fail body _ (length buffer) 0 s
           (take off s ++ take (length buffer) buffer
            ++ drop (off + length buffer) s)); [lia| |].
  - pose proof (copy_loop body buffer s (length buffer) off Hbody) as Hc.
    unfold for_loop in Hc. rewrite Z.sub_0_r, Nat2Z.id in Hc.
    apply Hc; lia.
  - rewrite Hbody. unfold arr_get.
    destruct (Z.leb_spec 0 (0 + Z.of_nat (length buffer))); [|lia].
    rewrite lookup_ge_None_2 by lia. done.
Qed.

(** The result depends on the first [min nframes ECHANTILLONS] frames of the
    block only. *)
Lemma ingest_prefix samples nframes buffer :
  Z.of_nat (length samples) = ECHANTILLONS →
  0 <= nframes →
  Z.min nframes ECHANTILLONS <= Z.of_nat (length buffer) →
  ingest samples nframes buffer
  = Some (if ECHANTILLONS <? nframes
          then take (Z.to_nat ECHANTILLONS) buffer
          else drop (Z.to_nat nframes) samples ++ take (Z.to_nat nframes) buffer).
Proof.
  intros Hs Hn Hb. unfold ingest.
  destruct (Z.ltb_spec ECHANTILLONS nframes) as [Hgt|Hle].
  - replace ECHANTILLONS with (Z.of_nat (Z.to_nat ECHANTILLONS)) at 1
      by (rewrite ECHANTILLONS_eq; lia).
    rewrite (copy_loop _ buffer samples _ 0).
    + cbn [Nat.add take app]. rewrite drop_ge by lia. by rewrite app_nil_r.
    + intros i s0. by rewrite Z.add_0_r.
    + lia.
    + lia.
  - destruct (Z_of_nat_complete nframes Hn) as [nf ->].
    rewrite <- Hs in *. rewrite Nat2Z.id.
    rewrite shift_loop, bind_Some_l by lia. cbv zeta.
    rewrite (copy_loop _ buffer _ _ (length samples - nf)).
    + f_equal. rewrite take_app_length'; [|rewrite length_drop; lia].
      rewrite (drop_ge (_ ++ _)); [|rewrite length_app, !length_drop; lia].
      by rewrite app_nil_r.
    + intros i s0. do 3 f_equal. lia.
    + lia.
    + rewrite length_app, !length_drop. lia.
Qed.

Lemma ingest_short samples nframes buffer :
  Z.of_nat (length samples) = ECHANTILLONS →
  0 <= nframes →
  Z.of_nat (length buffer) < Z.min nframes ECHANTILLONS →
  ingest samples nframes buffer = None.
Proof.
  intros Hs Hn Hb. unfold ingest.
  destruct (Z.ltb_spec ECHANTILLONS nframes) as [Hgt|Hle].
  - replace ECHANTILLONS with (Z.of_nat (Z.to_nat ECHANTILLONS)) at 1
      by (rewrite ECHANTILLONS_eq; lia).
    apply (copy_loop_short _ buffer samples _ 0).
    + intros i s0. by rewrite Z.add_0_r.
    + lia.
    + lia.
  - destruct (Z_of_nat_complete nframes Hn) as [nf ->].
    rewrite <- Hs in *.
    rewrite shift_loop, bind_Some_l by lia. cbv zeta.
    apply (copy_loop_short _ buffer _ _ (length samples - nf)).
    + intros i s0. do 3 f_equal. lia.
    + lia.
    + rewrite length_app, !length_drop. lia.
Qed.

(** X1. [ingest] is defined exactly when the block holds the frames it
    reads, the first [min nframes ECHANTILLONS]; what the block holds beyond
    them does not matter. *)
Theorem ingest_defined_iff samples nframes buffer :
  Z.of_nat (length samples) = ECHANTILLONS →
  0 <= nframes →
  (is_Some (ingest samples nframes buffer)
   ↔ Z.min nframes ECHANTILLONS <= Z.of_nat (length buffer)) ∧
  ingest samples nframes buffer
  = ingest samples nframes
      (take (Z.to_nat (Z.min nframes ECHANTILLONS)) buffer).
Proof.
  intros Hs Hn.
  destruct (Z.le_gt_cases (Z.min nframes ECHANTILLONS) (Z.of_nat (length buffer)))
    as [Hok|Hshort].
  - split.
    + split; [done|]. intros _. rewrite ingest_prefix by done. by eexists.
    + rewrite !ingest_prefix; [|done|done| |done|done|done].
      * destruct (Z.ltb_spec ECHANTILLONS nframes).
        -- rewrite take_take. do 2 f_equal. lia.
        -- rewrite take_take. do 3 f_equal. lia.
      * rewrite length_take. lia.
  - split.
    + rewrite ingest_short by (done || lia). split; [intros [? ?]; done|lia].
    + rewrite !ingest_short; [done|done|done| |done|done|lia].
      rewrite length_take. lia.
Qed.

Lemma ingest_defined_iff_witness :
  (is_Some (ingest zero_window 5000 (ramp 4096))
   ↔ Z.min 5000 ECHANTILLONS <= Z.of_nat (length (ramp 4096))) ∧
  ingest zero_window 5000 (ramp 4096)
  = ingest zero_window 5000
      (take (Z.to_nat (Z.min 5000 ECHANTILLONS)) (ramp 4096)).
Proof.
  apply ingest_defined_iff; [apply length_zero_window|lia].
Defined.

(** ** The window as the tail of the stream *)

Lemma last_frames_app {A : Type} (n : nat) (l m : list A) :
  (n ≤ length l)%nat →
  last_frames n (last_frames n l ++ m) = last_frames n (l ++ m).
Proof.
  intros Hn. unfold last_frames.
  rewrite !length_app, length_drop.
  destruct (decide (length m ≤ n)%nat) as [Hm|Hm].
  - rewrite !drop_app_le by (rewrite ?length_drop; lia).
    rewrite drop_drop. do 2 f_equal. lia.
  - rewrite !drop_app_ge by (rewrite ?length_drop; lia).
    rewrite length_drop. f_equal. lia.
Qed.

Lemma length_last_frames {A : Type} (n : nat) (l : list A) :
  (n ≤ length l)%nat → length (last_frames n l) = n.
Proof. intros Hn. unfold last_frames. rewrite length_drop. lia. Qed.

(** One block of at most [ECHANTILLONS] frames: the new window is the last
    [ECHANTILLONS] entries of the old window followed by the block. *)
Lemma ingest_last_frames samples buffer :
  Z.of_nat (length samples) = ECHANTILLONS →
  Z.of_nat (length buffer) <= ECHANTILLONS →
  ingest samples (Z.of_nat (length buffer)) buffer
  = Some (last_frames (Z.to_nat ECHANTILLONS) (samples ++ buffer)).
Proof.
  intros Hs Hb. rewrite ingest_le by done. f_equal.
  unfold last_frames. rewrite length_app, Nat2Z.id.
  replace (length samples + length buffer - Z.to_nat ECHANTILLONS)%nat
    with (length buffer) by lia.
  rewrite drop_app_le by lia. done.
Qed.

(** X2. After any number of callbacks, each delivering at most
    [ECHANTILLONS] frames, the window holds the last [ECHANTILLONS] samples
    of the stream: the initial window followed by all the blocks, in
    order. *)
Theorem ingest_all_stream samples blocks :
  Z.of_nat (length samples) = ECHANTILLONS →
  Forall (λ b, Z.of_nat (length b) <= ECHANTILLONS) blocks →
  ingest_all samples blocks
  = Some (last_frames (Z.to_nat ECHANTILLONS) (samples ++ concat blocks)).
Proof.
  intros Hs Hall. unfold ingest_all. revert samples Hs.
  induction Hall as [|b bs Hb _ IH]; intros samples Hs.
  - cbn [foldl concat]. rewrite app_nil_r. f_equal.
    unfold last_frames. replace (length samples - Z.to_nat ECHANTILLONS)%nat
      with O by lia. done.
  - cbn [foldl concat].
    rewrite bind_Some_l, ingest_last_frames by done.
    rewrite IH.
    + f_equal. rewrite last_frames_app, <- app_assoc; [done|].
      rewrite length_app. lia.
    + rewrite length_last_frames; [lia|]. rewrite length_app. lia.
Qed.

Lemma ingest_all_stream_witness :
  ingest_all zero_window [ramp 16; ramp 4096; []; ramp 3]
  = Some (last_frames (Z.to_nat ECHANTILLONS)
            (zero_window ++ concat [ramp 16; ramp 4096; []; ramp 3])).
Proof.
  apply ingest_all_stream; [apply length_zero_window|].
  repeat apply Forall_cons_2; try apply Forall_nil_2;
    rewrite ?length_ramp by lia; rewrite ECHANTILLONS_eq; cbn; lia.
Defined.

(** X3. Delivering a block in two callbacks gives the same window as
    delivering it in one, as long as the whole block has at most
    [ECHANTILLONS] frames. *)
Theorem ingest_split samples b1 b2 :
  Z.of_nat (length samples) = ECHANTILLONS →
  Z.of_nat (length b1 + length b2) <= ECHANTILLONS →
  (s1 ← ingest samples (Z.of_nat (length b1)) b1;
   ingest s1 (Z.of_nat (length b2)) b2)
  = ingest samples (Z.of_nat (length (b1 ++ b2))) (b1 ++ b2).
Proof.
  intros Hs Hb.
  rewrite (ingest_le samples _ b1), bind_Some_l by (done || lia).
  rewrite ingest_le; [|rewrite length_app, length_drop; lia|done|lia].
  rewrite (ingest_le samples _ (b1 ++ b2)); [|done|done|rewrite length_app; lia].
  f_equal. rewrite !Nat2Z.id, length_app.
  rewrite drop_app_le by (rewrite length_drop; lia).
  rewrite drop_drop, <- app_assoc. done.
Qed.

Lemma ingest_split_witness :
  (s1 ← ingest zero_window (Z.of_nat (length (ramp 16))) (ramp 16);
   ingest s1 (Z.of_nat (length (ramp 32))) (ramp 32))
  = ingest zero_window (Z.of_nat (length (ramp 16 ++ ramp 32)))
      (ramp 16 ++ ramp 32).
Proof.
  apply ingest_split; [apply length_zero_window|].
  rewrite Nat2Z.inj_add, !length_ramp by lia. rewrite ECHANTILLONS_eq. lia.
Defined.
(** ** When the analysis is defined *)

Lemma double_to_int_inv x v :
  double_to_int x = Some v → v = Ztrunc x ∧ INT_MIN <= Ztrunc x <= INT_MAX.
Proof.
  unfold double_to_int. cbv zeta.
  destruct (Z.leb_spec INT_MIN (Ztrunc x)); [|done].
  destruct (Z.leb_spec (Ztrunc x) INT_MAX); [|done].
  intros [= <-]. done.
Qed.

(** If the loop of lines 177-178 completes, every conversion it made was
    defined. *)
Lemma bins_loop_inv (out : list (R * R)) (h h' : list Z) :
  for_loop 0 FREQUENCES
    (λ i h0, c ← arr_get out i;
             v ← double_to_int (bin_value c i);
             arr_set h0 i (to_Sint16 v)) h = Some h' →
  ∀ i, 0 <= i < FREQUENCES →
    INT_MIN <= Ztrunc (bin_value (nth (Z.to_nat i) out (0, 0)%R) i) <= INT_MAX.
Proof.
  intros Hrun. unfold for_loop in Hrun.
  remember (Z.to_nat (FREQUENCES - 0)) as n eqn:Hn.
  set (P := λ (k : nat) (_ : list Z), ∀ i, 0 <= i < Z.of_nat k →
    INT_MIN <= Ztrunc (bin_value (nth (Z.to_nat i) out (0, 0)%R) i) <= INT_MAX).
  assert (HP : P n h').
  { eapply (for_range_post P); [| |exact Hrun].
    - intros i Hi. lia.
    - intros k h0 h1 Hk IH Hbody i Hi.
      destruct (decide (i < Z.of_nat k)) as [Hlt|Hge]; [apply IH; lia|].
      assert (i = Z.of_nat k) as -> by lia.
      rewrite Z.add_0_l in Hbody.
      apply bind_Some in Hbody as (c & Hc & Hbody).
      apply bind_Some in Hbody as (v & Hv & _).
      unfold arr_get in Hc. destruct (Z.leb_spec 0 (Z.of_nat k)); [|lia].
      rewrite (nth_lookup_Some _ _ _ _ Hc).
      by apply double_to_int_inv in Hv as [_ Hv]. }
  intros i Hi. apply HP. rewrite FREQUENCES_eq in *. lia.
Qed.

Lemma analyze_inv p st st' :
  wf_state st →
  _plan4fftw st = Some p →
  analyze p st = Some st' →
  representable (_samples st).
Proof.
  intros (Hs & Hh & Hplan) Hp Hrun.
  destruct (Hplan p Hp) as (Hpe & inp & out & Hin & Hout & Hlin & Hlout & Himag).
  unfold analyze in Hrun. rewrite Hin, Hout, !bind_Some_l in Hrun.
  rewrite <- Hs in Hrun at 1.
  rewrite stage_loop, bind_Some_l in Hrun by (done || lia).
  rewrite Hpe, fftw_execute_init, bind_Some_l in Hrun by done.
  apply bind_Some in Hrun as (h' & Hloop & _).
  unfold representable, scaled_magnitude.
  exact (bins_loop_inv _ _ _ Hloop).
Qed.



(** ** What the callback leaves alone *)

Lemma arr_set_length {A : Type} (a a' : list A) i v :
  arr_set a i v = Some a' → length a' = length a.
Proof.
  unfold arr_set. destruct (_ && _); [|done].
  intros [= <-]. apply length_insert.
Qed.

(** A loop whose iterations keep the length of an array keeps it. *)
Lemma for_loop_length {A : Type} (body : Z → list A → option (list A))
    a b (s s' : list A) :
  (∀ i s0 s1, body i s0 = Some s1 → length s1 = length s0) →
  for_loop a b body s = Some s' → length s' = length s.
Proof.
  intros Hbody Hrun. unfold for_loop in Hrun.
  eapply (for_range_post (λ _ s0, length s0 = length s)); [done| |exact Hrun].
  intros k s0 s1 _ Hlen Hb. cbv beta. rewrite <- Hlen. by apply Hbody in Hb.
Qed.

Lemma ingest_length_any samples nframes buffer s' :
  ingest samples nframes buffer = Some s' → length s' = length samples.
Proof.
  assert (Hcopy : ∀ (src : list R) off i (s0 s1 : list R),
            (v ← arr_get src i; arr_set s0 (i + off) v) = Some s1 →
            length s1 = length s0).
  { intros src off i s0 s1 Hb. apply bind_Some in Hb as (v & _ & Hset).
    by apply arr_set_length in Hset. }
  unfold ingest. destruct (ECHANTILLONS <? nframes).
  - apply for_loop_length. intros i s0 s1 Hb.
    apply (Hcopy buffer 0 i). by rewrite Z.add_0_r.
  - intros Hrun. apply bind_Some in Hrun as (s1 & Hshift & Hrun).
    cbv zeta in Hrun.
    apply for_loop_length in Hrun; [|intros i s0 s2; apply Hcopy].
    apply for_loop_length in Hshift; [congruence|].
    intros i s0 s2 Hb. apply bind_Some in Hb as (v & _ & Hset).
    by apply arr_set_length in Hset.
Qed.

Lemma analyze_frame p st st' :
  analyze p st = Some st' →
  _samples st' = _samples st ∧
  waveform st' = waveform st ∧
  _plan4fftw st' = _plan4fftw st ∧
  length (_hauteurs st') = length (_hauteurs st).
Proof.
  unfold analyze. intros Hrun.
  apply bind_Some in Hrun as (inp & _ & Hrun).
  apply bind_Some in Hrun as (out & _ & Hrun).
  apply bind_Some in Hrun as (inp' & _ & Hrun).
  apply bind_Some in Hrun as (out' & _ & Hrun).
  apply bind_Some in Hrun as (h' & Hloop & Hrun).
  apply (inj Some) in Hrun as <-. cbn [_samples waveform _plan4fftw _hauteurs].
  repeat split.
  apply for_loop_length in Hloop; [done|].
  intros i s0 s1 Hb.
  apply bind_Some in Hb as (c & _ & Hb).
  apply bind_Some in Hb as (v & _ & Hset).
  by apply arr_set_length in Hset.
Qed.

(** X5. Whatever the state, the frame count and the block, a callback that
    returns returns 0, leaves the display mode and the plan as they were,
    and resizes neither the sample buffer nor the bins. *)
Theorem mixCallback_frame st nframes buffer st' r :
  mixCallback st nframes buffer = Some (st', r) →
  r = 0 ∧
  waveform st' = waveform st ∧
  _plan4fftw st' = _plan4fftw st ∧
  length (_samples st') = length (_samples st) ∧
  length (_hauteurs st') = length (_hauteurs st).
Proof.
  unfold mixCallback. destruct (_plan4fftw st) as [p|] eqn:Hp.
  - intros Hrun.
    apply bind_Some in Hrun as (s' & Hing & Hrun).
    apply bind_Some in Hrun as (st1 & Han & Hrun).
    apply (inj Some) in Hrun. injection Hrun as <- <-.
    apply ingest_length_any in Hing.
    apply analyze_frame in Han as (Hs & Hw & Hpl & Hh).
    rewrite Hs, Hw, Hpl, Hh. cbn [with_samples _samples waveform
                                   _plan4fftw _hauteurs].
    by rewrite Hp.
  - intros Hrun. apply (inj Some) in Hrun. injection Hrun as <- <-.
    by rewrite Hp.
Qed.

Lemma mixCallback_frame_witness :
  0 = 0 ∧
  waveform loud_result = waveform ready_state ∧
  _plan4fftw loud_result = _plan4fftw ready_state ∧
  length (_samples loud_result) = length (_samples ready_state) ∧
  length (_hauteurs loud_result) = length (_hauteurs ready_state).
Proof.
  apply (mixCallback_frame ready_state 4096 loud_window loud_result 0).
  apply mixCallback_loud.
Defined.

(** ** Successful callbacks *)

Lemma mixCallback_inv st nframes buffer p st' r :
  wf_state st →
  valid_block nframes buffer →
  _plan4fftw st = Some p →
  mixCallback st nframes buffer = Some (st', r) →
  ∃ s', ingest (_samples st) nframes buffer = Some s' ∧
        Z.of_nat (length s') = ECHANTILLONS ∧
        representable s' ∧
        r = 0 ∧
        st' = {| _samples := s';
                 _hauteurs := expected_bins s';
                 waveform := waveform st;
                 _in4fftw := Some (window_input s');
                 _out4fftw := Some (spectrum s');
                 _plan4fftw := Some p |}.
Proof.
  intros Hwf Hblock Hp Hrun.
  destruct (ingest_defined (_samples st) nframes buffer)
    as (s' & Hing & Hlen & _); [apply Hwf|apply Hblock|].
  exists s'. split; [done|]. split; [done|].
  assert (Hrep : representable s').
  { unfold mixCallback in Hrun. rewrite Hp, Hing, bind_Some_l in Hrun.
    apply bind_Some in Hrun as (st1 & Han & _).
    apply (analyze_inv p (with_samples s' st) st1); [|done|done].
    by apply wf_with_samples. }
  split; [done|].
  rewrite (mixCallback_spec st nframes buffer p s') in Hrun by done.
  apply (inj Some) in Hrun. by injection Hrun as <- <-.
Qed.

(** X6. A callback that returns leaves a well-formed state well formed: the
    sample buffer keeps [ECHANTILLONS] entries, the bins [FREQUENCES], and
    the imaginary parts of the transform input stay zero. *)
Theorem mixCallback_preserves_wf st nframes buffer st' r :
  wf_state st →
  valid_block nframes buffer →
  mixCallback st nframes buffer = Some (st', r) →
  wf_state st'.
Proof.
  intros Hwf Hblock Hrun.
  destruct (_plan4fftw st) as [p|] eqn:Hp.
  - destruct (mixCallback_inv st nframes buffer p st' r Hwf Hblock Hp Hrun)
      as (s' & Hing & Hlen & Hrep & _ & _).
    by apply (wf_mixCallback st nframes buffer s' st' r).
  - unfold mixCallback in Hrun. rewrite Hp in Hrun.
    apply (inj Some) in Hrun. by injection Hrun as <- _.
Qed.

Lemma wf_loud_result : wf_state loud_result.
Proof.
  apply (wf_mixCallback ready_state 4096 loud_window loud_window loud_result 0).
  - apply wf_ready_state.
  - split; [unfold JACK_NFRAMES_MAX; lia|apply length_constant_window].
  - change (_samples ready_state) with zero_window.
    rewrite ingest_le;
      [|apply length_zero_window|apply length_constant_window
       |rewrite ECHANTILLONS_eq; lia].
    rewrite drop_ge; [reflexivity|].
    pose proof length_zero_window as Hlen. rewrite ECHANTILLONS_eq in Hlen. lia.
  - apply representable_loud.
  - apply mixCallback_loud.
Qed.

Lemma mixCallback_preserves_wf_witness : wf_state loud_result.
Proof.
  apply (mixCallback_preserves_wf ready_state 4096 loud_window _ 0).
  - apply wf_ready_state.
  - split; [unfold JACK_NFRAMES_MAX; lia|apply length_constant_window].
  - apply mixCallback_loud.
Defined.

(** X7. A callback that delivers no frame, right after a callback that
    returned, changes nothing: the analysis of an unchanged window
    reproduces the bins and the transform arrays. *)
Theorem mixCallback_no_frame_fixpoint st nframes buffer st' r :
  wf_state st →
  valid_block nframes buffer →
  mixCallback st nframes buffer = Some (st', r) →
  mixCallback st' 0 [] = Some (st', 0).
Proof.
  intros Hwf Hblock Hrun.
  destruct (_plan4fftw st) as [p|] eqn:Hp.
  - destruct (mixCallback_inv st nframes buffer p st' r Hwf Hblock Hp Hrun)
      as (s' & Hing & Hlen & Hrep & _ & Hst').
    pose proof (wf_mixCallback _ _ _ _ _ _ Hwf Hblock Hing Hrep Hrun) as Hwf'.
    subst st'.
    rewrite (mixCallback_spec _ 0 [] p s'); try done.
    cbn [_samples]. rewrite ingest_le; [|done|done|rewrite ECHANTILLONS_eq; lia].
    cbn [Z.to_nat drop]. by rewrite app_nil_r.
  - unfold mixCallback in Hrun. rewrite Hp in Hrun.
    apply (inj Some) in Hrun. injection Hrun as <- _.
    unfold mixCallback. by rewrite Hp.
Qed.

Lemma mixCallback_no_frame_fixpoint_witness :
  mixCallback loud_result 0 [] = Some (loud_result, 0).
Proof.
  apply (mixCallback_no_frame_fixpoint ready_state 4096 loud_window _ 0).
  - apply wf_ready_state.
  - split; [unfold JACK_NFRAMES_MAX; lia|apply length_constant_window].
  - apply mixCallback_loud.
Defined.

(** ** What the bins do and do not depend on *)

Lemma csum_from_opp n sign k j (window : list R) :
  csum_from (dft_term n sign k) j (window_input (Ropp <$> window))
  = ((- (csum_from (dft_term n sign k) j (window_input window)).1)%R,
     (- (csum_from (dft_term n sign k) j (window_input window)).2)%R).
Proof.
  revert j. induction window as [|x window IH]; intros j.
  - cbn. f_equal; ring.
  - change (window_input (Ropp <$> x :: window))
      with (((- x)%R, 0%R) :: window_input (Ropp <$> window)).
    change (window_input (x :: window)) with ((x, 0%R) :: window_input window).
    cbn [csum_from]. rewrite IH. unfold cadd, dft_term. cbn [fst snd].
    f_equal; ring.
Qed.

Lemma scaled_magnitude_opp window i :
  0 <= i < ECHANTILLONS →
  scaled_magnitude (Ropp <$> window) i = scaled_magnitude window i.
Proof.
  intros Hi. rewrite !scaled_magnitude_eq by done.
  rewrite csum_from_opp. unfold bin_value. cbn [fst snd].
  do 2 f_equal. ring.
Qed.

Lemma representable_opp window :
  representable window → representable (Ropp <$> window).
Proof.
  intros Hrep i Hi. rewrite scaled_magnitude_opp; [by apply Hrep|].
  rewrite FREQUENCES_eq in Hi. rewrite ECHANTILLONS_eq. lia.
Qed.

Lemma expected_bins_opp window :
  expected_bins (Ropp <$> window) = expected_bins window.
Proof.
  unfold expected_bins. apply list_fmap_ext.
  intros k i Hi%lookup_seqZ. rewrite scaled_magnitude_opp; [done|].
  rewrite FREQUENCES_eq in Hi. rewrite ECHANTILLONS_eq. lia.
Qed.

(** X9. The bins do not depend on the polarity of the signal: the analysis
    of the negated window stores the same bins. *)
Theorem analyze_polarity p st :
  wf_state st →
  _plan4fftw st = Some p →
  representable (_samples st) →
  ∃ st1 st2,
    analyze p st = Some st1 ∧
    analyze p (with_samples (Ropp <$> _samples st) st) = Some st2 ∧
    _hauteurs st2 = _hauteurs st1.
Proof.
  intros Hwf Hp Hrep.
  rewrite (analyze_spec p st) by done.
  rewrite (analyze_spec p (with_samples _ st)).
  - eexists _, _. split; [reflexivity|]. split; [reflexivity|].
    cbn [_hauteurs with_samples _samples]. apply expected_bins_opp.
  - apply wf_with_samples; [|done]. rewrite length_fmap. apply Hwf.
  - exact Hp.
  - cbn [with_samples _samples]. by apply representable_opp.
Qed.

Lemma analyze_polarity_witness :
  ∃ st1 st2,
    analyze init_plan loud_state = Some st1 ∧
    analyze init_plan (with_samples (Ropp <$> _samples loud_state) loud_state)
    = Some st2 ∧
    _hauteurs st2 = _hauteurs st1.
Proof.
  apply analyze_polarity;
    [apply wf_loud_state|reflexivity|apply representable_loud].
Defined.

(** ** What the renderer plots *)

(** The plotting loop, read backwards: the pixels of a completed loop are
    the results of its iterations, in order. *)
Lemma collect_loop_inv {P : Type} (f : Z → option P) (n : Z) (px : list P) :
  for_loop 0 n (λ i acc, p ← f i; Some (acc ++ [p])) [] = Some px →
  length px = Z.to_nat n ∧
  ∀ (k : nat) p, px !! k = Some p → f (Z.of_nat k) = Some p.
Proof.
  unfold for_loop. rewrite Z.sub_0_r. generalize (Z.to_nat n). clear n.
  intros n Hrun.
  set (Q := λ (k : nat) (acc : list P),
         length acc = k ∧ ∀ (j : nat) p, acc !! j = Some p → f (Z.of_nat j) = Some p).
  assert (HQ : Q n px); [|exact HQ].
  eapply (for_range_post Q); [| |exact Hrun].
  - split; [done|]. intros j p Hj. done.
  - intros k acc acc' Hk [Hlen Hacc] Hbody. rewrite Z.add_0_l in Hbody.
    apply bind_Some in Hbody as (p & Hp & Hbody).
    apply (inj Some) in Hbody as <-. split.
    + rewrite length_app, Hlen. cbn. lia.
    + intros j q Hj. destruct (decide (j < k)%nat) as [Hlt|Hge].
      * rewrite lookup_app_l in Hj by lia. by apply Hacc.
      * rewrite lookup_app_r in Hj by lia.
        destruct (j - length acc)%nat as [|m] eqn:Hm; [|done].
        cbn in Hj. injection Hj as <-.
        rewrite <- Hp. do 2 f_equal. lia.
Qed.

Lemma column_bounds i width_index :
  0 < width_index → 0 <= i <= width_index →
  0 <= column i width_index <= _wW - 1.
Proof.
  intros Hw Hi. unfold column, _wW.
  rewrite Z.quot_div_nonneg by lia. split.
  - apply Z.div_pos; lia.
  - apply Z.div_le_upper_bound; nia.
Qed.

Lemma column_last width_index :
  0 < width_index → column width_index width_index = _wW - 1.
Proof.
  intros Hw. unfold column. rewrite Z.mul_comm.
  rewrite Z.quot_mul; lia.
Qed.

Lemma waveform_pixel_inv st i p :
  waveform_pixel st i = Some p →
  p.1 = column i (ECHANTILLONS - 1) ∧ 0 <= p.2 <= _wH.
Proof.
  unfold waveform_pixel. intros Hp.
  apply bind_Some in Hp as (s & _ & Hp). cbv zeta in Hp.
  apply bind_Some in Hp as (y0 & _ & Hp).
  apply (inj Some) in Hp as <-. cbn [fst snd].
  split; [done|apply clamp_y_range].
Qed.

Lemma spectrum_pixel_inv st i p :
  spectrum_pixel st i = Some p →
  p.1 = column i (FREQUENCES - 1) ∧ 0 <= p.2 <= _wH.
Proof.
  unfold spectrum_pixel. intros Hp.
  apply bind_Some in Hp as (h & _ & Hp). cbv zeta in Hp.
  apply (inj Some) in Hp as <-. cbn [fst snd].
  split; [done|apply clamp_y_range].
Qed.

(** X10. Whatever the state, when [draw] completes it has plotted
    [ECHANTILLONS] pixels in waveform mode and [FREQUENCES] otherwise, every
    one in a column of [0 .. _wW - 1] and a row of [0 .. _wH]. *)
Theorem draw_pixel_bounds st px :
  draw st = Some px →
  Z.of_nat (length px)
  = (if waveform st =? 1 then ECHANTILLONS else FREQUENCES) ∧
  Forall (λ p : Z * Z, 0 <= p.1 <= _wW - 1 ∧ 0 <= p.2 <= _wH) px.
Proof.
  unfold draw. destruct (waveform st =? 1).
  - intros [Hlen Hpx]%collect_loop_inv. split.
    + rewrite Hlen, ECHANTILLONS_eq. lia.
    + apply Forall_lookup. intros k p Hk.
      pose proof (lookup_lt_Some _ _ _ Hk) as Hlt.
      apply Hpx, waveform_pixel_inv in Hk as [-> Hy]. split; [|done].
      apply column_bounds; rewrite ECHANTILLONS_eq in *; lia.
  - intros [Hlen Hpx]%collect_loop_inv. split.
    + rewrite Hlen, FREQUENCES_eq. lia.
    + apply Forall_lookup. intros k p Hk.
      pose proof (lookup_lt_Some _ _ _ Hk) as Hlt.
      apply Hpx, spectrum_pixel_inv in Hk as [-> Hy]. split; [|done].
      apply column_bounds; rewrite FREQUENCES_eq in *; lia.
Qed.

Lemma clamp_y_id y0 : 0 <= y0 <= _wH → clamp_y y0 = y0.
Proof.
  intros Hy. unfold clamp_y.
  destruct (Z.ltb_spec _wH y0); [lia|]. cbv zeta.
  destruct (Z.ltb_spec y0 0); [lia|done].
Qed.

(** In spectrum mode nothing can go wrong. *)
Lemma draw_spectrum_spec st :
  wf_state st →
  waveform st ≠ 1 →
  draw st
  = Some ((λ i, (column i (FREQUENCES - 1),
                 clamp_y (nth (Z.to_nat i) (_hauteurs st) 0)))
          <$> seqZ 0 FREQUENCES).
Proof.
  intros (_ & Hh & _) Hw. unfold draw.
  destruct (Z.eqb_spec (waveform st) 1); [done|].
  rewrite <- (Z2Nat.id FREQUENCES) at 1 2 by (rewrite FREQUENCES_eq; lia).
  apply (collect_loop (spectrum_pixel st)).
  intros k Hk. unfold spectrum_pixel.
  destruct (arr_get_Some (_hauteurs st) (Z.of_nat k)) as (h & -> & Hl);
    [rewrite FREQUENCES_eq in *; lia|].
  rewrite bind_Some_l. cbv zeta.
  by rewrite (nth_lookup_Some _ _ _ _ Hl).
Qed.

(** X11. In spectrum mode [draw] is defined on every well-formed state: it
    plots [FREQUENCES] pixels, pixel [i] in column [i * (_wW - 1) /
    (FREQUENCES - 1)] at the clamped height of bin [i], the first in column
    0 and the last in column [_wW - 1]. *)
Theorem draw_spectrum_total st :
  wf_state st →
  waveform st ≠ 1 →
  ∃ px, draw st = Some px ∧
    Z.of_nat (length px) = FREQUENCES ∧
    (∀ (i : nat) h, _hauteurs st !! i = Some h →
       px !! i = Some ((Z.of_nat i * (_wW - 1)) ÷ (FREQUENCES - 1), clamp_y h)) ∧
    (∃ y, px !! O = Some (0, y)) ∧
    (∃ y, px !! Z.to_nat (FREQUENCES - 1) = Some (_wW - 1, y)).
Proof.
  intros Hwf Hw. rewrite draw_spectrum_spec by done.
  eexists. split; [reflexivity|].
  assert (Hlook : ∀ i : nat, Z.of_nat i < FREQUENCES →
    ((λ i, (column i (FREQUENCES - 1),
            clamp_y (nth (Z.to_nat i) (_hauteurs st) 0)))
     <$> seqZ 0 FREQUENCES) !! i
    = Some (column (Z.of_nat i) (FREQUENCES - 1),
            clamp_y (nth i (_hauteurs st) 0))).
  { intros i Hi. rewrite list_lookup_fmap, lookup_seqZ_lt by done.
    cbn [fmap option_fmap option_map]. by rewrite Z.add_0_l, Nat2Z.id. }
  split; [rewrite length_fmap, length_seqZ, FREQUENCES_eq; lia|].
  split; [|split].
  - intros i h Hi. pose proof (lookup_lt_Some _ _ _ Hi) as Hlt.
    destruct Hwf as (_ & Hh & _).
    rewrite Hlook by lia. by rewrite (nth_lookup_Some _ _ _ _ Hi).
  - rewrite Hlook by (rewrite FREQUENCES_eq; lia). by eexists.
  - rewrite Hlook by (rewrite FREQUENCES_eq; lia).
    rewrite Z2Nat.id by (rewrite FREQUENCES_eq; lia).
    rewrite column_last by (rewrite FREQUENCES_eq; lia). by eexists.
Qed.

Lemma draw_spectrum_total_witness :
  ∃ px, draw loud_result = Some px ∧
    Z.of_nat (length px) = FREQUENCES ∧
    (∀ (i : nat) h, _hauteurs loud_result !! i = Some h →
       px !! i = Some ((Z.of_nat i * (_wW - 1)) ÷ (FREQUENCES - 1), clamp_y h)) ∧
    (∃ y, px !! O = Some (0, y)) ∧
    (∃ y, px !! Z.to_nat (FREQUENCES - 1) = Some (_wW - 1, y)).
Proof.
  apply draw_spectrum_total; [apply wf_loud_result|cbn; lia].
Defined.

Lemma draw_pixel_bounds_witness :
  Z.of_nat (length ((λ i, (column i (FREQUENCES - 1),
                           clamp_y (nth (Z.to_nat i) (_hauteurs ready_state) 0)))
                    <$> seqZ 0 FREQUENCES))
  = (if waveform ready_state =? 1 then ECHANTILLONS else FREQUENCES) ∧
  Forall (λ p : Z * Z, 0 <= p.1 <= _wW - 1 ∧ 0 <= p.2 <= _wH)
    ((λ i, (column i (FREQUENCES - 1),
            clamp_y (nth (Z.to_nat i) (_hauteurs ready_state) 0)))
     <$> seqZ 0 FREQUENCES).
Proof.
  apply (draw_pixel_bounds ready_state).
  apply draw_spectrum_spec; [apply wf_ready_state|cbn; lia].
Defined.

(** The row of a normalised sample. *)
(** ** The keyboard *)

Section KeysFacts.
Variables GL4DK_LEFT GL4DK_RIGHT : Z.
Hypothesis distinct_keys : GL4DK_LEFT ≠ GL4DK_RIGHT.

Local Abbreviation keydown := (keydown GL4DK_LEFT GL4DK_RIGHT).
Local Abbreviation press_all := (press_all GL4DK_LEFT GL4DK_RIGHT).

Lemma keydown_left st : keydown GL4DK_LEFT st = with_waveform 0 st.
Proof. unfold keydown. by rewrite Z.eqb_refl. Qed.

Lemma keydown_right st : keydown GL4DK_RIGHT st = with_waveform 1 st.
Proof.
  unfold keydown. rewrite Z.eqb_refl.
  destruct (Z.eqb_spec GL4DK_RIGHT GL4DK_LEFT); [congruence|done].
Qed.

Lemma keydown_cases k st :
  keydown k st = st ∨ keydown k st = with_waveform 0 st
  ∨ keydown k st = with_waveform 1 st.
Proof.
  unfold keydown. destruct (k =? GL4DK_LEFT); [by auto|].
  destruct (k =? GL4DK_RIGHT); auto.
Qed.

(** Key presses touch the display mode only. *)
Lemma press_all_frame keys st :
  ∃ w, press_all keys st = with_waveform w st.
Proof.
  unfold press_all. revert st.
  induction keys as [|k keys IH]; intros st; cbn [foldl].
  - exists (waveform st). by destruct st.
  - destruct (IH (keydown k st)) as [w ->].
    exists w. by destruct (keydown_cases k st) as [->| [->| ->]].
Qed.

(** Keys that are not arrows change nothing. *)
Lemma press_all_other_keys keys st :
  Forall (λ k, k ≠ GL4DK_LEFT ∧ k ≠ GL4DK_RIGHT) keys →
  press_all keys st = st.
Proof.
  unfold press_all. intros Hkeys. revert st.
  induction Hkeys as [|k keys [Hl Hr] _ IH]; intros st; cbn [foldl]; [done|].
  rewrite IH. unfold keydown.
  destruct (Z.eqb_spec k GL4DK_LEFT); [done|].
  destruct (Z.eqb_spec k GL4DK_RIGHT); done.
Qed.

(** X13. The display mode is decided by the last arrow key pressed, whatever
    was pressed before it and whichever other keys follow: the state is then
    the initial one with [waveform] 0 after the left arrow and 1 after the
    right arrow.  Without an arrow key nothing changes.  Samples, bins and
    transform data are never touched. *)
Theorem press_all_last_arrow keys others st :
  Forall (λ k, k ≠ GL4DK_LEFT ∧ k ≠ GL4DK_RIGHT) others →
  press_all (keys ++ [GL4DK_LEFT] ++ others) st = with_waveform 0 st ∧
  press_all (keys ++ [GL4DK_RIGHT] ++ others) st = with_waveform 1 st ∧
  press_all others st = st.
Proof.
  intros Hothers.
  assert (Hsplit : ∀ k1 k2 s, press_all (k1 ++ k2) s
                              = press_all k2 (press_all k1 s))
    by (intros; unfold press_all; apply foldl_app).
  destruct (press_all_frame keys st) as [w Hw].
  split; [|split].
  - rewrite !Hsplit, (press_all_other_keys others), Hw by done.
    unfold press_all. cbn [foldl]. by rewrite keydown_left.
  - rewrite !Hsplit, (press_all_other_keys others), Hw by done.
    unfold press_all. cbn [foldl]. by rewrite keydown_right.
  - by apply press_all_other_keys.
Qed.

Lemma wf_with_waveform w st : wf_state st → wf_state (with_waveform w st).
Proof. intros (Hs & Hh & Hplan). split; [exact Hs|]. split; assumption. Qed.

(** X14. The arrows choose what [draw] plots.  On a well-formed state, after
    the left arrow [draw] is defined and plots the [FREQUENCES] bins; after
    the right arrow, whenever [draw] completes it has plotted the
    [ECHANTILLONS] samples. *)
Theorem keydown_selects_plot st :
  wf_state st →
  (∃ px, draw (keydown GL4DK_LEFT st) = Some px ∧
         Z.of_nat (length px) = FREQUENCES) ∧
  (∀ px, draw (keydown GL4DK_RIGHT st) = Some px →
         Z.of_nat (length px) = ECHANTILLONS).
Proof.
  intros Hwf. split.
  - rewrite keydown_left, draw_spectrum_spec;
      [|by apply wf_with_waveform|cbn; lia].
    eexists. split; [reflexivity|].
    rewrite length_fmap, length_seqZ, FREQUENCES_eq. lia.
  - intros px. rewrite keydown_right. unfold draw.
    cbn [with_waveform waveform Z.eqb Pos.eqb].
    intros [Hlen _]%collect_loop_inv. rewrite Hlen, ECHANTILLONS_eq. lia.
Qed.
End KeysFacts.

Lemma press_all_last_arrow_witness :
  press_all 1073741904 1073741903
    ([32; 1073741903] ++ [1073741904] ++ [27; 32]) loud_result
  = with_waveform 0 loud_result ∧
  press_all 1073741904 1073741903
    ([32; 1073741903] ++ [1073741903] ++ [27; 32]) loud_result
  = with_waveform 1 loud_result ∧
  press_all 1073741904 1073741903 [27; 32] loud_result = loud_result.
Proof.
  apply press_all_last_arrow; [lia|].
  repeat constructor; lia.
Defined.

Lemma keydown_selects_plot_witness :
  (∃ px, draw (keydown 1073741904 1073741903 1073741904 loud_result) = Some px ∧
         Z.of_nat (length px) = FREQUENCES) ∧
  (∀ px, draw (keydown 1073741904 1073741903 1073741903 loud_result) = Some px →
         Z.of_nat (length px) = ECHANTILLONS).
Proof. apply keydown_selects_plot; [lia|apply wf_loud_result]. Defined.

(** ** Start-up *)

(** Membership of a call in a literal list of calls. *)
Ltac trace_notin :=
  cbn [app]; rewrite ?not_elem_of_app, ?not_elem_of_cons;
  repeat split; (discriminate || apply not_elem_of_nil).

Ltac trace_in :=
  cbn [app]; rewrite ?elem_of_app, ?elem_of_cons; auto 12.

Ltac no_release := cbn [app]; repeat constructor.

(** Splits a conjunction of equivalences on the outcome of a run and
    settles each direction from the hypotheses. *)
Ltac status_cases :=
  repeat match goal with
         | |- _ ∧ _ => split
         | |- _ ↔ _ => split
         end;
  intros; unfold fftw_ok in *;
  first [ done | lia | tauto | intuition (congruence || lia) ].

Section JackFacts.
Variable JackFailure : Z.
Variable JACK_DEFAULT_AUDIO_TYPE : string.

Local Abbreviation initJack := (initJack JackFailure JACK_DEFAULT_AUDIO_TYPE).
Local Abbreviation init_process :=
  (init_process JackFailure JACK_DEFAULT_AUDIO_TYPE).
Local Abbreviation main := (main JackFailure JACK_DEFAULT_AUDIO_TYPE).

(** The five ways through [initJack]. *)
Lemma initJack_cases clientname w ps :
  let '(ps', t, rc) := initJack clientname w ps in
  core ps' = core ps ∧ _screen ps' = _screen ps ∧ _client ps' = open_client w ∧
  Forall (λ c, is_release c = false) t ∧
  (call_atexit_quit ∉ t) ∧
  ((rc = 0 ∧ jack_ok JackFailure w ∧ (call_jack_activate ∈ t)) ∨
   (rc = -1 ∧ open_status w = JackFailure ∧ (call_jack_port_register ∉ t)
    ∧ (call_jack_activate ∉ t)) ∨
   (rc = -1 ∧ open_status w ≠ JackFailure ∧ open_client w = None
    ∧ (call_jack_port_register ∉ t) ∧ (call_jack_activate ∉ t)) ∨
   (rc = -1 ∧ open_status w ≠ JackFailure ∧ is_Some (open_client w)
    ∧ register_ok w = false ∧ (call_jack_set_process_callback ∉ t)
    ∧ (call_jack_activate ∉ t)) ∨
   (rc = 1 ∧ open_status w ≠ JackFailure ∧ is_Some (open_client w)
    ∧ register_ok w = true ∧ set_callback_rc w ≠ 0
    ∧ (call_jack_activate ∉ t)) ∨
   (rc = 1 ∧ open_status w ≠ JackFailure ∧ is_Some (open_client w)
    ∧ register_ok w = true ∧ set_callback_rc w = 0 ∧ activate_rc w ≠ 0
    ∧ (call_jack_activate ∈ t))).
Proof.
  unfold initJack. cbv zeta.
  destruct (Z.eqb_spec (open_status w) JackFailure) as [Hst|Hst].
  { repeat split; cbn [core _screen _client]; [no_release|trace_notin|].
    right; left. repeat split; [done|trace_notin..]. }
  destruct (open_client w) as [name|] eqn:Hcl;
    [rewrite bool_decide_eq_true_2 by (by eexists)
    |rewrite bool_decide_eq_false_2 by (by intros [? ?])]; cbn [negb].
  2:{ repeat split; cbn [core _screen _client]; [no_release|trace_notin|].
      right; right; left. repeat split; [done|trace_notin..]. }
  destruct (register_ok w) eqn:Hreg; cbn [negb].
  2:{ repeat split; cbn [core _screen _client]; [no_release|trace_notin|].
      do 3 right; left. repeat split; [done|by eexists|trace_notin..]. }
  destruct (Z.eqb_spec (set_callback_rc w) 0) as [Hcb|Hcb]; cbn [negb].
  2:{ repeat split; cbn [core _screen _client]; [no_release|trace_notin|].
      do 4 right; left. repeat split; [done|by eexists|done|trace_notin]. }
  destruct (Z.eqb_spec (activate_rc w) 0) as [Hact|Hact].
  - repeat split; cbn [core _screen _client]; [no_release|trace_notin|].
    left. split; [done|]. split; [|trace_in].
    repeat split; (done || by eexists).
  - repeat split; cbn [core _screen _client]; [no_release|trace_notin|].
    do 5 right. repeat split; first [done|by eexists|trace_in].
Qed.

(** X15. [initJack] returns 0 exactly when the server answered without
    [JackFailure], the client and the port are non-null and both
    registrations returned 0; otherwise it returns -1 or 1.  The port is
    registered only on a live client, [jack_activate] is called only once
    the callback is registered, and nothing but [_client] and [_input]
    changes. *)
Theorem initJack_result clientname w ps :
  let '(ps', t, rc) := initJack clientname w ps in
  (rc = 0 ↔ jack_ok JackFailure w) ∧
  (rc = -1 ∨ rc = 0 ∨ rc = 1) ∧
  ((call_jack_port_register ∈ t) →
   open_status w ≠ JackFailure ∧ is_Some (open_client w)) ∧
  ((call_jack_activate ∈ t) →
   register_ok w = true ∧ set_callback_rc w = 0) ∧
  core ps' = core ps ∧ _screen ps' = _screen ps.
Proof.
  pose proof (initJack_cases clientname w ps) as H.
  destruct (initJack clientname w ps) as [[ps' t] rc].
  destruct H as (Hcore & Hscr & _ & _ & _ & H).
  assert (Hbad : ∀ P : Prop, (jack_ok JackFailure w → False) → rc ≠ 0 →
            (rc = 0 ↔ jack_ok JackFailure w)) by (intros; split; tauto).
  split; [|split; [|split; [|split; [|done]]]].
  - destruct H as [H|[H|[H|[H|[H|H]]]]].
    + tauto.
    + apply (Hbad True); [intros (? & _); tauto|lia].
    + apply (Hbad True); [intros (_ & [? ?] & _); intuition congruence|lia].
    + apply (Hbad True); [intros (_ & _ & ? & _); intuition congruence|lia].
    + apply (Hbad True); [intros (_ & _ & _ & ? & _); tauto|lia].
    + apply (Hbad True); [intros (_ & _ & _ & _ & ?); tauto|lia].
  - destruct H as [H|[H|[H|[H|[H|H]]]]]; lia.
  - destruct H as [H|[H|[H|[H|[H|H]]]]]; unfold jack_ok in H; intros Hin;
      try tauto.
  - destruct H as [H|[H|[H|[H|[H|H]]]]]; unfold jack_ok in H; intros Hin;
      tauto.
Qed.

(** [init]: it is undefined when the first allocation fails, aborts when
    the second allocation or the plan fails, and otherwise sets up the
    transform data whatever JACK answers. *)
Lemma init_process_cases clientname w ps :
  match init_process clientname w ps with
  | None => malloc_in_ok w = false
  | Some (ps', t, out) =>
      malloc_in_ok w = true ∧
      Forall (λ c, is_release c = false) t ∧
      (call_atexit_quit ∉ t) ∧
      ((out = aborts ∧ (malloc_out_ok w = false ∨ make_plan_ok w = false) ∧
        (call_gl4dpInitScreen ∉ t)) ∨
       (fftw_ok w ∧
        core ps' = init (fresh_out w) (core ps) ∧
        _screen ps' = screen_id w ∧
        _client ps' = open_client w ∧
        (call_fftw_plan_dft_1d ∈ t) ∧
        ((out = running ∧ jack_ok JackFailure w) ∨
         (out = exits 1 ∧ ¬ jack_ok JackFailure w))))
  end.
Proof.
  unfold init_process. cbv zeta.
  destruct (malloc_in_ok w) eqn:Hin; cbn [negb]; [|done].
  destruct (malloc_out_ok w) eqn:Hout; cbn [negb].
  2:{ split; [done|]. split; [no_release|]. split; [trace_notin|].
      left. repeat split; [by left|trace_notin]. }
  destruct (make_plan_ok w) eqn:Hplan; cbn [negb].
  2:{ split; [done|]. split; [no_release|]. split; [trace_notin|].
      left. repeat split; [by right|trace_notin]. }
  pose proof (initJack_cases clientname w
    {| core := init (fresh_out w) (core ps); _client := _client ps;
       _input := _input ps; _screen := screen_id w |}) as H.
  destruct (initJack _ w _) as [[ps' t] rc].
  destruct H as (Hcore & Hscr & Hcl & Hrel & Hat & H).
  cbn [core _screen] in Hcore, Hscr.
  assert (Hpre : Forall (λ c, is_release c = false)
            ((([call_fftw_malloc array_in] ++ [call_fftw_malloc array_out])
              ++ [call_fftw_plan_dft_1d])
             ++ [call_glViewport; call_gl4dpInitScreen]))
    by (cbn [app]; repeat constructor).
  assert (Hpat : call_atexit_quit ∉
            ((([call_fftw_malloc array_in] ++ [call_fftw_malloc array_out])
              ++ [call_fftw_plan_dft_1d])
             ++ [call_glViewport; call_gl4dpInitScreen]))
    by trace_notin.
  assert (Hplanin : ∀ t', call_fftw_plan_dft_1d ∈
            ((([call_fftw_malloc array_in] ++ [call_fftw_malloc array_out])
              ++ [call_fftw_plan_dft_1d])
             ++ [call_glViewport; call_gl4dpInitScreen]) ++ t')
    by (intros t'; rewrite elem_of_app; left; trace_in).
  unfold jack_ok in *.
  destruct (Z.eqb_spec rc 0) as [->|Hrc].
  - split; [done|]. split; [by apply Forall_app|].
    split. { apply not_elem_of_app. split; [exact Hpat|exact Hat]. }
    right. split; [done|]. do 4 (split; [done|]).
    left. split; [done|]. intuition (congruence || lia).
  - split; [done|]. split.
    { apply Forall_app. split; [done|]. apply Forall_app. split; [done|].
      repeat constructor. }
    split.
    { apply not_elem_of_app. split; [exact Hpat|]. apply not_elem_of_app.
      split; [exact Hat|trace_notin]. }
    right. split; [done|]. do 4 (split; [done|]).
    right. split; [done|]. intros (H1 & [n Hn] & H3 & H4 & H5).
    intuition (congruence || lia).
Qed.

(** X16. Up to the main loop.  The run is undefined exactly when the window
    exists and the first [fftw_malloc] returns null (line 78 writes through
    the pointer before line 79 tests it).  Otherwise the process ends with
    status 2 exactly when [argc] is not 2, having done nothing but print the
    usage line; with status 1 exactly when [argc] is 2 and either the window
    cannot be created or the FFTW set-up succeeds and a step of the JACK
    set-up fails; it is aborted by an [assert] exactly when the window
    exists and the second [fftw_malloc] or the plan is null; and it enters
    the main loop exactly when all of that succeeds. *)
Theorem main_exit_status argc argv0 argv1 w :
  match main argc argv0 argv1 w with
  | None => argc = 2 ∧ create_window_ok w = true ∧ malloc_in_ok w = false
  | Some (ps, t, out) =>
      ¬ (argc = 2 ∧ create_window_ok w = true ∧ malloc_in_ok w = false) ∧
      (out = exits 2 ↔ argc ≠ 2) ∧
      (out = exits 1 ↔
       argc = 2 ∧ (create_window_ok w = false
                   ∨ (fftw_ok w ∧ ¬ jack_ok JackFailure w))) ∧
      (out = aborts ↔
       argc = 2 ∧ create_window_ok w = true ∧
       (malloc_out_ok w = false ∨ make_plan_ok w = false)) ∧
      (out = running ↔
       argc = 2 ∧ create_window_ok w = true ∧ fftw_ok w
       ∧ jack_ok JackFailure w) ∧
      (∀ c, out = exits c → c = 1 ∨ c = 2) ∧
      (argc ≠ 2 →
       ps = initial_process ∧
       t = [call_fprintf_stderr
              (String.concat EmptyString
                 ["usage: "%string; argv0; " <client_name>"%string; nl])])
  end.
Proof.
  unfold main.
  destruct (Z.eqb_spec argc 2) as [->|Hargc]; cbn [negb].
  2:{ status_cases. }
  destruct (create_window_ok w) eqn:Hwin; cbn [negb].
  2:{ status_cases. }
  pose proof (init_process_cases argv1 w initial_process) as H.
  destruct (init_process argv1 w initial_process) as [[[ps t] out]|];
    cbn [mbind option_bind]; [|done].
  destruct H as (Hin & _ & _ & H).
  destruct H as [(-> & Hbad & _)|(Hok & _ & _ & _ & _ & [[-> Hj]|[-> Hj]])].
  - status_cases.
  - status_cases.
  - status_cases.
Qed.

(** X17. A start-up that fails ends the process before [atexit(quit)] is
    reached: no exit handler is registered and nothing is released.  When
    the failure is in the JACK set-up, the plan and both transform arrays
    stay allocated, and so does a JACK client that was opened. *)
Theorem main_failure_releases_nothing argc argv0 argv1 w ps t c :
  main argc argv0 argv1 w = Some (ps, t, exits c) →
  (call_atexit_quit ∉ t) ∧
  Forall (λ c, is_release c = false) t ∧
  ((call_fftw_plan_dft_1d ∈ t) →
   _plan4fftw (core ps) = Some init_plan ∧
   is_Some (_in4fftw (core ps)) ∧ is_Some (_out4fftw (core ps)) ∧
   _client ps = open_client w).
Proof.
  unfold main.
  destruct (Z.eqb_spec argc 2) as [->|Hargc]; cbn [negb].
  2:{ intros [= <- <- <-]. split; [trace_notin|]. split; [no_release|].
      intros Hin. exfalso. revert Hin.
      match goal with |- ?x ∈ ?l → False => change (x ∉ l) end.
      trace_notin. }
  destruct (create_window_ok w) eqn:Hwin; cbn [negb].
  2:{ intros [= <- <- <-]. split; [trace_notin|]. split; [no_release|].
      intros Hin. exfalso. revert Hin.
      match goal with |- ?x ∈ ?l → False => change (x ∉ l) end.
      trace_notin. }
  pose proof (init_process_cases argv1 w initial_process) as H.
  destruct (init_process argv1 w initial_process) as [[[ps0 t0] out]|];
    cbn [mbind option_bind]; [|done].
  destruct H as (_ & Hrel & Hat & H).
  destruct out as [|c0|]; [done| |done].
  intros [= <- <- <-]. split; [|split].
  - rewrite not_elem_of_cons. split; [discriminate|done].
  - by constructor.
  - intros _.
    destruct H as [(? & _)|(_ & Hcore & _ & Hcl & _)]; [done|].
    rewrite Hcore, Hcl. cbn [init core _plan4fftw _in4fftw _out4fftw].
    repeat split; by eexists.
Qed.
End JackFacts.

Lemma main_failure_releases_nothing_witness :
  ∃ ps t,
    main 1 "32 bit float mono audio" 2 "./viewer" "viewer" failing_world
    = Some (ps, t, exits 1) ∧
    (call_atexit_quit ∉ t) ∧
    Forall (λ c, is_release c = false) t ∧
    ((call_fftw_plan_dft_1d ∈ t) →
     _plan4fftw (core ps) = Some init_plan ∧
     is_Some (_in4fftw (core ps)) ∧ is_Some (_out4fftw (core ps)) ∧
     _client ps = open_client failing_world).
Proof.
  eexists _, _. split; [reflexivity|].
  apply (main_failure_releases_nothing 1 "32 bit float mono audio" 2
           "./viewer" "viewer" failing_world _ _ 1).
  reflexivity.
Defined.

(** ** Shut-down *)

(** X18. After [quit] the client, the screen, the plan and both transform
    arrays are null while the samples, the bins and the display mode are
    kept; a callback arriving then returns 0 and changes nothing; and a
    second [quit] gives nothing back again: it only calls [gl4duClean]. *)
Theorem quit_twice ps :
  let '(ps1, t1) := quit ps in
  quit ps1 = (ps1, [call_gl4duClean]) ∧
  _client ps1 = None ∧ _screen ps1 = 0 ∧
  _plan4fftw (core ps1) = None ∧
  _in4fftw (core ps1) = None ∧ _out4fftw (core ps1) = None ∧
  _samples (core ps1) = _samples (core ps) ∧
  _hauteurs (core ps1) = _hauteurs (core ps) ∧
  waveform (core ps1) = waveform (core ps) ∧
  ∀ nframes buffer,
    mixCallback (core ps1) nframes buffer = Some (core ps1, 0).
Proof.
  unfold quit. cbv zeta. repeat split.
Qed.

(** X19. [quit] gives back each resource exactly when its handle is not
    null, never twice, and in a fixed order: the JACK client first, then
    the screen, then the plan, then the input array, then the output
    array. *)
Theorem quit_release_order ps :
  List.filter is_release (quit ps).2 `sublist_of` release_order ∧
  NoDup (List.filter is_release (quit ps).2) ∧
  (call_jack_client_close ∈ (quit ps).2 ↔ is_Some (_client ps)) ∧
  (call_gl4dpDeleteScreen ∈ (quit ps).2 ↔ _screen ps ≠ 0) ∧
  (call_fftw_destroy_plan ∈ (quit ps).2 ↔ is_Some (_plan4fftw (core ps))) ∧
  (call_fftw_free array_in ∈ (quit ps).2 ↔ is_Some (_in4fftw (core ps))) ∧
  (call_fftw_free array_out ∈ (quit ps).2 ↔ is_Some (_out4fftw (core ps))).
Proof.
  unfold quit, release_order. cbv zeta. cbn [snd].
  assert (Hno : ∀ A : Type, ¬ is_Some (@None A)) by (intros A [? ?]; done).
  assert (Hyes : ∀ (A : Type) (a : A), is_Some (Some a)) by (by eexists).
  destruct (_client ps) as [name|];
    destruct (Z.eqb_spec (_screen ps) 0) as [Hs|Hs];
    destruct (_plan4fftw (core ps)) as [p|];
    destruct (_in4fftw (core ps)) as [i|];
    destruct (_out4fftw (core ps)) as [o|];
    cbn [app List.filter is_release];
    (split; [repeat first [apply sublist_nil | apply sublist_skip
                          | apply sublist_cons]|]);
    (split; [repeat first [apply NoDup_nil_2
                          | apply NoDup_cons_2; [trace_notin|]]|]);
    repeat match goal with
           | |- _ ∧ _ => split
           | |- (?x ∈ ?l) ↔ _ =>
               first
                 [ assert (x ∈ l) by trace_in;
                   split; intros _; first [done | apply Hyes]
                 | assert (x ∉ l) by trace_notin;
                   split; [done|];
                   first [ intros []%Hno | done ] ]
           end.
Qed.

(** X20. What a successful start-up acquires, [quit] gives back: when [main]
    reaches the main loop both transform arrays have been allocated, the
    exit handler is registered, the client, the screen, the plan and both
    arrays are held, and [quit] releases exactly these five, each once, in
    order: client, screen, plan, input array, output array. *)
Theorem startup_then_quit JackFailure JACK_DEFAULT_AUDIO_TYPE
    argv0 argv1 w ps t :
  main JackFailure JACK_DEFAULT_AUDIO_TYPE 2 argv0 argv1 w
  = Some (ps, t, running) →
  screen_id w ≠ 0 →
  (call_fftw_malloc array_in ∈ t) ∧
  (call_fftw_malloc array_out ∈ t) ∧
  (call_atexit_quit ∈ t) ∧
  List.filter is_release (quit ps).2
  = [call_jack_client_close; call_gl4dpDeleteScreen; call_fftw_destroy_plan;
     call_fftw_free array_in; call_fftw_free array_out].
Proof.
  unfold main. cbn [Z.eqb Pos.eqb negb].
  destruct (create_window_ok w); cbn [negb]; [|done].
  pose proof (init_process_cases JackFailure JACK_DEFAULT_AUDIO_TYPE
                argv1 w initial_process) as H.
  unfold init_process in *. cbv zeta in *.
  destruct (malloc_in_ok w); cbn [negb] in *; [|done].
  destruct (malloc_out_ok w); cbn [negb] in *; [|done].
  destruct (make_plan_ok w); cbn [negb] in *; [|done].
  destruct (initJack _ _ argv1 w _) as [[ps0 t0] rc].
  destruct (rc =? 0); cbn [mbind option_bind] in *; [|done].
  destruct H as (_ & _ & _ & [(? & _)|(_ & Hcore & Hscr & Hcl & _ & Hcode)]);
    [done|].
  intros [= <- <-] Hid.
  destruct Hcode as [[_ (_ & [name Hname] & _)]|[? _]]; [|done].
  split; [trace_in|]. split; [trace_in|].
  split; [repeat (rewrite elem_of_cons; right); rewrite elem_of_app; right;
          trace_in|].
  unfold quit. cbv zeta. cbn [snd].
  rewrite Hcore, Hscr, Hcl, Hname.
  cbn [init core _plan4fftw _in4fftw _out4fftw].
  destruct (Z.eqb_spec (screen_id w) 0); [done|].
  reflexivity.
Qed.

Lemma startup_then_quit_witness :
  ∃ ps t,
    main 1 "32 bit float mono audio" 2 "./viewer" "viewer" good_world
    = Some (ps, t, running) ∧
    (call_fftw_malloc array_in ∈ t) ∧
    (call_fftw_malloc array_out ∈ t) ∧
    (call_atexit_quit ∈ t) ∧
    List.filter is_release (quit ps).2
    = [call_jack_client_close; call_gl4dpDeleteScreen; call_fftw_destroy_plan;
       call_fftw_free array_in; call_fftw_free array_out].
Proof.
  eexists _, _. split; [reflexivity|].
  apply (startup_then_quit 1 "32 bit float mono audio"
           "./viewer" "viewer" good_world); [reflexivity|].
  cbn. lia.
Defined.

(** ** Which rows the renderer can reach *)

Lemma clamp_y_cases y0 :
  (y0 = _wH ∧ clamp_y y0 = _wH) ∨ (y0 ≠ _wH ∧ 0 <= clamp_y y0 <= _wH - 1).
Proof.
  unfold clamp_y, _wH. destruct (Z.ltb_spec 512 y0); cbv zeta.
  - right. destruct (Z.ltb_spec (512 - 1) 0); lia.
  - destruct (Z.ltb_spec y0 0); [right; lia|].
    destruct (decide (y0 = 512)); [left|right]; lia.
Qed.

(** X21. In spectrum mode the row of a bin is inside the window, in
    [0 .. _wH - 1], for every bin value but one: a bin equal to [_wH] is
    plotted at row [_wH]. *)
Theorem draw_spectrum_rows st :
  wf_state st →
  waveform st ≠ 1 →
  ∃ px, draw st = Some px ∧
    ∀ (i : nat) h, _hauteurs st !! i = Some h →
      ∃ x y, px !! i = Some (x, y) ∧
        (h ≠ _wH → 0 <= y <= _wH - 1) ∧
        (h = _wH → y = _wH).
Proof.
  intros Hwf Hw. rewrite draw_spectrum_spec by done.
  eexists. split; [reflexivity|].
  intros i h Hi. pose proof (lookup_lt_Some _ _ _ Hi) as Hlt.
  destruct Hwf as (_ & Hh & _).
  rewrite list_lookup_fmap, lookup_seqZ_lt by lia.
  cbn [fmap option_fmap option_map].
  rewrite Z.add_0_l, Nat2Z.id, (nth_lookup_Some _ _ _ _ Hi).
  eexists _, _. split; [reflexivity|].
  destruct (clamp_y_cases h) as [[-> ->]|[Hne Hr]]; split; intros; done.
Qed.

Lemma draw_spectrum_rows_witness :
  ∃ px, draw loud_result = Some px ∧
    ∀ (i : nat) h, _hauteurs loud_result !! i = Some h →
      ∃ x y, px !! i = Some (x, y) ∧
        (h ≠ _wH → 0 <= y <= _wH - 1) ∧
        (h = _wH → y = _wH).
Proof.
  apply draw_spectrum_rows; [apply wf_loud_result|cbn; lia].
Defined.

(** X22. In waveform mode, on a state whose sample buffer has its
    [ECHANTILLONS] entries, [draw] is defined exactly when the row of every
    sample, [trunc ((s * _wH + _wH) / 2)], fits an [int]. *)
Theorem draw_waveform_defined_iff st :
  Z.of_nat (length (_samples st)) = ECHANTILLONS →
  waveform st = 1 →
  is_Some (draw st)
  ↔ Forall (λ s, INT_MIN <= waveform_row s <= INT_MAX) (_samples st).
Proof.
  intros Hs Hw. unfold draw. rewrite Hw. cbn [Z.eqb Pos.eqb]. split.
  - intros [px [Hlen Hpx]%collect_loop_inv].
    apply Forall_lookup. intros i s Hi.
    pose proof (lookup_lt_Some _ _ _ Hi) as Hlt.
    destruct (lookup_lt_is_Some_2 px i) as [p Hp];
      [rewrite Hlen, ECHANTILLONS_eq; rewrite ECHANTILLONS_eq in Hs; lia|].
    apply Hpx in Hp. unfold waveform_pixel in Hp.
    apply bind_Some in Hp as (s' & Hs' & Hp). cbv zeta in Hp.
    apply bind_Some in Hp as (y0 & Hy & _).
    unfold arr_get in Hs'. destruct (Z.leb_spec 0 (Z.of_nat i)); [|lia].
    rewrite Nat2Z.id, Hi in Hs'. injection Hs' as <-.
    by apply double_to_int_inv in Hy as [_ Hy].
  - intros Hall. rewrite Forall_lookup in Hall.
    rewrite <- (Z2Nat.id ECHANTILLONS) by (rewrite ECHANTILLONS_eq; lia).
    rewrite (collect_loop (waveform_pixel st)
               (λ i, (column i (ECHANTILLONS - 1),
                      clamp_y (waveform_row (nth (Z.to_nat i) (_samples st) 0%R))))).
    + by eexists.
    + intros k Hk. unfold waveform_pixel.
      destruct (arr_get_Some (_samples st) (Z.of_nat k)) as (s & -> & Hl);
        [rewrite ECHANTILLONS_eq in *; lia|].
      rewrite bind_Some_l. cbv zeta.
      rewrite Nat2Z.id in *. rewrite (nth_lookup_Some _ _ _ _ Hl).
      rewrite double_to_int_Some, bind_Some_l; [done|].
      apply (Hall _ _ Hl).
Qed.

Lemma draw_waveform_defined_iff_witness :
  is_Some (draw (with_waveform 1 full_scale_state))
  ↔ Forall (λ s, INT_MIN <= waveform_row s <= INT_MAX)
      (_samples (with_waveform 1 full_scale_state)).
Proof.
  apply draw_waveform_defined_iff; [apply length_constant_window|reflexivity].
Defined.

(** ** The analysis in machine arithmetic *)

Lemma to_int_Some x :
  Machine.is_finite x = true →
  INT_MIN <= Machine.Ztrunc x <= INT_MAX →
  Machine.to_int x = Some (Machine.Ztrunc x).
Proof.
  intros Hf [Hlo Hhi]. unfold Machine.to_int. rewrite Hf.
  destruct (Z.leb_spec INT_MIN (Machine.Ztrunc x)); [|lia].
  destruct (Z.leb_spec (Machine.Ztrunc x) INT_MAX); [done|lia].
Qed.

Lemma to_int_inv x v :
  Machine.to_int x = Some v →
  v = Machine.Ztrunc x ∧ Machine.is_finite x = true ∧
  INT_MIN <= Machine.Ztrunc x <= INT_MAX.
Proof.
  unfold Machine.to_int.
  destruct (Machine.is_finite x); [|done].
  destruct (Z.leb_spec INT_MIN (Machine.Ztrunc x)); [|done].
  destruct (Z.leb_spec (Machine.Ztrunc x) INT_MAX); [|done].
  intros [= <-]. done.
Qed.

Lemma to_int_is_Some x :
  is_Some (Machine.to_int x) → Machine.to_int x = Some (Machine.Ztrunc x).
Proof. intros [v Hv]. by destruct (to_int_inv x v Hv) as (-> & _). Qed.

Lemma machine_window_input_seqZ (window : list spec_float) :
  (λ i, (Machine.double_of_float (nth (Z.to_nat i) window Machine.zero),
         Machine.zero)) <$> seqZ 0 (Z.of_nat (length window))
  = Machine.window_input window.
Proof.
  apply list_eq. intros i. unfold Machine.window_input.
  rewrite !list_lookup_fmap.
  destruct (decide (i < length window)%nat) as [Hi|Hi].
  - rewrite lookup_seqZ_lt by lia. simpl.
    destruct (lookup_lt_is_Some_2 window i) as [x Hx]; [lia|].
    rewrite Hx. simpl. rewrite Z.add_0_l, Nat2Z.id.
    by rewrite (nth_lookup_Some _ _ _ _ Hx).
  - rewrite lookup_seqZ_ge by lia.
    by rewrite lookup_ge_None_2 by lia.
Qed.

(** Lines 172-173. *)
Lemma machine_stage_loop (window : list spec_float)
    (inp : list (spec_float * spec_float)) :
  length inp = length window →
  Forall (λ c : spec_float * spec_float, c.2 = Machine.zero) inp →
  for_loop 0 (Z.of_nat (length window))
    (λ i a, s ← arr_get window i; c ← arr_get a i;
            arr_set a i (Machine.double_of_float s, c.2)) inp
  = Some (Machine.window_input window).
Proof.
  intros Hlen Himag.
  rewrite (fill_loop _
    (λ i, (Machine.double_of_float (nth (Z.to_nat i) window Machine.zero),
           Machine.zero))).
  - rewrite machine_window_input_seqZ, drop_ge by lia. by rewrite app_nil_r.
  - lia.
  - intros k Hk a'.
    destruct (arr_get_Some window (Z.of_nat k)) as (x & -> & Hx); [lia|].
    rewrite Nat2Z.id in Hx. simpl.
    destruct (lookup_lt_is_Some_2 inp k) as [c Hc]; [lia|].
    assert (Hlen' : length a' = length inp).
    { unfold a'. rewrite length_app, length_fmap, length_seqZ, length_drop. lia. }
    assert (Hget : arr_get a' (Z.of_nat k) = Some c).
    { unfold arr_get. destruct (Z.leb_spec 0 (Z.of_nat k)); [|lia].
      unfold a'. rewrite lookup_app_r; rewrite length_fmap, length_seqZ; [|lia].
      rewrite lookup_drop, <- Hc. f_equal. lia. }
    rewrite Hget. simpl.
    rewrite arr_set_Some by lia. rewrite !Nat2Z.id.
    rewrite (nth_lookup_Some _ _ _ _ Hx).
    rewrite Forall_lookup in Himag. by rewrite (Himag _ _ Hc).
Qed.

Section MachineAnalysis.
Variable exp : spec_float → spec_float.

(** Lines 177-178. *)
Lemma machine_bins_loop (out : list (spec_float * spec_float)) (h : list Z) :
  Z.of_nat (length h) = FREQUENCES →
  FREQUENCES <= Z.of_nat (length out) →
  Machine.representable exp out →
  for_loop 0 FREQUENCES
    (λ i h0, c ← arr_get out i;
             v ← Machine.to_int (Machine.bin_value exp c i);
             arr_set h0 i (to_Sint16 v)) h
  = Some (Machine.expected_bins exp out).
Proof.
  intros Hh Hout Hrep. unfold Machine.expected_bins. rewrite <- Hh in *.
  rewrite (fill_loop _
    (λ i, to_Sint16 (Machine.Ztrunc
            (Machine.bin_value exp
               (nth (Z.to_nat i) out (Machine.zero, Machine.zero)) i)))).
  - rewrite drop_ge by lia. by rewrite app_nil_r.
  - lia.
  - intros k Hk a'.
    destruct (arr_get_Some out (Z.of_nat k)) as (c & -> & Hc); [lia|].
    rewrite Nat2Z.id in Hc. simpl.
    specialize (Hrep (Z.of_nat k) ltac:(lia)).
    rewrite Nat2Z.id, (nth_lookup_Some _ _ _ _ Hc) in Hrep.
    rewrite (to_int_is_Some _ Hrep). simpl.
    rewrite arr_set_Some.
    + by rewrite !Nat2Z.id, (nth_lookup_Some _ _ _ _ Hc).
    + unfold a'. rewrite length_app, length_fmap, length_seqZ, length_drop. lia.
Qed.

(** If the loop of lines 177-178 completes, every conversion it made was
    defined. *)
Lemma machine_bins_loop_inv (out : list (spec_float * spec_float))
    (h h' : list Z) :
  for_loop 0 FREQUENCES
    (λ i h0, c ← arr_get out i;
             v ← Machine.to_int (Machine.bin_value exp c i);
             arr_set h0 i (to_Sint16 v)) h = Some h' →
  Machine.representable exp out.
Proof.
  intros Hrun. unfold for_loop in Hrun.
  remember (Z.to_nat (FREQUENCES - 0)) as n eqn:Hn.
  set (P := λ (k : nat) (_ : list Z), ∀ i, 0 <= i < Z.of_nat k →
    is_Some (Machine.to_int (Machine.bin_value exp
               (nth (Z.to_nat i) out (Machine.zero, Machine.zero)) i))).
  assert (HP : P n h').
  { eapply (for_range_post P); [| |exact Hrun].
    - intros i Hi. lia.
    - intros k h0 h1 Hk IH Hbody i Hi.
      destruct (decide (i < Z.of_nat k)) as [Hlt|Hge]; [apply IH; lia|].
      assert (i = Z.of_nat k) as -> by lia.
      rewrite Z.add_0_l in Hbody.
      apply bind_Some in Hbody as (c & Hc & Hbody).
      apply bind_Some in Hbody as (v & Hv & _).
      unfold arr_get in Hc. destruct (Z.leb_spec 0 (Z.of_nat k)); [|lia].
      rewrite (nth_lookup_Some _ _ _ _ Hc). by eexists. }
  intros i Hi. apply HP. rewrite FREQUENCES_eq in *. lia.
Qed.

Lemma machine_fftw_execute_init inp out transformed :
  Z.of_nat (length inp) = ECHANTILLONS →
  Z.of_nat (length out) = ECHANTILLONS →
  Z.of_nat (length transformed) = ECHANTILLONS →
  Machine.fftw_execute init_plan inp out transformed = Some transformed.
Proof.
  intros Hi Ho Ht. unfold Machine.fftw_execute.
  change (plan_n init_plan) with ECHANTILLONS.
  destruct (Z.eqb_spec (Z.of_nat (length inp)) ECHANTILLONS); [|done].
  destruct (Z.eqb_spec (Z.of_nat (length out)) ECHANTILLONS); [|done].
  destruct (Z.eqb_spec (Z.of_nat (length transformed)) ECHANTILLONS); done.
Qed.

(** One analysis pass, all conversions defined. *)
Lemma machine_analyze_spec transformed p st :
  Machine.wf_state st →
  Machine._plan4fftw st = Some p →
  Z.of_nat (length transformed) = ECHANTILLONS →
  Machine.representable exp transformed →
  Machine.analyze exp transformed p st
  = Some {| Machine._samples := Machine._samples st;
            Machine._hauteurs := Machine.expected_bins exp transformed;
            Machine.waveform := Machine.waveform st;
            Machine._in4fftw :=
              Some (Machine.window_input (Machine._samples st));
            Machine._out4fftw := Some transformed;
            Machine._plan4fftw := Some p |}.
Proof.
  intros (Hs & Hh & Hplan) Hp Ht Hrep.
  destruct (Hplan p Hp) as (Hpe & inp & out & Hin & Hout & Hlin & Hlout & Himag).
  unfold Machine.analyze. rewrite Hin, Hout, !bind_Some_l.
  rewrite <- Hs at 1. rewrite machine_stage_loop, bind_Some_l by (done || lia).
  rewrite Hpe, machine_fftw_execute_init, bind_Some_l;
    [|unfold Machine.window_input; by rewrite length_fmap|done|done].
  rewrite machine_bins_loop, bind_Some_l;
    [|done|rewrite Ht, FREQUENCES_eq, ECHANTILLONS_eq; lia|done].
  rewrite Hp, Hpe. reflexivity.
Qed.

Lemma machine_analyze_inv transformed p st st' :
  Machine.wf_state st →
  Machine._plan4fftw st = Some p →
  Machine.analyze exp transformed p st = Some st' →
  Z.of_nat (length transformed) = ECHANTILLONS ∧
  Machine.representable exp transformed.
Proof.
  intros (Hs & Hh & Hplan) Hp Hrun.
  destruct (Hplan p Hp) as (Hpe & inp & out & Hin & Hout & Hlin & Hlout & Himag).
  unfold Machine.analyze in Hrun. rewrite Hin, Hout, !bind_Some_l in Hrun.
  rewrite <- Hs in Hrun at 1.
  rewrite machine_stage_loop, bind_Some_l in Hrun by (done || lia).
  apply bind_Some in Hrun as (out' & Hex & Hrun).
  apply bind_Some in Hrun as (h' & Hloop & _).
  unfold Machine.fftw_execute in Hex. rewrite Hpe in Hex.
  change (plan_n init_plan) with ECHANTILLONS in Hex.
  destruct (Z.eqb_spec (Z.of_nat (length (Machine.window_input (Machine._samples st))))
              ECHANTILLONS); [|done].
  destruct (Z.eqb_spec (Z.of_nat (length out)) ECHANTILLONS); [|done].
  destruct (Z.eqb_spec (Z.of_nat (length transformed)) ECHANTILLONS); [|done].
  cbn [andb] in Hex. apply (inj Some) in Hex as <-.
  split; [done|]. exact (machine_bins_loop_inv _ _ _ Hloop).
Qed.
End MachineAnalysis.

(** ** Claim on the bins *)

Lemma machine_lookup_expected_bins exp transformed (i : nat) :
  Z.of_nat i < FREQUENCES →
  Machine.expected_bins exp transformed !! i
  = Some (to_Sint16 (Machine.Ztrunc
            (Machine.bin_value exp
               (nth i transformed (Machine.zero, Machine.zero)) (Z.of_nat i)))).
Proof.
  intros Hi. unfold Machine.expected_bins. rewrite list_lookup_fmap.
  rewrite lookup_seqZ_lt by lia. cbn [fmap option_fmap option_map].
  by rewrite Z.add_0_l, Nat2Z.id.
Qed.

(** The state of the examples is well formed, and the transform of a
    constant window has the size of the plan. *)
Lemma machine_wf_constant_state a w : Machine.wf_state (Machine.constant_state a w).
Proof.
  split; [|split].
  - cbn. rewrite length_replicate. reflexivity.
  - cbn. rewrite length_replicate. reflexivity.
  - intros p Hp. cbn in Hp. apply (inj Some) in Hp as <-.
    split; [reflexivity|]. eexists _, _.
    split; [reflexivity|]. split; [reflexivity|].
    split; [rewrite length_replicate; reflexivity|].
    split; [rewrite length_replicate; reflexivity|].
    by apply Forall_replicate.
Qed.

Lemma length_constant_transformed a :
  Z.of_nat (length (Machine.constant_transformed a)) = ECHANTILLONS.
Proof.
  unfold Machine.constant_transformed. cbn [length].
  rewrite length_replicate. rewrite ECHANTILLONS_eq. lia.
Qed.

(** The scaled magnitude of a zero output is a zero, whatever finite value
    [exp] returns. *)
Lemma machine_bin_value_zero exp c i :
  Machine.is_zero c.1 = true → Machine.is_zero c.2 = true →
  Machine.is_finite
    (exp (Machine.double_div
            (Machine.double_mul (Machine.double_of_int 2)
                                (Machine.double_of_int i))
            (Machine.double_of_int FREQUENCES))) = true →
  Machine.to_int (Machine.bin_value exp c i) = Some 0.
Proof.
  destruct c as [[s1| | |] [s2| | |]]; cbn [fst snd Machine.is_zero]; try done.
  intros _ _. unfold Machine.bin_value. cbn [fst snd].
  destruct (exp _) as [s| | |s m e]; try done; intros _;
    destruct s1, s2; try destruct s; reflexivity.
Qed.

(** The [exp] of the examples is finite at the arguments of line 178. *)
Lemma exp_taylor_finite i :
  0 <= i < FREQUENCES →
  Machine.is_finite
    (Machine.exp_taylor 2
       (Machine.double_div
          (Machine.double_mul (Machine.double_of_int 2)
                              (Machine.double_of_int i))
          (Machine.double_of_int FREQUENCES))) = true.
Proof.
  assert (H : Forall (λ i, Machine.is_finite
                (Machine.exp_taylor 2
                   (Machine.double_div
                      (Machine.double_mul (Machine.double_of_int 2)
                                          (Machine.double_of_int i))
                      (Machine.double_of_int FREQUENCES))) = true)
                (seqZ 0 FREQUENCES)).
  { refine (bool_decide_unpack _ _). vm_compute. exact I. }
  intros Hi. rewrite Forall_forall in H. apply H, elem_of_seqZ. lia.
Qed.

(** The transform of a constant window: one entry, then zeros. *)
Lemma lookup_constant_transformed_0 a :
  Machine.constant_transformed a !! O
  = Some (Machine.double_of_int (ECHANTILLONS * a), Machine.zero).
Proof. reflexivity. Qed.

Lemma lookup_constant_transformed_S a (k : nat) :
  (k < Z.to_nat ECHANTILLONS - 1)%nat →
  Machine.constant_transformed a !! S k = Some (Machine.zero, Machine.zero).
Proof.
  intros Hk. unfold Machine.constant_transformed.
  rewrite lookup_cons. by apply lookup_replicate_2.
Qed.

(** For the transform of the window of constant amplitude 8 every
    conversion is defined: bin 0 is [32768 * exp(0)] and the others are
    [0 * exp(2 i / 1024)]. *)
Lemma bin_value_loud_0 :
  Machine.to_int (Machine.bin_value (Machine.exp_taylor 2)
                    (Machine.double_of_int (ECHANTILLONS * 8), Machine.zero) 0)
  = Some 32768.
Proof. vm_compute. reflexivity. Qed.

Lemma representable_constant_transformed :
  Machine.representable (Machine.exp_taylor 2) (Machine.constant_transformed 8).
Proof.
  intros i Hi. destruct (Z.to_nat i) as [|k] eqn:Hk.
  - assert (i = 0) as -> by lia.
    rewrite (nth_lookup_Some _ _ _ _ (lookup_constant_transformed_0 8)).
    rewrite bin_value_loud_0. by eexists.
  - rewrite (nth_lookup_Some _ _ _ _ (lookup_constant_transformed_S 8 k
               ltac:(rewrite FREQUENCES_eq in Hi; rewrite ECHANTILLONS_eq; lia))).
    rewrite machine_bin_value_zero; [by eexists|done|done|].
    by apply exp_taylor_finite.
Qed.



(** ** When the analysis is defined, in machine arithmetic *)

(** X23. With the numbers of the machine: on a well-formed state with a
    plan, [fftw_execute] having filled the output array, the analysis is
    defined exactly when every scaled magnitude is finite and its integral
    part fits an [int]. *)
Theorem analyze_machine_defined_iff exp transformed p st :
  Machine.wf_state st →
  Machine._plan4fftw st = Some p →
  Z.of_nat (length transformed) = ECHANTILLONS →
  is_Some (Machine.analyze exp transformed p st)
  ↔ ∀ i, 0 <= i < FREQUENCES →
      let v := Machine.bin_value exp
                 (nth (Z.to_nat i) transformed (Machine.zero, Machine.zero)) i in
      Machine.is_finite v = true ∧ INT_MIN <= Machine.Ztrunc v <= INT_MAX.
Proof.
  intros Hwf Hp Ht. split.
  - intros [st' Hrun] i Hi. cbv zeta.
    destruct (machine_analyze_inv exp transformed p st st' Hwf Hp Hrun)
      as [_ Hrep].
    destruct (Hrep i Hi) as [v Hv].
    by apply to_int_inv in Hv as (_ & Hfin & Hrange).
  - intros Hall. rewrite machine_analyze_spec; [by eexists|done..|].
    intros i Hi. destruct (Hall i Hi) as [Hfin Hrange].
    rewrite to_int_Some by done. by eexists.
Qed.

Lemma analyze_machine_defined_iff_witness :
  is_Some (Machine.analyze (Machine.exp_taylor 2)
             (Machine.constant_transformed 8) init_plan
             (Machine.constant_state (Machine.float_of_int 8) 0))
  ↔ ∀ i, 0 <= i < FREQUENCES →
      let v := Machine.bin_value (Machine.exp_taylor 2)
                 (nth (Z.to_nat i) (Machine.constant_transformed 8)
                    (Machine.zero, Machine.zero)) i in
      Machine.is_finite v = true ∧ INT_MIN <= Machine.Ztrunc v <= INT_MAX.
Proof.
  apply analyze_machine_defined_iff.
  - apply machine_wf_constant_state.
  - reflexivity.
  - apply length_constant_transformed.
Defined.

(** The run of the loud window in machine arithmetic: the transform of the
    window of constant amplitude 8 is [32768] at index 0, the scaled
    magnitude there is the [double] [32768] and the bin stored is
    [-32768]. *)
Lemma machine_bin_wraps :
  ∃ st', Machine.analyze (Machine.exp_taylor 2) (Machine.constant_transformed 8)
           init_plan (Machine.constant_state (Machine.float_of_int 8) 0)
         = Some st' ∧
    Machine.constant_transformed 8 !! O
    = Some (Machine.double_of_int 32768, Machine.zero) ∧
    Machine.to_int (Machine.bin_value (Machine.exp_taylor 2)
                      (Machine.double_of_int 32768, Machine.zero) 0)
    = Some 32768 ∧
    Machine._hauteurs st' !! O = Some (-32768).
Proof.
  rewrite machine_analyze_spec;
    [|apply machine_wf_constant_state|reflexivity
     |apply length_constant_transformed
     |apply representable_constant_transformed].
  eexists. split; [reflexivity|]. split; [reflexivity|].
  split; [vm_compute; reflexivity|].
  cbn [Machine._hauteurs].
  rewrite machine_lookup_expected_bins by (rewrite FREQUENCES_eq; lia).
  vm_compute. reflexivity.
Qed.

(** ** What an analysis pass leaves, in machine arithmetic *)

Lemma machine_length_expected_bins exp transformed :
  Z.of_nat (length (Machine.expected_bins exp transformed)) = FREQUENCES.
Proof.
  unfold Machine.expected_bins. rewrite length_fmap, length_seqZ.
  rewrite FREQUENCES_eq. lia.
Qed.

(** X24. With the numbers of the machine: an analysis pass that completes
    leaves [FREQUENCES] bins, every one written by that pass from what
    [fftw_execute] wrote (none depends on the bins held before), every one
    a signed 16-bit value; the samples, the display mode and the plan are
    those of before, and the state is still well formed. *)
Theorem analyze_machine_overwrites_bins exp transformed p st st' :
  Machine.wf_state st →
  Machine._plan4fftw st = Some p →
  Machine.analyze exp transformed p st = Some st' →
  Z.of_nat (length (Machine._hauteurs st')) = ECHANTILLONS / 4 ∧
  Machine._hauteurs st' = Machine.expected_bins exp transformed ∧
  Forall (λ h, -32768 <= h <= 32767) (Machine._hauteurs st') ∧
  Machine._samples st' = Machine._samples st ∧
  Machine.waveform st' = Machine.waveform st ∧
  Machine._plan4fftw st' = Machine._plan4fftw st ∧
  Machine.wf_state st'.
Proof.
  intros Hwf Hp Hrun.
  destruct (machine_analyze_inv exp transformed p st st' Hwf Hp Hrun)
    as [Ht Hrep].
  rewrite machine_analyze_spec in Hrun by done.
  apply (inj Some) in Hrun as <-.
  cbn [Machine._hauteurs Machine._samples Machine.waveform Machine._plan4fftw].
  split; [apply machine_length_expected_bins|]. split; [reflexivity|].
  split.
  { unfold Machine.expected_bins. apply Forall_fmap, Forall_true. intros i.
    apply to_Sint16_range. }
  split; [reflexivity|]. split; [reflexivity|]. split; [by rewrite Hp|].
  destruct Hwf as (Hs & Hh & Hplan).
  destruct (Hplan p Hp) as (-> & _).
  split; [exact Hs|]. split; [apply machine_length_expected_bins|].
  intros p' Hp'. cbn [Machine._plan4fftw] in Hp'.
  apply (inj Some) in Hp' as <-. split; [reflexivity|].
  eexists _, _. split; [reflexivity|]. split; [reflexivity|].
  split; [unfold Machine.window_input; by rewrite length_fmap|].
  split; [exact Ht|].
  unfold Machine.window_input. by apply Forall_fmap, Forall_true.
Qed.

Lemma analyze_machine_overwrites_bins_witness :
  ∃ st',
    Machine.analyze (Machine.exp_taylor 2) (Machine.constant_transformed 8)
      init_plan (Machine.constant_state (Machine.float_of_int 8) 0)
    = Some st' ∧
    Z.of_nat (length (Machine._hauteurs st')) = ECHANTILLONS / 4 ∧
    Machine._hauteurs st'
    = Machine.expected_bins (Machine.exp_taylor 2)
        (Machine.constant_transformed 8) ∧
    Forall (λ h, -32768 <= h <= 32767) (Machine._hauteurs st') ∧
    Machine._samples st'
    = Machine._samples (Machine.constant_state (Machine.float_of_int 8) 0) ∧
    Machine.waveform st'
    = Machine.waveform (Machine.constant_state (Machine.float_of_int 8) 0) ∧
    Machine._plan4fftw st'
    = Machine._plan4fftw (Machine.constant_state (Machine.float_of_int 8) 0) ∧
    Machine.wf_state st'.
Proof.
  eexists. split.
  - apply machine_analyze_spec.
    + apply machine_wf_constant_state.
    + reflexivity.
    + apply length_constant_transformed.
    + apply representable_constant_transformed.
  - apply (analyze_machine_overwrites_bins (Machine.exp_taylor 2)
             (Machine.constant_transformed 8) init_plan
             (Machine.constant_state (Machine.float_of_int 8) 0)).
    + apply machine_wf_constant_state.
    + reflexivity.
    + apply machine_analyze_spec.
      * apply machine_wf_constant_state.
      * reflexivity.
      * apply length_constant_transformed.
      * apply representable_constant_transformed.
Defined.

(** ** Silence, in machine arithmetic *)

(** X25. With the numbers of the machine: when [fftw_execute] writes zeros
    (of either sign), as it does for a silent window, and [exp] returns a
    finite value at each of the arguments [2.0 * i / 1024], the analysis is
    defined and stores [FREQUENCES] bins, all zero. *)
Theorem analyze_machine_silence exp transformed p st :
  Machine.wf_state st →
  Machine._plan4fftw st = Some p →
  Z.of_nat (length transformed) = ECHANTILLONS →
  Forall (λ c : spec_float * spec_float,
            Machine.is_zero c.1 = true ∧ Machine.is_zero c.2 = true)
    transformed →
  (∀ i, 0 <= i < FREQUENCES →
     Machine.is_finite
       (exp (Machine.double_div
               (Machine.double_mul (Machine.double_of_int 2)
                                   (Machine.double_of_int i))
               (Machine.double_of_int FREQUENCES))) = true) →
  ∃ st', Machine.analyze exp transformed p st = Some st' ∧
         Machine._hauteurs st' = replicate (Z.to_nat FREQUENCES) 0.
Proof.
  intros Hwf Hp Ht Hz Hexp.
  assert (Hbin : ∀ i, 0 <= i < FREQUENCES →
    Machine.to_int (Machine.bin_value exp
      (nth (Z.to_nat i) transformed (Machine.zero, Machine.zero)) i) = Some 0).
  { intros i Hi.
    destruct (lookup_lt_is_Some_2 transformed (Z.to_nat i)) as [c Hc];
      [rewrite FREQUENCES_eq in Hi; rewrite ECHANTILLONS_eq in Ht; lia|].
    rewrite (nth_lookup_Some _ _ _ _ Hc).
    rewrite Forall_lookup in Hz. destruct (Hz _ _ Hc) as [H1 H2].
    apply machine_bin_value_zero; [done|done|by apply Hexp]. }
  rewrite machine_analyze_spec; [|done|done|done|].
  2:{ intros i Hi. rewrite Hbin by done. by eexists. }
  eexists. split; [reflexivity|]. cbn [Machine._hauteurs].
  unfold Machine.expected_bins.
  apply list_eq. intros k. rewrite list_lookup_fmap.
  destruct (decide (Z.of_nat k < FREQUENCES)) as [Hk|Hk].
  - rewrite lookup_seqZ_lt, lookup_replicate_2 by lia.
    cbn [fmap option_fmap option_map]. rewrite Z.add_0_l.
    specialize (Hbin (Z.of_nat k) ltac:(lia)).
    apply to_int_inv in Hbin as (<- & _). reflexivity.
  - rewrite lookup_seqZ_ge by lia.
    symmetry. apply lookup_replicate_None. lia.
Qed.

Lemma analyze_machine_silence_witness :
  ∃ st', Machine.analyze (Machine.exp_taylor 2)
           (replicate (Z.to_nat ECHANTILLONS) (Machine.zero, Machine.zero))
           init_plan (Machine.constant_state Machine.zero 0) = Some st' ∧
         Machine._hauteurs st' = replicate (Z.to_nat FREQUENCES) 0.
Proof.
  apply analyze_machine_silence.
  - apply machine_wf_constant_state.
  - reflexivity.
  - rewrite length_replicate. reflexivity.
  - by apply Forall_replicate.
  - apply exp_taylor_finite.
Defined.

(** ** The waveform rows in machine arithmetic *)

Lemma machine_waveform_pixel_Some st (i : nat) s :
  Machine._samples st !! i = Some s →
  Machine.waveform_pixel st (Z.of_nat i)
  = y0 ← Machine.to_int (Machine.waveform_row s);
    Some (column (Z.of_nat i) (ECHANTILLONS - 1), clamp_y y0).
Proof.
  intros Hs. unfold Machine.waveform_pixel, arr_get.
  destruct (Z.leb_spec 0 (Z.of_nat i)); [|lia].
  by rewrite Nat2Z.id, Hs.
Qed.

(** The rows of five samples: full scale, the two largest values below it,
    silence and negative full scale. *)
Lemma machine_rows :
  SFltb Machine.below_one Machine.one = true ∧
  SFltb Machine.below_below_one Machine.below_one = true ∧
  Machine.to_int (Machine.waveform_row Machine.one) = Some 512 ∧
  Machine.to_int (Machine.waveform_row Machine.below_one) = Some 512 ∧
  Machine.to_int (Machine.waveform_row Machine.below_below_one) = Some 511 ∧
  Machine.to_int (Machine.waveform_row Machine.zero) = Some 256 ∧
  Machine.to_int (Machine.waveform_row (SFopp Machine.one)) = Some 0.
Proof. vm_compute. repeat split. Qed.

Lemma machine_row_cases s y0 :
  Machine.to_int (Machine.waveform_row s) = Some y0 →
  (s = Machine.one → clamp_y y0 = _wH) ∧
  (s = Machine.below_one → clamp_y y0 = _wH) ∧
  (s = Machine.below_below_one → clamp_y y0 = _wH - 1) ∧
  (s = Machine.zero → clamp_y y0 = _wH / 2) ∧
  (s = SFopp Machine.one → clamp_y y0 = 0).
Proof.
  intros Hy.
  destruct machine_rows as (_ & _ & H1 & H2 & H3 & H4 & H5).
  repeat split; intros Hs; subst s;
    [rewrite H1 in Hy|rewrite H2 in Hy|rewrite H3 in Hy|rewrite H4 in Hy
    |rewrite H5 in Hy]; apply (inj Some) in Hy; subst y0; reflexivity.
Qed.

Lemma machine_draw_waveform_eq st :
  Machine.waveform st = 1 →
  Machine.draw st
  = for_loop 0 ECHANTILLONS
      (λ i px, p ← Machine.waveform_pixel st i; Some (px ++ [p])) [].
Proof. intros Hw. unfold Machine.draw. by rewrite Hw. Qed.

(** What [draw] has plotted when it completes in waveform mode. *)
Lemma machine_draw_waveform_inv st px :
  Z.of_nat (length (Machine._samples st)) = ECHANTILLONS →
  Machine.waveform st = 1 →
  Machine.draw st = Some px →
  length px = Z.to_nat ECHANTILLONS ∧
  ∀ (i : nat) s, Machine._samples st !! i = Some s →
    ∃ y0, Machine.to_int (Machine.waveform_row s) = Some y0 ∧
      px !! i = Some (column (Z.of_nat i) (ECHANTILLONS - 1), clamp_y y0).
Proof.
  intros Hs Hw Hpx. rewrite machine_draw_waveform_eq in Hpx by done.
  apply collect_loop_inv in Hpx as [Hlen Hpx]. split; [done|].
  intros i s Hi. pose proof (lookup_lt_Some _ _ _ Hi) as Hlt.
  destruct (lookup_lt_is_Some_2 px i) as [p Hp];
    [rewrite Hlen, ECHANTILLONS_eq; rewrite ECHANTILLONS_eq in Hs; lia|].
  pose proof (Hpx _ _ Hp) as Hpix.
  rewrite (machine_waveform_pixel_Some st i s Hi) in Hpix.
  apply bind_Some in Hpix as (y0 & Hy & Hpix).
  apply (inj Some) in Hpix as <-. exists y0. done.
Qed.

(** [draw] completes in waveform mode when every row converts. *)
Lemma machine_draw_waveform_Some st :
  Z.of_nat (length (Machine._samples st)) = ECHANTILLONS →
  Machine.waveform st = 1 →
  Forall (λ s, is_Some (Machine.to_int (Machine.waveform_row s)))
    (Machine._samples st) →
  is_Some (Machine.draw st).
Proof.
  intros Hs Hw Hall. rewrite Forall_lookup in Hall.
  rewrite machine_draw_waveform_eq by done.
  rewrite <- (Z2Nat.id ECHANTILLONS) by (rewrite ECHANTILLONS_eq; lia).
  rewrite (collect_loop (Machine.waveform_pixel st)
             (λ i, (column i (ECHANTILLONS - 1),
                    clamp_y (Machine.Ztrunc (Machine.waveform_row
                      (nth (Z.to_nat i) (Machine._samples st) Machine.zero)))))).
  - by eexists.
  - intros k Hk.
    destruct (lookup_lt_is_Some_2 (Machine._samples st) k) as [s Hl];
      [rewrite ECHANTILLONS_eq in *; lia|].
    rewrite (machine_waveform_pixel_Some st k s Hl).
    rewrite Nat2Z.id, (nth_lookup_Some _ _ _ _ Hl).
    by rewrite (to_int_is_Some _ (Hall _ _ Hl)).
Qed.

(** X12. In waveform mode, with the numbers of the machine.  [draw] is
    defined exactly when the row of every sample, computed in [float], is
    finite with an integral part that fits an [int]; it then plots
    [ECHANTILLONS] pixels, sample [i] in column [i * (_wW-1) / 4095] at the
    clamped integral part of its row, which lies in [0 .. _wH].  Row [_wH],
    outside the window, is reached by [1.0f] and also by the largest [float]
    below it: [0x1.fffffep-1 * 512 + 512] rounds to [1024]. *)
Theorem draw_waveform_rows st :
  Z.of_nat (length (Machine._samples st)) = ECHANTILLONS →
  Machine.waveform st = 1 →
  (is_Some (Machine.draw st)
   ↔ Forall (λ s, is_Some (Machine.to_int (Machine.waveform_row s)))
       (Machine._samples st)) ∧
  (∀ px, Machine.draw st = Some px →
     Z.of_nat (length px) = ECHANTILLONS ∧
     ∀ (i : nat) s, Machine._samples st !! i = Some s →
       ∃ y, px !! i = Some (column (Z.of_nat i) (ECHANTILLONS - 1), y) ∧
         y = clamp_y (Machine.Ztrunc (Machine.waveform_row s)) ∧
         0 <= y <= _wH ∧
         (s = Machine.one → y = _wH) ∧
         (s = Machine.below_one → y = _wH) ∧
         (s = Machine.below_below_one → y = _wH - 1) ∧
         (s = Machine.zero → y = _wH / 2) ∧
         (s = SFopp Machine.one → y = 0)) ∧
  SFltb Machine.below_one Machine.one = true.
Proof.
  intros Hs Hw. split; [|split].
  - split.
    + intros [px Hpx].
      destruct (machine_draw_waveform_inv st px Hs Hw Hpx) as [_ Hall].
      apply Forall_lookup. intros i s Hi.
      destruct (Hall i s Hi) as (y0 & Hy & _). by eexists.
    + by apply machine_draw_waveform_Some.
  - intros px Hpx.
    destruct (machine_draw_waveform_inv st px Hs Hw Hpx) as [Hlen Hall].
    split; [rewrite Hlen, ECHANTILLONS_eq; lia|].
    intros i s Hi. destruct (Hall i s Hi) as (y0 & Hy & Hp).
    exists (clamp_y y0). split; [exact Hp|].
    pose proof (to_int_inv _ _ Hy) as (Hy0 & _).
    split; [by rewrite Hy0|]. split; [apply clamp_y_range|].
    apply (machine_row_cases s y0 Hy).
  - apply machine_rows.
Qed.

Lemma draw_waveform_rows_witness :
  (is_Some (Machine.draw (Machine.constant_state Machine.below_one 1))
   ↔ Forall (λ s, is_Some (Machine.to_int (Machine.waveform_row s)))
       (Machine._samples (Machine.constant_state Machine.below_one 1))) ∧
  (∀ px, Machine.draw (Machine.constant_state Machine.below_one 1) = Some px →
     Z.of_nat (length px) = ECHANTILLONS ∧
     ∀ (i : nat) s,
       Machine._samples (Machine.constant_state Machine.below_one 1) !! i
       = Some s →
       ∃ y, px !! i = Some (column (Z.of_nat i) (ECHANTILLONS - 1), y) ∧
         y = clamp_y (Machine.Ztrunc (Machine.waveform_row s)) ∧
         0 <= y <= _wH ∧
         (s = Machine.one → y = _wH) ∧
         (s = Machine.below_one → y = _wH) ∧
         (s = Machine.below_below_one → y = _wH - 1) ∧
         (s = Machine.zero → y = _wH / 2) ∧
         (s = SFopp Machine.one → y = 0)) ∧
  SFltb Machine.below_one Machine.one = true.
Proof.
  apply draw_waveform_rows.
  - cbn. rewrite length_replicate. reflexivity.
  - reflexivity.
Defined.

(** ** Magnitudes of rounded results *)

Lemma digits2_pos_bounds p :
  2 ^ (Z.pos (digits2_pos p) - 1) <= Z.pos p < 2 ^ Z.pos (digits2_pos p).
Proof.
  induction p as [p IH|p IH|]; cbn [digits2_pos].
  - rewrite Pos2Z.inj_succ.
    replace (Z.succ (Z.pos (digits2_pos p)) - 1) with (Z.pos (digits2_pos p)) by lia.
    rewrite Z.pow_succ_r by lia.
    assert (H : 2 ^ Z.pos (digits2_pos p) = 2 * 2 ^ (Z.pos (digits2_pos p) - 1)).
    { rewrite <- Z.pow_succ_r by lia. f_equal. lia. }
    lia.
  - rewrite Pos2Z.inj_succ.
    replace (Z.succ (Z.pos (digits2_pos p)) - 1) with (Z.pos (digits2_pos p)) by lia.
    rewrite Z.pow_succ_r by lia.
    assert (H : 2 ^ Z.pos (digits2_pos p) = 2 * 2 ^ (Z.pos (digits2_pos p) - 1)).
    { rewrite <- Z.pow_succ_r by lia. f_equal. lia. }
    lia.
  - cbn. lia.
Qed.

Lemma Zdigits2_le m k : 0 <= m → 0 <= k → m < 2 ^ k → Zdigits2 m <= k.
Proof.
  intros Hm Hk Hlt. destruct m as [|p|p]; [cbn; lia| |lia]. cbn [Zdigits2].
  pose proof (digits2_pos_bounds p) as [Hlo _].
  destruct (Z.le_gt_cases (Z.pos (digits2_pos p)) k) as [|Hgt]; [done|].
  assert (2 ^ k <= 2 ^ (Z.pos (digits2_pos p) - 1))
    by (apply Z.pow_le_mono_r; lia).
  lia.
Qed.

Lemma shr_1_m mrs : 0 <= shr_m mrs → shr_m (shr_1 mrs) = shr_m mrs / 2.
Proof.
  destruct mrs as [m r s]. cbn [shr_m]. intros Hm.
  rewrite <- Z.div2_div.
  destruct m as [|[p|p|]|p]; cbn [shr_1 shr_m]; (reflexivity || lia).
Qed.

Lemma iter_pos_shr_m p : ∀ mrs,
  0 <= shr_m mrs →
  shr_m (SpecFloat.iter_pos shr_1 p mrs) = shr_m mrs / 2 ^ Z.pos p.
Proof.
  induction p as [p IH|p IH|]; intros mrs Hm; cbn [SpecFloat.iter_pos].
  - assert (H1 : 0 <= shr_m (shr_1 mrs))
      by (rewrite shr_1_m by done; apply Z.div_pos; lia).
    assert (H2 : 0 <= shr_m (SpecFloat.iter_pos shr_1 p (shr_1 mrs)))
      by (rewrite IH by done; apply Z.div_pos; lia).
    rewrite IH, IH, shr_1_m by done.
    rewrite !Z.div_div by lia. f_equal.
    rewrite Pos2Z.inj_xI. rewrite <- !Z.pow_add_r, <- Z.pow_succ_r by lia.
    f_equal. lia.
  - assert (H2 : 0 <= shr_m (SpecFloat.iter_pos shr_1 p mrs))
      by (rewrite IH by done; apply Z.div_pos; lia).
    rewrite IH, IH by done.
    rewrite !Z.div_div by lia. f_equal.
    rewrite Pos2Z.inj_xO. rewrite <- !Z.pow_add_r by lia. f_equal. lia.
  - rewrite shr_1_m by done. reflexivity.
Qed.

Lemma shr_record_of_loc_m m l : shr_m (shr_record_of_loc m l) = m.
Proof. by destruct l as [|[]]. Qed.

Section RoundBounds.
Variables prec emax : Z.
Hypothesis Hprec : 0 < prec.
Hypothesis Hemax : 3 <= 2 * emax.

Lemma fexp_le K x : x <= K → SpecFloat.emin prec emax <= K - prec →
  fexp prec emax x <= K - prec.
Proof. unfold fexp. lia. Qed.

(** Shifting a mantissa to its format exponent keeps it below [2^K]. *)
Lemma shr_fexp_below m e l K :
  0 <= m → m < 2 ^ (K - e) → SpecFloat.emin prec emax <= K →
  let '(mrs', e') := shr_fexp prec emax m e l in
  0 <= shr_m mrs' ∧ shr_m mrs' < 2 ^ (K - e') ∧
  e' = Z.max e (fexp prec emax (Zdigits2 m + e)) ∧ e' <= K.
Proof.
  intros Hm Hlt Hemin.
  assert (HeK : e <= K).
  { destruct (Z.le_gt_cases e K); [done|].
    rewrite Z.pow_neg_r in Hlt by lia. lia. }
  assert (Hdig : Zdigits2 m + e <= K).
  { pose proof (Zdigits2_le m (K - e) Hm ltac:(lia) Hlt). lia. }
  assert (Hfexp : fexp prec emax (Zdigits2 m + e) <= K)
    by (unfold fexp; lia).
  unfold shr_fexp, shr.
  destruct (fexp prec emax (Zdigits2 m + e) - e) as [|p|p] eqn:Hn.
  - rewrite shr_record_of_loc_m. repeat split; (done || lia).
  - rewrite iter_pos_shr_m by (rewrite shr_record_of_loc_m; lia).
    rewrite shr_record_of_loc_m.
    assert (He' : e + Z.pos p = fexp prec emax (Zdigits2 m + e)) by lia.
    split; [apply Z.div_pos; lia|]. split; [|lia].
    destruct (Z.le_gt_cases 0 (K - e - Z.pos p)) as [Hge|Hneg].
    + apply Z.div_lt_upper_bound; [lia|].
      rewrite <- Z.pow_add_r by lia.
      replace (Z.pos p + (K - (e + Z.pos p))) with (K - e) by lia. done.
    + rewrite Z.div_small.
      * apply Z.pow_pos_nonneg; lia.
      * split; [done|]. eapply Z.lt_le_trans; [exact Hlt|].
        apply Z.pow_le_mono_r; lia.
  - rewrite shr_record_of_loc_m. repeat split; (done || lia).
Qed.

Lemma round_nearest_even_bounds m l :
  m <= round_nearest_even m l <= m + 1.
Proof.
  unfold round_nearest_even. destruct l as [|[]]; try lia.
  destruct (Z.even m); lia.
Qed.

(** Rounding a mantissa below [2^K] gives a finite number below
    [2^(K+1)]. *)
Lemma binary_round_aux_below s m e l K :
  0 <= m → m < 2 ^ (K - e) →
  e <= emax - prec → K + 1 <= emax → SpecFloat.emin prec emax <= K →
  Machine.magnitude_below (K + 1) (binary_round_aux prec emax s m e l).
Proof.
  intros Hm Hlt He HK Hemin.
  assert (Hemin' : SpecFloat.emin prec emax <= emax - prec)
    by (unfold SpecFloat.emin; lia).
  unfold binary_round_aux.
  pose proof (shr_fexp_below m e l K Hm Hlt Hemin) as H1.
  destruct (shr_fexp prec emax m e l) as [mrs' e'].
  destruct H1 as (Hm' & Hlt' & He' & He'K).
  pose proof (round_nearest_even_bounds (shr_m mrs') (loc_of_shr_record mrs'))
    as Hr.
  set (mr := round_nearest_even (shr_m mrs') (loc_of_shr_record mrs')) in *.
  assert (Hpow : 2 ^ (K + 1 - e') = 2 * 2 ^ (K - e')).
  { rewrite <- Z.pow_succ_r by lia. f_equal. lia. }
  assert (Hmr : mr < 2 ^ (K + 1 - e')) by lia.
  pose proof (shr_fexp_below mr e' loc_Exact (K + 1) ltac:(lia) Hmr ltac:(lia))
    as H2.
  destruct (shr_fexp prec emax mr e' loc_Exact) as [mrs'' e''].
  destruct H2 as (Hm'' & Hlt'' & He'' & _).
  assert (Hdig : Zdigits2 m + e <= K).
  { assert (e <= K).
    { destruct (Z.le_gt_cases e K); [done|].
      rewrite Z.pow_neg_r in Hlt by lia. lia. }
    pose proof (Zdigits2_le m (K - e) Hm ltac:(lia) Hlt). lia. }
  assert (Hdig' : Zdigits2 mr + e' <= K + 1).
  { pose proof (Zdigits2_le mr (K + 1 - e') ltac:(lia) ltac:(lia) Hmr). lia. }
  assert (Hfin : e'' <= emax - prec) by (unfold fexp in *; lia).
  destruct (shr_m mrs'') as [|p|p] eqn:Hs; [done| |lia].
  destruct (Z.leb_spec e'' (emax - prec)); [|lia].
  exact Hlt''.
Qed.
End RoundBounds.

Lemma magnitude_below_mono K K' x :
  K <= K' → Machine.magnitude_below K x → Machine.magnitude_below K' x.
Proof.
  intros HK. destruct x as [| | |s m e]; cbn; try done.
  intros H. eapply Z.lt_le_trans; [exact H|].
  destruct (Z.le_gt_cases 0 (K - e)).
  - apply Z.pow_le_mono_r; lia.
  - rewrite Z.pow_neg_r in H by lia. lia.
Qed.

(** The exponent of a finite non-zero number below [2^K] is below [K]. *)
Lemma below_exponent (m : positive) e K : Z.pos m < 2 ^ (K - e) → e < K.
Proof.
  intros H. destruct (Z.lt_ge_cases e K); [done|].
  destruct (Z.eq_dec e K) as [->|].
  - rewrite Z.sub_diag in H. cbn in H. lia.
  - rewrite Z.pow_neg_r in H by lia. lia.
Qed.

Lemma pos_iter_xO m d : Z.pos (Pos.iter xO m d) = Z.pos m * 2 ^ Z.pos d.
Proof.
  induction d as [|d IH] using Pos.peano_ind.
  - cbn. lia.
  - rewrite Pos.iter_succ, Pos2Z.inj_xO, IH, Pos2Z.inj_succ.
    rewrite Z.pow_succ_r by lia. lia.
Qed.

Lemma shl_align_spec mx ex ez :
  let '(m', e') := shl_align mx ex ez in
  e' = Z.min ex ez ∧ Z.pos m' = Z.pos mx * 2 ^ (ex - e').
Proof.
  unfold shl_align. destruct (ez - ex) as [|d|d] eqn:Hd.
  - split; [lia|]. rewrite Z.sub_diag. cbn. lia.
  - split; [lia|]. rewrite Z.sub_diag. cbn. lia.
  - split; [lia|]. rewrite pos_iter_xO. do 2 f_equal. lia.
Qed.

Section OpBounds.
Variables prec emax : Z.
Hypothesis Hprec : 0 < prec.
Hypothesis Hemax : 3 <= 2 * emax.

Lemma binary_round_below s m e K :
  Z.pos m < 2 ^ (K - e) →
  e <= emax - prec → K + 1 <= emax → SpecFloat.emin prec emax <= K →
  Machine.magnitude_below (K + 1) (binary_round prec emax s m e).
Proof.
  intros Hlt He HK Hemin. unfold binary_round.
  pose proof (shl_align_spec m e (fexp prec emax (Z.pos (digits2_pos m) + e)))
    as Hal.
  destruct (shl_align m e _) as [mz ez]. destruct Hal as [Hez Hmz].
  pose proof (below_exponent m e K Hlt).
  apply (binary_round_aux_below prec emax Hprec Hemax); [lia| |lia|lia|lia].
  rewrite Hmz.
  replace (K - ez) with ((K - e) + (e - ez)) by lia.
  rewrite Z.pow_add_r by lia.
  apply Z.mul_lt_mono_pos_r; [apply Z.pow_pos_nonneg; lia|done].
Qed.

Lemma SFmul_below x y K1 K2 :
  Machine.magnitude_below K1 x → Machine.magnitude_below K2 y →
  K1 + K2 <= emax - prec + 2 → K1 + K2 + 1 <= emax →
  SpecFloat.emin prec emax <= K1 + K2 →
  Machine.magnitude_below (K1 + K2 + 1) (SFmul prec emax x y).
Proof.
  intros Hx Hy He HK Hemin.
  destruct x as [sx| | |sx mx ex], y as [sy| | |sy my ey]; cbn in *; try done.
  pose proof (below_exponent _ _ _ Hx). pose proof (below_exponent _ _ _ Hy).
  apply (binary_round_aux_below prec emax Hprec Hemax); [lia| |lia|lia|lia].
  rewrite Pos2Z.inj_mul.
  replace (K1 + K2 - (ex + ey)) with ((K1 - ex) + (K2 - ey)) by lia.
  rewrite Z.pow_add_r by lia.
  apply Z.mul_lt_mono_nonneg; lia.
Qed.

Lemma SFadd_below x y K :
  Machine.magnitude_below K x → Machine.magnitude_below K y →
  K <= emax - prec → K + 2 <= emax → SpecFloat.emin prec emax <= K →
  Machine.magnitude_below (K + 2) (SFadd prec emax x y).
Proof.
  intros Hx Hy He HK Hemin.
  destruct x as [sx| | |sx mx ex], y as [sy| | |sy my ey]; try done.
  - destruct sx, sy; done.
  - cbn [SFadd]. apply (magnitude_below_mono K); [lia|done].
  - cbn [SFadd]. apply (magnitude_below_mono K); [lia|done].
  - cbn [Machine.magnitude_below] in Hx, Hy.
    pose proof (below_exponent _ _ _ Hx). pose proof (below_exponent _ _ _ Hy).
    cbn [SFadd].
    pose proof (shl_align_spec mx ex (Z.min ex ey)) as Hax.
    pose proof (shl_align_spec my ey (Z.min ex ey)) as Hay.
    destruct (shl_align mx ex _) as [mx' ex'], (shl_align my ey _) as [my' ey'].
    cbn [fst]. destruct Hax as [Hex' Hmx'], Hay as [Hey' Hmy'].
    set (ez := Z.min ex ey) in *.
    assert (Hbx : Z.pos mx' < 2 ^ (K - ez)).
    { rewrite Hmx'. replace (K - ez) with ((K - ex) + (ex - ex')) by lia.
      rewrite Z.pow_add_r by lia.
      apply Z.mul_lt_mono_pos_r; [apply Z.pow_pos_nonneg; lia|done]. }
    assert (Hby : Z.pos my' < 2 ^ (K - ez)).
    { rewrite Hmy'. replace (K - ez) with ((K - ey) + (ey - ey')) by lia.
      rewrite Z.pow_add_r by lia.
      apply Z.mul_lt_mono_pos_r; [apply Z.pow_pos_nonneg; lia|done]. }
    assert (Hpow : 2 ^ (K + 1 - ez) = 2 * 2 ^ (K - ez)).
    { rewrite <- Z.pow_succ_r by lia. f_equal. lia. }
    unfold binary_normalize.
    destruct (cond_Zopp sx (Z.pos mx') + cond_Zopp sy (Z.pos my')) as [|m|m]
      eqn:Hsum; [done| |].
    + replace (K + 2) with ((K + 1) + 1) by lia.
      apply binary_round_below; [|lia|lia|lia].
      rewrite Hpow. destruct sx, sy; cbn [cond_Zopp] in Hsum; lia.
    + replace (K + 2) with ((K + 1) + 1) by lia.
      apply binary_round_below; [|lia|lia|lia].
      rewrite Hpow. destruct sx, sy; cbn [cond_Zopp] in Hsum; lia.
Qed.
End OpBounds.

Section DivBounds.
Variables prec emax : Z.
Hypothesis Hprec : 0 < prec.
Hypothesis Hemax : 3 <= 2 * emax.

(** Dividing a number below [2^K1] by a number [my * 2^ey] with
    [2^L <= my]. *)
Lemma SFdiv_below x sy my ey K1 L :
  Machine.magnitude_below K1 x →
  0 <= L → 2 ^ L <= Z.pos my →
  K1 - ey <= emax - prec + 1 → K1 - ey - L + 1 <= emax →
  SpecFloat.emin prec emax <= K1 - ey - L →
  Machine.magnitude_below (K1 - ey - L + 1)
    (SFdiv prec emax x (S754_finite sy my ey)).
Proof.
  intros Hx HL Hmy He HK Hemin.
  destruct x as [sx| | |sx mx ex]; try done.
  cbn [Machine.magnitude_below] in Hx. pose proof (below_exponent _ _ _ Hx) as Hex.
  cbn [SFdiv]. unfold SFdiv_core_binary.
  set (d1 := Zdigits2 (Z.pos mx)). set (d2 := Zdigits2 (Z.pos my)).
  set (e' := Z.min (fexp prec emax (d1 + ex - (d2 + ey))) (ex - ey)).
  assert (Hd1 : d1 + ex <= K1).
  { pose proof (Zdigits2_le (Z.pos mx) (K1 - ex) ltac:(lia) ltac:(lia) Hx).
    unfold d1. lia. }
  assert (Hd2 : L < d2).
  { unfold d2. cbn [Zdigits2].
    pose proof (digits2_pos_bounds my) as [_ Hhi].
    destruct (Z.lt_ge_cases L (Z.pos (digits2_pos my))); [done|].
    assert (2 ^ Z.pos (digits2_pos my) <= 2 ^ L)
      by (apply Z.pow_le_mono_r; lia).
    lia. }
  assert (He'K : e' <= K1 - ey - L) by (unfold e', fexp; lia).
  assert (Hs : 0 <= ex - ey - e') by (unfold e'; lia).
  set (m' := match ex - ey - e' with
             | 0 => Z.pos mx
             | Z.pos _ => Z.shiftl (Z.pos mx) (ex - ey - e')
             | Z.neg _ => 0
             end).
  assert (Hm' : m' = Z.pos mx * 2 ^ (ex - ey - e')).
  { unfold m'. destruct (ex - ey - e') as [|p|p] eqn:Hp.
    - cbn. lia.
    - apply Z.shiftl_mul_pow2. lia.
    - lia. }
  assert (Hq : Z.div_eucl m' (Z.pos my) = (m' / Z.pos my, m' mod Z.pos my)).
  { unfold Z.div, Z.modulo. by destruct (Z.div_eucl m' (Z.pos my)). }
  rewrite Hq.
  apply (binary_round_aux_below prec emax Hprec Hemax); [| |lia|lia|lia].
  - apply Z.div_pos; lia.
  - apply Z.div_lt_upper_bound; [lia|].
    eapply Z.lt_le_trans with (2 ^ L * 2 ^ (K1 - ey - L - e')).
    + rewrite <- Z.pow_add_r by lia. rewrite Hm'.
      replace (L + (K1 - ey - L - e')) with ((K1 - ex) + (ex - ey - e')) by lia.
      rewrite Z.pow_add_r by lia.
      apply Z.mul_lt_mono_pos_r; [apply Z.pow_pos_nonneg; lia|done].
    + apply Z.mul_le_mono_nonneg_r; [apply Z.pow_nonneg; lia|done].
Qed.
End DivBounds.

(** A finite number below [2^31] converts to [int]. *)
Lemma to_int_below K x :
  Machine.magnitude_below K x → 0 <= K <= 31 →
  Machine.to_int x = Some (Machine.Ztrunc x) ∧
  - 2 ^ K < Machine.Ztrunc x < 2 ^ K.
Proof.
  intros Hx HK.
  assert (Hb : - 2 ^ K < Machine.Ztrunc x < 2 ^ K).
  { destruct x as [s| | |s m e]; try done.
    - cbn. pose proof (Z.pow_pos_nonneg 2 K). lia.
    - cbn [Machine.magnitude_below] in Hx. pose proof (below_exponent _ _ _ Hx).
      cbn [Machine.Ztrunc].
      assert (0 <= Z.shiftl (Z.pos m) e < 2 ^ K).
      { destruct (Z.le_gt_cases 0 e).
        - rewrite Z.shiftl_mul_pow2 by done. split; [lia|].
          replace K with ((K - e) + e) by lia.
          rewrite Z.pow_add_r by lia.
          apply Z.mul_lt_mono_pos_r; [apply Z.pow_pos_nonneg; lia|done].
        - rewrite Z.shiftl_div_pow2 by lia. split; [apply Z.div_pos; lia|].
          apply Z.div_lt_upper_bound; [apply Z.pow_pos_nonneg; lia|].
          rewrite <- Z.pow_add_r by lia.
          replace (- e + K) with (K - e) by lia. done. }
      destruct s; cbn [cond_Zopp]; lia. }
  split; [|done].
  apply to_int_Some.
  - by destruct x.
  - assert (2 ^ K <= 2 ^ 31) by (apply Z.pow_le_mono_r; lia).
    unfold INT_MIN, INT_MAX. lia.
Qed.

Lemma SFleb_abs_one sg m e :
  SFleb (SFabs (S754_finite sg m e)) (S754_finite false 8388608 (-23)) = true →
  e < -23 ∨ (e = -23 ∧ Z.pos m <= 8388608).
Proof.
  unfold SFleb. cbn [SFabs SFcompare].
  destruct (Z.compare_spec e (-23)) as [->|Hlt|Hgt]; [|by left|done].
  rewrite Pos.compare_cont_spec.
  destruct (Pos.compare_spec m 8388608) as [->|Hm|Hm]; cbn [Pos.switch_Eq];
    [right|right|done].
  - split; [reflexivity|]. apply Z.le_refl.
  - split; [reflexivity|]. apply Pos2Z.pos_lt_pos in Hm. apply Z.lt_le_incl, Hm.
Qed.

Lemma normalised_below s : Machine.normalised s → Machine.magnitude_below 1 s.
Proof.
  intros [Hv Hle]. destruct s as [sg|sg| |sg m e]; try done.
  cbn [Machine.magnitude_below]. cbn [valid_binary] in Hv.
  unfold bounded, canonical_mantissa in Hv.
  apply andb_prop in Hv as [Hc _]. apply Z.eqb_eq in Hc.
  pose proof (digits2_pos_bounds m) as [_ Hhi].
  assert (Hd : Z.pos (digits2_pos m) <= 24) by (unfold fexp in Hc; lia).
  assert (Hm : Z.pos m < 2 ^ 24).
  { eapply Z.lt_le_trans; [exact Hhi|]. apply Z.pow_le_mono_r; lia. }
  change Machine.one with (S754_finite false 8388608 (-23)) in Hle.
  apply SFleb_abs_one in Hle as [Hlt|[-> Hle]].
  - eapply Z.lt_le_trans; [exact Hm|]. apply Z.pow_le_mono_r; lia.
  - change (2 ^ (1 - -23)) with 16777216. lia.
Qed.

(** The row of a sample below [2^18] in magnitude is finite and below
    [2^31]: its conversion to [int] is defined. *)
Lemma waveform_row_below K s :
  Machine.magnitude_below K s → 0 <= K <= 18 →
  Machine.magnitude_below (K + 13) (Machine.waveform_row s).
Proof.
  intros Hs HK. unfold Machine.waveform_row.
  change (Machine.float_of_int _wH) with (S754_finite false 8388608 (-14)).
  change (Machine.float_of_int 2) with (S754_finite false 8388608 (-22)).
  assert (H512 : Machine.magnitude_below 10 (S754_finite false 8388608 (-14)))
    by reflexivity.
  pose proof (SFmul_below 24 128 ltac:(lia) ltac:(lia) s _ K 10 Hs H512
                ltac:(lia) ltac:(lia) ltac:(unfold SpecFloat.emin; lia)) as H1.
  pose proof (SFadd_below 24 128 ltac:(lia) ltac:(lia) _ _ (K + 10 + 1) H1
                (magnitude_below_mono 10 (K + 10 + 1) _ ltac:(lia) H512)
                ltac:(lia) ltac:(lia) ltac:(unfold SpecFloat.emin; lia)) as H2.
  pose proof (SFdiv_below 24 128 ltac:(lia) ltac:(lia) _ false 8388608 (-22)
                (K + 10 + 1 + 2) 23 H2 ltac:(lia) ltac:(cbn; lia)
                ltac:(lia) ltac:(lia) ltac:(unfold SpecFloat.emin; lia)) as H3.
  replace (K + 10 + 1 + 2 - -22 - 23 + 1) with (K + 13) in H3 by lia.
  exact H3.
Qed.

Lemma waveform_row_normalised s :
  Machine.normalised s → is_Some (Machine.to_int (Machine.waveform_row s)).
Proof.
  intros Hs%normalised_below.
  destruct (to_int_below 14 (Machine.waveform_row s)) as [-> _];
    [|lia|by eexists].
  apply (waveform_row_below 1 s Hs). lia.
Qed.

(** ** Normalised samples in machine arithmetic *)

(** X26. In waveform mode, with the numbers of the machine: when every
    sample of the window is a [float] of magnitude at most [1.0f], the row
    of each sample is finite and converts to an [int], so [draw] is defined;
    it plots [ECHANTILLONS] pixels, sample [i] in column
    [i * (_wW-1) / 4095] at the clamped integral part of its row, a row in
    [0 .. _wH]. *)
Theorem draw_waveform_normalised st :
  Z.of_nat (length (Machine._samples st)) = ECHANTILLONS →
  Machine.waveform st = 1 →
  Forall Machine.normalised (Machine._samples st) →
  ∃ px, Machine.draw st = Some px ∧
    Z.of_nat (length px) = ECHANTILLONS ∧
    ∀ (i : nat) s, Machine._samples st !! i = Some s →
      ∃ y, px !! i = Some (column (Z.of_nat i) (ECHANTILLONS - 1), y) ∧
        Machine.to_int (Machine.waveform_row s)
        = Some (Machine.Ztrunc (Machine.waveform_row s)) ∧
        y = clamp_y (Machine.Ztrunc (Machine.waveform_row s)) ∧
        0 <= y <= _wH.
Proof.
  intros Hs Hw Hall.
  destruct (machine_draw_waveform_Some st Hs Hw) as [px Hpx].
  { eapply Forall_impl; [exact Hall|]. apply waveform_row_normalised. }
  exists px. split; [exact Hpx|].
  destruct (machine_draw_waveform_inv st px Hs Hw Hpx) as [Hlen Hpix].
  split; [rewrite Hlen, ECHANTILLONS_eq; lia|].
  intros i s Hi. destruct (Hpix i s Hi) as (y0 & Hy & Hp).
  pose proof (to_int_inv _ _ Hy) as (Hy0 & _). subst y0.
  exists (clamp_y (Machine.Ztrunc (Machine.waveform_row s))).
  split; [exact Hp|]. split; [exact Hy|]. split; [reflexivity|].
  apply clamp_y_range.
Qed.

Lemma draw_waveform_normalised_witness :
  ∃ px, Machine.draw (Machine.constant_state Machine.below_one 1) = Some px ∧
    Z.of_nat (length px) = ECHANTILLONS ∧
    ∀ (i : nat) s,
      Machine._samples (Machine.constant_state Machine.below_one 1) !! i
      = Some s →
      ∃ y, px !! i = Some (column (Z.of_nat i) (ECHANTILLONS - 1), y) ∧
        Machine.to_int (Machine.waveform_row s)
        = Some (Machine.Ztrunc (Machine.waveform_row s)) ∧
        y = clamp_y (Machine.Ztrunc (Machine.waveform_row s)) ∧
        0 <= y <= _wH.
Proof.
  apply draw_waveform_normalised.
  - cbn. rewrite length_replicate. reflexivity.
  - reflexivity.
  - apply Forall_replicate. split; reflexivity.
Defined.
